(** * TPU single-step decoding attention (axlearn/common/flash_attention/tpu_decoding.py)

    A shallow embedding of [_tpu_decoding_kernel] and of the driver
    [TPUDecoding.is_supported] / [TPUDecoding.__call__], with the properties
    of the block offset table, of the streaming softmax accumulator and of
    the per-lane scan.

    Conventions.
    - Python integers are [Z].  The per-batch KV length is an int32 array
      ([target_positions[:, -1] + 1]) and wraps around ([wrap_int32]); the
      table entries are block indices below the number of blocks.
    - Integer tables (block maps, block offset tables, per-batch lengths)
      are lists, as the driver builds them.
    - Tensors are total functions from indices to numbers, the shape being
      carried by the loop bounds that read them; where an array operation
      of the driver raises on shapes that do not fit, [prepare] raises.
    - The kernel is embedded twice.  [Float32Kernel] computes in float32
      as the scratch buffers do: [NEG_INF] is the finite number [-1e15],
      sums overflow to an infinity, [0 * inf] is NaN, [exp] underflows to
      0.  [Kernel] computes in exact arithmetic on [xreal], where
      [NEG_INF] is idealised; the float32 kernel is shown to compute what
      the exact one computes as long as the logits and the values stay
      within a range ([Float32Range]), and the two differ outside it.
      The properties of the accumulator as an algorithm are stated on the
      exact kernel, those of what the code returns on the float32 one. *)

From Stdlib Require Import ZArith List Bool Lia Reals Lra Sorted.
Import ListNotations.

Open Scope Z_scope.

(** ** Block maps and block offset tables *)

Module Builder.

(** A [MaskFn] takes the query position and the key position. *)
Definition MaskFn := Z -> Z -> bool.

(** [causal_mask] and the mask of [jax_fn_mask] in tpu_attention_test.py,
    which that file documents to be the same as
    [sliding_window_causal_mask]: [and_masks(causal_mask, q - k <= w)]. *)
Definition causal_mask : MaskFn := fun query_position key_position =>
  query_position >=? key_position.

Definition and_masks (f g : MaskFn) : MaskFn := fun q k => f q k && g q k.

Definition sliding_window_causal_mask (sliding_window_size : Z) : MaskFn :=
  and_masks causal_mask
    (fun query_position key_position =>
       query_position - key_position <=? sliding_window_size).

(** [jax_fn_mask] of tpu_attention_test.py (lines 37-51), a mask function
    given without a window size. *)
Definition jax_fn_mask (sliding_window_size : Z) : MaskFn :=
  let mask : MaskFn := fun query_position key_position =>
    query_position - key_position <=? sliding_window_size in
  and_masks causal_mask mask.

(** [pl.cdiv]. *)
Definition cdiv (a b : Z) : Z := (a + b - 1) / b.

(** [range(lo, hi)]. *)
Definition zrange (lo hi : Z) : list Z :=
  map (fun n => lo + Z.of_nat n) (seq 0 (Z.to_nat (hi - lo))).

(** Modelled from the spec: [build_mask] of flash_attention/common.py is not
    among the sources.  Section 4.1: for every query-block row, the key
    blocks "where at least one (q,k) pair within the block pair is
    unmasked", by "evaluating the predicate over the full block grid".
    Blocks are cut off at the sequence lengths. *)
Definition block_any (mask_fn : MaskFn) (q_seq_len kv_seq_len block_q block_k i j : Z)
  : bool :=
  existsb (fun q => existsb (fun k => mask_fn q k)
                      (zrange (j * block_k) (Z.min ((j + 1) * block_k) kv_seq_len)))
          (zrange (i * block_q) (Z.min ((i + 1) * block_q) q_seq_len)).

Definition build_mask (mask_fn : MaskFn) (q_seq_len kv_seq_len block_q block_k : Z)
  : list (list bool) :=
  map (fun i => map (fun j => block_any mask_fn q_seq_len kv_seq_len block_q block_k i j)
                    (zrange 0 (cdiv kv_seq_len block_k)))
      (zrange 0 (cdiv q_seq_len block_q)).

(** Modelled from the spec: [build_sliding_window_mask] of
    flash_attention/common.py is not among the sources.  Section 4.1 asks for
    "a closed-form computation ... instead of evaluating the predicate over
    the full block grid (O(num_blocks) instead of O(num_blocks^2))": one
    pair of block bounds per query-block row.  The first key block is the
    one holding the oldest key the first query of the row may see, the last
    one holds the key at the last query of the row (or the last key). *)
Definition sliding_window_first_block (block_q block_k sliding_window_size i : Z) : Z :=
  Z.max 0 (i * block_q - sliding_window_size) / block_k.

Definition sliding_window_last_block (q_seq_len kv_seq_len block_q block_k i : Z) : Z :=
  Z.min (Z.min ((i + 1) * block_q) q_seq_len - 1) (kv_seq_len - 1) / block_k.

Definition build_sliding_window_mask
  (q_seq_len kv_seq_len block_q block_k sliding_window_size : Z) : list (list bool) :=
  map (fun i =>
         let start_block := sliding_window_first_block block_q block_k sliding_window_size i in
         let end_block := sliding_window_last_block q_seq_len kv_seq_len block_q block_k i in
         (* a row whose oldest visible key lies beyond the keys is empty *)
         let visible := i * block_q - sliding_window_size <? kv_seq_len in
         map (fun j => visible && (start_block <=? j) && (j <=? end_block))
             (zrange 0 (cdiv kv_seq_len block_k)))
      (zrange 0 (cdiv q_seq_len block_q)).

(** Modelled from the spec: [query_iterator_indices] of
    flash_attention/common.py is not among the sources.  Section 3, Block
    Offset Table: "an ordered sequence of key/value block indices that are
    NOT fully masked, ... padded to a fixed maximum block count; entries
    beyond the valid count are filled with a sentinel".  It returns the table
    and the number of valid entries of every row. *)
Fixpoint true_indices (j : Z) (row : list bool) : list Z :=
  match row with
  | [] => []
  | b :: row' => if b then j :: true_indices (j + 1) row' else true_indices (j + 1) row'
  end.

Definition offset_row (padding : Z) (row : list bool) : list Z :=
  let idx := true_indices 0 row in
  idx ++ repeat padding (length row - length idx).

Definition query_iterator_indices (block_mask_map : list (list bool)) (padding : Z)
  : list (list Z) * list Z :=
  (map (offset_row padding) block_mask_map,
   map (fun row => Z.of_nat (length (true_indices 0 row))) block_mask_map).

(** The set of key blocks a table row lists, sentinel entries left out. *)
Definition row_blocks (padding : Z) (row : list Z) : list Z :=
  filter (fun e => negb (e =? padding)) row.

End Builder.

(** ** Numbers

    [NEG_INF] comes from attention_bias.py, which is not among the sources;
    the spec calls it "negative infinity".  The kernel needs it finite: line
    83 stores it in [m_i], line 119 evaluates [exp(m_prev - m_next)] when
    both are [NEG_INF] (a block without any accepted position at the start of
    a lane), and line 103 clamps [qk + bias] from below with it.  It is
    idealised here as a finite value of absorbing magnitude: adding a real
    to it leaves it unchanged, it lies below every real, [NEG_INF - NEG_INF]
    is [0], and [exp] underflows to [0] at [NEG_INF - x] for every real [x].
    Ordinary floats are idealised as reals, without rounding.  This is the
    arithmetic of the exact embedding [Kernel]; float32 itself, with
    [NEG_INF = -1e15], is [F32] below. *)

Inductive xreal : Type :=
| NEG_INF : xreal
| Fin (r : R) : xreal.

Definition xmax (a b : xreal) : xreal :=
  match a, b with
  | NEG_INF, _ => b
  | _, NEG_INF => a
  | Fin x, Fin y => Fin (Rmax x y)
  end.

Definition xadd (a b : xreal) : xreal :=
  match a, b with
  | Fin x, Fin y => Fin (x + y)
  | _, _ => NEG_INF
  end.

(** [a - b].  A real minus [NEG_INF] overflows [exp]; the kernel only ever
    subtracts a running maximum from a value it dominates
    (lemma [xsub_xmax_not_above]), so that case is not reached and is
    given the value of [a]. *)
Definition xsub (a b : xreal) : xreal :=
  match a, b with
  | NEG_INF, NEG_INF => Fin 0
  | NEG_INF, Fin _ => NEG_INF
  | Fin x, NEG_INF => Fin x
  | Fin x, Fin y => Fin (x - y)
  end.

Definition xexp (a : xreal) : R :=
  match a with
  | NEG_INF => 0%R
  | Fin x => exp x
  end.

Definition xle (a b : xreal) : Prop :=
  match a, b with
  | NEG_INF, _ => True
  | Fin _, NEG_INF => False
  | Fin x, Fin y => (x <= y)%R
  end.

(** Reductions along the last axis of a row given as a function of the
    column: [sum(axis=-1)] and [max(axis=-1)] over [n] columns. *)
Definition Rsum (l : list R) : R := fold_right Rplus 0%R l.

Definition sum_n (f : nat -> R) (n : nat) : R := Rsum (map f (seq 0 n)).

Definition xmax_list (l : list xreal) : xreal := fold_right xmax NEG_INF l.

Definition max_n (f : nat -> xreal) (n : nat) : xreal := xmax_list (map f (seq 0 n)).

(** ** The kernel body in exact arithmetic *)

Module Kernel.
Import Builder.

(** A two-dimensional block, by row and column. *)
Definition Tensor2 := nat -> nat -> R.

(** The scratch buffers [m_i], [l_i] (one column) and [o_scratch]. *)
Record Scratch : Type := mkScratch {
  m_i : nat -> xreal;
  l_i : nat -> R;
  o_scratch : Tensor2
}.

(** What the body can write: the scratch buffers and the output block.
    [stores] is a ghost log of the scan indices at which [final] stored into
    [o_ref], most recent first. *)
Record Buffers : Type := mkBuffers {
  scratch : Scratch;
  o_ref : Tensor2;
  stores : list nat
}.

Section Body.
(** Compile time arguments. *)
Variable softmax_scale : R.
Variable mask_fn : option MaskFn.
(** [q_ref.shape[1]] and [k_ref.shape[1]]. *)
Variable head_dim block_k : nat.

(** [pl.dot(q, k)] for [q : (q_seq_head, head_dim)], [k : (head_dim, block_k)]. *)
Definition dot (q k : Tensor2) : Tensor2 :=
  fun i c => sum_n (fun h => q i h * k h c)%R head_dim.

Definition init (s : Scratch) : Scratch :=
  {| m_i := fun _ => NEG_INF; l_i := fun _ => 0%R; o_scratch := fun _ _ => 0%R |}.

(** Lines 96-110: the masked logits of the block. *)
Definition masked_logits (kv_offset kv_seq_len : Z)
  (q_ref k_ref : Tensor2) (b_ref : option (nat -> nat -> xreal)) : nat -> nat -> xreal :=
  fun i c =>
    let qk := dot q_ref k_ref i c in
    let qk := if Req_dec_T softmax_scale 1 then qk else (qk * softmax_scale)%R in
    let qk := match b_ref with
              | Some b => xmax (xadd (Fin qk) (b i c)) NEG_INF
              | None => Fin qk
              end in
    let block_kv_indices := kv_offset + Z.of_nat c in
    let kv_mask := block_kv_indices <? kv_seq_len in
    let kv_mask := match mask_fn with
                   | Some f => kv_mask && f (kv_seq_len - 1) block_kv_indices
                   | None => kv_mask
                   end in
    if kv_mask then qk else NEG_INF.

(** Whether the key at absolute position [p] is within the true KV length
    and accepted by the mask for the decode query, at [kv_seq_len - 1]. *)
Definition key_accepted (kv_seq_len p : Z) : bool :=
  (p <? kv_seq_len) &&
  match mask_fn with
  | Some f => f (kv_seq_len - 1) p
  | None => true
  end.

(** Lines 112-133: the accumulator update. *)
Definition update (qk : nat -> nat -> xreal) (v_ref : Tensor2) (s : Scratch) : Scratch :=
  let m_prev := m_i s in
  let l_prev := l_i s in
  let o_prev := o_scratch s in
  let m_curr := fun i => max_n (qk i) block_k in
  let m_next := fun i => xmax (m_prev i) (m_curr i) in
  let correction := fun i => xexp (xsub (m_prev i) (m_next i)) in
  let l_prev_corr := fun i => (correction i * l_prev i)%R in
  let s_curr := fun i c => xexp (xsub (qk i c) (m_next i)) in
  let l_curr := fun i => sum_n (s_curr i) block_k in
  let l_next := fun i => (l_prev_corr i + l_curr i)%R in
  let o_prev_corr := fun i d => (correction i * o_prev i d)%R in
  (* pl.dot(s_curr, v.T) for v : (head_dim, block_k) *)
  let o_curr := fun i d => sum_n (fun c => s_curr i c * v_ref d c)%R block_k in
  let o_next := fun i d => (o_prev_corr i d + o_curr i d)%R in
  {| m_i := m_next; l_i := l_next; o_scratch := o_next |}.

(** The weight [s_curr] the update gives to column [c] of the block
    (line 122): what the column adds to [l], and, times its value row, to
    [o]. *)
Definition s_curr (qk : nat -> nat -> xreal) (s : Scratch) : nat -> nat -> R :=
  fun i c => xexp (xsub (qk i c) (xmax (m_i s i) (max_n (qk i) block_k))).

Definition compute (kv_offset kv_seq_len : Z)
  (q_ref k_ref v_ref : Tensor2) (b_ref : option (nat -> nat -> xreal)) (s : Scratch)
  : Scratch :=
  update (masked_logits kv_offset kv_seq_len q_ref k_ref b_ref) v_ref s.

Definition final (scan_index : nat) (bufs : Buffers) : Buffers :=
  {| scratch := scratch bufs;
     o_ref := fun i d => (o_scratch (scratch bufs) i d / l_i (scratch bufs) i)%R;
     stores := scan_index :: stores bufs |}.

Definition on_scratch (f : Scratch -> Scratch) (bufs : Buffers) : Buffers :=
  {| scratch := f (scratch bufs); o_ref := o_ref bufs; stores := stores bufs |}.

(** [_tpu_decoding_kernel] at grid coordinate
    [(batch_index, _, non_empty_kv_block_index)], the blocks [q_ref],
    [k_ref], [v_ref], [b_ref] being those the block specs select. *)
Definition _tpu_decoding_kernel
  (kv_seq_len_ref : list Z) (kv_block_offset : list (list Z))
  (kv_block_offset_size : list Z)
  (batch_index non_empty_kv_block_index : nat)
  (q_ref k_ref v_ref : Tensor2) (b_ref : option (nat -> nat -> xreal))
  (bufs : Buffers) : Buffers :=
  let bufs := if (non_empty_kv_block_index =? 0)%nat then on_scratch init bufs else bufs in
  let kv_offset :=
    nth non_empty_kv_block_index (nth batch_index kv_block_offset []) 0
    * Z.of_nat block_k in
  let kv_seq_len := nth batch_index kv_seq_len_ref 0 in
  let num_non_empty_kv_blocks := nth batch_index kv_block_offset_size 0 in
  let bufs :=
    if Z.of_nat non_empty_kv_block_index <? num_non_empty_kv_blocks
    then on_scratch (compute kv_offset kv_seq_len q_ref k_ref v_ref b_ref) bufs
    else bufs in
  if Z.of_nat non_empty_kv_block_index =? num_non_empty_kv_blocks - 1
  then final non_empty_kv_block_index bufs
  else bufs.

End Body.

End Kernel.

(** ** The driver *)

Module Driver.
Import Builder Kernel.

(** The exceptions of the driver: [ValueError] (line 175) and
    [AssertionError] (line 244) are raised by the driver itself, the others
    by the array operations it calls, in the classes JAX raises them. *)
Inductive exn : Type :=
| ValueError | AssertionError | ZeroDivisionError | IndexError | TypeError.

(** A Python call either raises or returns. *)
Inductive result (A : Type) : Type :=
| Raise (e : exn) : result A
| Return (a : A) : result A.
Arguments Raise {A} e.
Arguments Return {A} a.

(** The classes a [kv_cache_type] may be. *)
Inductive cache_kind : Type := KVCache | OtherKVCache.

Definition cache_type_eqb (a b : option cache_kind) : bool :=
  match a, b with
  | Some KVCache, Some KVCache => true
  | Some OtherKVCache, Some OtherKVCache => true
  | None, None => true
  | _, _ => false
  end.

(** [MaskFnAttentionBias]: the fields the driver reads.
    [sliding_window_size] is [Some w] exactly for an instance of
    [SlidingWindowAttentionBias]. *)
Record MaskFnAttentionBias : Type := mkMaskBias {
  mask : option MaskFn;
  target_positions : option (list (list Z));
  sliding_window_size : option Z
}.

(** A dense bias tensor [b, n, q, k] with its shape.  The driver reads the
    first two dimensions (line 258); [reshape] (line 273) goes by the
    number of entries. *)
Record BiasTensor : Type := mkBiasTensor {
  bias_shape0 : nat;
  bias_shape1 : nat;
  bias_shape2 : nat;
  bias_shape3 : nat;
  bias_data : nat -> nat -> nat -> Z -> xreal
}.

(** Modelled from the spec: [split] and [BaseAttentionBias.value] of
    attention_bias.py are not among the sources.  Section 3: a bias "must
    expose a decomposition into mask ... and a residual dense explicit
    bias"; either part may be absent. *)
Record BaseAttentionBias : Type := mkBias {
  mask_part : option MaskFnAttentionBias;
  explicit_value : option BiasTensor
}.

Definition split (bias : BaseAttentionBias)
  : option MaskFnAttentionBias * option BiasTensor :=
  (mask_part bias, explicit_value bias).

(** [input_batch]: [query] is [(batch, q_seq_len, num_heads, head_dim)],
    [key] and [value] are [(batch, k_seq_len, num_kv_heads, head_dim)]. *)
Record InputBatch : Type := mkInputBatch {
  batch_size : nat;
  q_seq_len : nat;
  num_heads : nat;
  per_head_dim : nat;
  k_seq_len : Z;
  num_kv_heads : nat;
  query : nat -> nat -> nat -> nat -> R;
  key : nat -> Z -> nat -> nat -> R;
  value : nat -> Z -> nat -> nat -> R;
  bias : BaseAttentionBias;
  logit_sink : option (nat -> R)
}.


(** [input_batch] with other [key] and [value] tensors of the same shape. *)
Definition set_key_value (input_batch : InputBatch)
  (k v : nat -> Z -> nat -> nat -> R) : InputBatch :=
  {| batch_size := batch_size input_batch;
     q_seq_len := q_seq_len input_batch;
     num_heads := num_heads input_batch;
     per_head_dim := per_head_dim input_batch;
     k_seq_len := k_seq_len input_batch;
     num_kv_heads := num_kv_heads input_batch;
     query := query input_batch;
     key := k;
     value := v;
     bias := bias input_batch;
     logit_sink := logit_sink input_batch |}.

(** [input_batch] with another [query] tensor of the same shape, and with
    another [bias]. *)
Definition set_query (input_batch : InputBatch) (q : nat -> nat -> nat -> nat -> R)
  : InputBatch :=
  {| batch_size := batch_size input_batch;
     q_seq_len := q_seq_len input_batch;
     num_heads := num_heads input_batch;
     per_head_dim := per_head_dim input_batch;
     k_seq_len := k_seq_len input_batch;
     num_kv_heads := num_kv_heads input_batch;
     query := q;
     key := key input_batch;
     value := value input_batch;
     bias := bias input_batch;
     logit_sink := logit_sink input_batch |}.

Definition set_bias (input_batch : InputBatch) (new_bias : BaseAttentionBias) : InputBatch :=
  {| batch_size := batch_size input_batch;
     q_seq_len := q_seq_len input_batch;
     num_heads := num_heads input_batch;
     per_head_dim := per_head_dim input_batch;
     k_seq_len := k_seq_len input_batch;
     num_kv_heads := num_kv_heads input_batch;
     query := query input_batch;
     key := key input_batch;
     value := value input_batch;
     bias := new_bias;
     logit_sink := logit_sink input_batch |}.

Record Config : Type := mkConfig {
  tpu_block_size : Z;
  softmax_scale : R;
  interpret : bool
}.

Section IsSupported.
(** [BaseSingleStepDecoding.is_supported] (flash_attention/common.py) is
    not among the sources: it is a parameter.  It may raise. *)
Variable base_is_supported : InputBatch -> option cache_kind -> result bool.

Definition is_supported (cfg : Config) (input_batch : InputBatch)
  (kv_cache_type : option cache_kind) : result bool :=
  match base_is_supported input_batch kv_cache_type with
  | Raise e => Raise e
  | Return false => Return false
  | Return true =>
      if negb (cache_type_eqb kv_cache_type (Some KVCache)) then Return false
      else
        let block_size := tpu_block_size cfg in
        let k_seq_len := k_seq_len input_batch in
        if block_size =? 0 then Raise ZeroDivisionError
        else if negb (k_seq_len mod block_size =? 0) && (k_seq_len >? block_size)
             then Return false
             else Return true
  end.
End IsSupported.

(** The verdict of the two checks [TPUDecoding.is_supported] adds to the
    inherited ones: wrong cache kind, or a key sequence length that is not a
    multiple of the block size and exceeds it. *)
Definition own_checks_reject (cfg : Config) (input_batch : InputBatch)
  (kv_cache_type : option cache_kind) : Prop :=
  kv_cache_type <> Some KVCache
  \/ (k_seq_len input_batch mod tpu_block_size cfg <> 0
      /\ k_seq_len input_batch > tpu_block_size cfg).

(** *** Block offset tables (lines 205-240) *)

Definition padding : Z := -1.

(** [lax.broadcasted_iota(int32, (n, n), 1)]. *)
Definition iota_table (n : Z) : list (list Z) :=
  map (fun _ => zrange 0 n) (zrange 0 n).

Definition block_offsets (m : MaskFnAttentionBias) (padded_kv_seq_len block_size : Z)
  : list (list Z) :=
  match mask m with
  | Some mask_fn =>
      let bool_mask :=
        match sliding_window_size m with
        | Some w =>
            build_sliding_window_mask padded_kv_seq_len padded_kv_seq_len
              block_size block_size w
        | None =>
            build_mask mask_fn padded_kv_seq_len padded_kv_seq_len block_size block_size
        end in
      fst (query_iterator_indices bool_mask padding)
  | None => iota_table (cdiv padded_kv_seq_len block_size)
  end.

(** The row a traced index selects among [n_rows] rows: a negative index
    counts from the end, and an index that is still out of range is
    clamped. *)
Definition row_index (n_rows idx : Z) : nat :=
  let idx := if idx <? 0 then idx + n_rows else idx in
  Z.to_nat (Z.max 0 (Z.min idx (n_rows - 1))).

(** [offset[(kv_seq_len - 1) // block_size]], one row per batch element.
    The row index is in range when [1 <= kv_seq_len <= padded_kv_seq_len]. *)
Definition select_rows (offset : list (list Z)) (kv_seq_len : list Z) (block_size : Z)
  : list (list Z) :=
  map (fun len =>
         nth (row_index (Z.of_nat (length offset)) ((len - 1) / block_size)) offset [])
      kv_seq_len.

Definition count_nonzero {A : Type} (p : A -> bool) (l : list A) : Z :=
  Z.of_nat (length (filter p l)).

Definition block_offset_size (block_size : Z) (row : list Z) (len : Z) : Z :=
  count_nonzero (fun e => negb (e =? padding) && (e * block_size <? len)) row.

(** [max] of a row (a table row is never empty). *)
Definition row_max (row : list Z) : Z :=
  match row with
  | [] => 0
  | e :: row' => fold_left Z.max row' e
  end.

(** The [jnp.where] of lines 238-240. *)
Definition replace_padding (row : list Z) : list Z :=
  let m := row_max row in
  map (fun e => if e =? padding then m else e) row.

(** [kv_block_offset_size] and the final [kv_block_offset]. *)
Fixpoint map2 {A B C : Type} (f : A -> B -> C) (la : list A) (lb : list B) : list C :=
  match la, lb with
  | a :: la', b :: lb' => f a b :: map2 f la' lb'
  | _, _ => []
  end.

Definition kv_block_offset_tables (m : MaskFnAttentionBias)
  (padded_kv_seq_len block_size : Z) (kv_seq_len : list Z) : list (list Z) * list Z :=
  let offset := block_offsets m padded_kv_seq_len block_size in
  let kv_block_offset := select_rows offset kv_seq_len block_size in
  let kv_block_offset_size := map2 (block_offset_size block_size) kv_block_offset kv_seq_len in
  (map replace_padding kv_block_offset, kv_block_offset_size).

(** The block index [kv_index_map] returns at a grid step. *)
Definition kv_index_map (kv_block_offset : list (list Z)) (batch_idx kv_block_idx : nat) : Z :=
  nth kv_block_idx (nth batch_idx kv_block_offset []) 0.

(** *** The grid *)

(** The block of width [block] at block index [e] along the last axis. *)
Definition block_at (block : nat) (x : nat -> Z -> R) (e : Z) : Tensor2 :=
  fun h c => x h (e * Z.of_nat block + Z.of_nat c).

Definition xblock_at (block : nat) (x : nat -> Z -> xreal) (e : Z) : nat -> nat -> xreal :=
  fun i c => x i (e * Z.of_nat block + Z.of_nat c).

(** The bias seen by lane [(b, h)], by query row and key position: broadcast
    when its first two dimensions are 1 (lines 258-271), otherwise reshaped
    to [(bs, kv_heads, q_seq_head, padded_kv_seq_len)] (line 273). *)
Definition lane_bias (bt : BiasTensor) (q_seq_head : nat) (b h : nat) : nat -> Z -> xreal :=
  if ((bias_shape0 bt =? 1) && (bias_shape1 bt =? 1))%nat
  then fun _ p => bias_data bt 0%nat 0%nat 0%nat p
  else fun i p => bias_data bt b (h * q_seq_head + i)%nat 0%nat p.

Section Grid.
Variable cfg : Config.
Variable mask_fn : option MaskFn.
Variable input_batch : InputBatch.
Variable bias_value : option BiasTensor.
Variable block_kv : nat.
Variable q_seq_head : nat.
(** Scalar prefetch. *)
Variable kv_seq_len : list Z.
Variable kv_block_offset : list (list Z).
Variable kv_block_offset_size : list Z.

(** [q], [k], [v] as the kernel addresses them: [q] reshaped to
    [(bs, kv_heads, q_seq_head, head_dim)], [k] and [v] transposed to
    [bnhs]. *)
Definition q_lane (b h : nat) : Tensor2 :=
  fun i d => query input_batch b 0%nat (h * q_seq_head + i)%nat d.
Definition k_lane (b h : nat) : nat -> Z -> R := fun d s => key input_batch b s h d.
Definition v_lane (b h : nat) : nat -> Z -> R := fun d s => value input_batch b s h d.

(** One grid step [(b, h, j)]: the block specs select the blocks, the
    kernel body runs on them. *)
Definition grid_step (b h : nat) (bufs : Buffers) (j : nat) : Buffers :=
  let e := kv_index_map kv_block_offset b j in
  _tpu_decoding_kernel (softmax_scale cfg) mask_fn (per_head_dim input_batch) block_kv
    kv_seq_len kv_block_offset kv_block_offset_size b j
    (q_lane b h)
    (block_at block_kv (k_lane b h) e)
    (block_at block_kv (v_lane b h) e)
    (option_map (fun bt => xblock_at block_kv (lane_bias bt q_seq_head b h) e) bias_value)
    bufs.

(** The scan dimension is sequential: steps [0 .. steps-1] in order. *)
Definition run_lane (b h : nat) (steps : nat) (bufs : Buffers) : Buffers :=
  fold_left (grid_step b h) (seq 0 steps) bufs.
End Grid.

(** What the device holds when the call starts: the scratch buffers as lane
    [(b, h)] finds them (left by the lane run before it) and the
    uninitialised output blocks. *)
Record Device : Type := mkDevice {
  vmem : nat -> nat -> Scratch;
  out_init : nat -> nat -> Tensor2
}.

Definition list_max (l : list Z) : Z :=
  match l with
  | [] => 0
  | e :: l' => fold_left Z.max l' e
  end.

(** int32 addition wraps around. *)
Definition wrap_int32 (z : Z) : Z := (z + 2 ^ 31) mod 2 ^ 32 - 2 ^ 31.

(** The true KV length of every batch element: [target_positions[:, -1] + 1]
    in int32 (line 176), broadcast to [(bs,)] (line 204).  The broadcast
    is of one row or of [bs] rows; [prepare] raises before it otherwise. *)
Definition kv_seq_len_of (target_positions : list (list Z)) (bs : nat) : list Z :=
  let kv_seq_len := map (fun row => wrap_int32 (last row 0 + 1)) target_positions in
  match kv_seq_len with
  | [len] => repeat len bs
  | _ => kv_seq_len
  end.

(** What a call leaves behind: the number of kernel launches and the value
    returned or the exception raised. *)
Record Outcome : Type := mkOutcome {
  launches : nat;
  returned : result (nat -> nat -> nat -> nat -> R)
}.

(** What [__call__] hands over to [pallas_call] (lines 276-300). *)
Record Launch : Type := mkLaunch {
  launch_mask_fn : option MaskFn;
  launch_bias : option BiasTensor;
  launch_block_kv : nat;
  launch_q_seq_head : nat;
  launch_kv_seq_len : list Z;
  launch_kv_block_offset : list (list Z);
  launch_kv_block_offset_size : list Z
}.

(** Whether [bias.reshape(bs, kv_heads, q_seq_head, padded_kv_seq_len)]
    (line 273) finds as many entries as it asks for. *)
Definition bias_reshape_fits (bt : BiasTensor) (bs kv_heads q_seq_head : nat)
  (padded_kv_seq_len : Z) : bool :=
  Z.of_nat (bias_shape0 bt * bias_shape1 bt * bias_shape2 bt * bias_shape3 bt)
  =? Z.of_nat (bs * kv_heads * q_seq_head) * padded_kv_seq_len.

(** [TPUDecoding.__call__] up to the kernel launch (lines 170-274), with
    the exceptions it raises on the way, in the order of the statements:
    no mask part or no target positions (line 174); [target_positions]
    without any column (line 176); a query of more than one step
    ([squeeze], line 198); as many rows of target positions as neither 1
    nor the batch size ([broadcast_to], line 204); a block size of 0 in the
    block maps (lines 208-227), a negative one being rejected as well; a
    query that does not reshape to [(bs, kv_heads, -1, head_dim)] (line
    242); more than 512 query rows per KV head (line 244); an explicit bias
    that does not reshape (line 273). *)
Definition prepare (cfg : Config) (input_batch : InputBatch) : result Launch :=
  let '(mask_bias, explicit_bias) := split (bias input_batch) in
  match mask_bias with
  | None => Raise ValueError
  | Some mask_bias =>
    match target_positions mask_bias with
    | None => Raise ValueError
    | Some target_positions =>
      let mask_fn := mask mask_bias in
      if existsb (fun row => match row with [] => true | _ => false end) target_positions
      then Raise IndexError
      else
      let bs := batch_size input_batch in
      let kv_heads := num_kv_heads input_batch in
      let head_dim := per_head_dim input_batch in
      let padded_kv_seq_len := k_seq_len input_batch in
      let block_size := Z.min (tpu_block_size cfg) (k_seq_len input_batch) in
      if negb (q_seq_len input_batch =? 1)%nat then Raise ValueError
      else if negb ((length target_positions =? 1)%nat
                    || (length target_positions =? bs)%nat)
      then Raise ValueError
      else
      let kv_seq_len := kv_seq_len_of target_positions bs in
      if block_size =? 0 then Raise ZeroDivisionError
      else if block_size <? 0 then Raise ValueError
      else
      let '(kv_block_offset, kv_block_offset_size) :=
        kv_block_offset_tables mask_bias padded_kv_seq_len block_size kv_seq_len in
      (* q.reshape(bs, kv_heads, -1, head_dim) *)
      if (bs * kv_heads * head_dim =? 0)%nat then Raise ZeroDivisionError
      else if negb (num_heads input_batch mod kv_heads =? 0)%nat then Raise TypeError
      else
      let q_seq_head := (num_heads input_batch / kv_heads)%nat in
      if (512 <? q_seq_head)%nat then Raise AssertionError
      else if match explicit_bias with
              | Some bt =>
                  negb ((bias_shape0 bt =? 1)%nat && (bias_shape1 bt =? 1)%nat)
                  && negb (bias_reshape_fits bt bs kv_heads q_seq_head padded_kv_seq_len)
              | None => false
              end
      then Raise TypeError
      else
        Return (mkLaunch mask_fn explicit_bias (Z.to_nat block_size) q_seq_head
                  kv_seq_len kv_block_offset kv_block_offset_size)
    end
  end.

(** What the array operations of [__call__] ask of the shapes (lines 176,
    204, 242 and 273), and the layout of the explicit bias that the block
    specs of lines 258-274 read: [(1, 1, 1, k)] or [(bs, heads, 1, k)]. *)
Definition shapes_fit (input_batch : InputBatch) (target_positions : list (list Z))
  (explicit_bias : option BiasTensor) : Prop :=
  (forall row, In row target_positions -> row <> [])
  /\ (length target_positions = 1%nat
      \/ length target_positions = batch_size input_batch)
  /\ (0 < batch_size input_batch)%nat
  /\ (0 < num_kv_heads input_batch)%nat
  /\ (0 < per_head_dim input_batch)%nat
  /\ (num_heads input_batch mod num_kv_heads input_batch = 0)%nat
  /\ match explicit_bias with
     | None => True
     | Some bt =>
         bias_shape2 bt = 1%nat
         /\ Z.of_nat (bias_shape3 bt) = k_seq_len input_batch
         /\ ((bias_shape0 bt = 1%nat /\ bias_shape1 bt = 1%nat)
             \/ (bias_shape0 bt = batch_size input_batch
                 /\ bias_shape1 bt = num_heads input_batch))
     end.

(** [TPUDecoding.__call__]: the kernel is launched once, on the grid
    [(bs, kv_heads, kv_block_offset_size.max())], when nothing has raised
    before. *)
Definition call (cfg : Config) (dev : Device) (input_batch : InputBatch) : Outcome :=
  match prepare cfg input_batch with
  | Raise e => mkOutcome 0 (Raise e)
  | Return args =>
      let q_seq_head := launch_q_seq_head args in
      let steps := Z.to_nat (list_max (launch_kv_block_offset_size args)) in
      let out := fun b h =>
        o_ref (run_lane cfg (launch_mask_fn args) input_batch (launch_bias args)
                 (launch_block_kv args) q_seq_head (launch_kv_seq_len args)
                 (launch_kv_block_offset args) (launch_kv_block_offset_size args)
                 b h steps
                 (mkBuffers (vmem dev b h) (out_init dev b h) [])) in
      (* out.reshape(orig_q_shape) *)
      mkOutcome 1
        (Return (fun b _ n d => out b (n / q_seq_head)%nat (n mod q_seq_head)%nat d))
  end.

End Driver.

(** ** The kernel in float32

    The embedding above computes in exact arithmetic with an idealised
    [NEG_INF].  The kernel itself computes in float32 (the scratch
    buffers of lines 289-291), where [NEG_INF] is the finite number
    [-1e15] of attention_bias.py, a sum may overflow to an infinity,
    [0 * inf] is NaN and [exp] underflows to 0.  The embedding below keeps
    these: a float32 is a finite number, an infinity or NaN; an operation
    on finite numbers is exact as long as its result stays within the
    float32 range and gives an infinity beyond it; the special values
    combine as IEEE 754 has it; [exp] is 0 from [-104] downwards
    ([exp(-104)] is below half of the smallest positive float32).
    Rounding of finite results within the range and the sign of zero are
    not modelled.  The input tensors hold finite numbers. *)

Module F32.

Inductive float32 : Type :=
| Val (r : R)
| PInf
| MInf
| NaN.

(** The largest finite float32, [(2 - 2^-23) * 2^127]. *)
Definition max_float : R := 340282346638528859811704183484516925440.

(** [NEG_INF = -1e15] (attention_bias.py, not among the sources). *)
Definition neg_inf_value : R := -1000000000000000.

(** [NEG_INF] and the finite numbers of the idealised embedding as
    float32. *)
Definition of_xreal (x : xreal) : float32 :=
  match x with
  | NEG_INF => Val neg_inf_value
  | Fin r => Val r
  end.

Definition NEG_INF : float32 := Val neg_inf_value.

Definition exp_underflow : R := 104.

(** A real result as a float32. *)
Definition of_real (r : R) : float32 :=
  if Rlt_dec max_float r then PInf
  else if Rlt_dec r (- max_float) then MInf
  else Val r.

(** [x * inf] and [x * -inf] for a finite [x]. *)
Definition inf_times (positive : bool) (x : R) : float32 :=
  if Rlt_dec 0 x then (if positive then PInf else MInf)
  else if Rlt_dec x 0 then (if positive then MInf else PInf)
  else NaN.

Definition opp (a : float32) : float32 :=
  match a with
  | Val x => Val (- x)
  | PInf => MInf
  | MInf => PInf
  | NaN => NaN
  end.

Definition add (a b : float32) : float32 :=
  match a, b with
  | NaN, _ | _, NaN => NaN
  | PInf, MInf | MInf, PInf => NaN
  | PInf, _ | _, PInf => PInf
  | MInf, _ | _, MInf => MInf
  | Val x, Val y => of_real (x + y)
  end.

Definition sub (a b : float32) : float32 := add a (opp b).

Definition mul (a b : float32) : float32 :=
  match a, b with
  | NaN, _ | _, NaN => NaN
  | Val x, Val y => of_real (x * y)
  | Val x, PInf | PInf, Val x => inf_times true x
  | Val x, MInf | MInf, Val x => inf_times false x
  | PInf, PInf | MInf, MInf => PInf
  | PInf, MInf | MInf, PInf => MInf
  end.

Definition div (a b : float32) : float32 :=
  match a, b with
  | NaN, _ | _, NaN => NaN
  | Val x, Val y => if Req_dec_T y 0 then inf_times true x else of_real (x / y)
  | Val _, PInf | Val _, MInf => Val 0
  | PInf, Val y => if Rlt_dec y 0 then MInf else PInf
  | MInf, Val y => if Rlt_dec y 0 then PInf else MInf
  | _, _ => NaN
  end.

(** [jnp.maximum]: NaN wins. *)
Definition max (a b : float32) : float32 :=
  match a, b with
  | NaN, _ | _, NaN => NaN
  | PInf, _ | _, PInf => PInf
  | MInf, x | x, MInf => x
  | Val x, Val y => Val (Rmax x y)
  end.

Definition exp (a : float32) : float32 :=
  match a with
  | NaN => NaN
  | PInf => PInf
  | MInf => Val 0
  | Val x => if Rle_dec x (- exp_underflow) then Val 0 else of_real (Rtrigo_def.exp x)
  end.

(** A sum, accumulated from left to right. *)
Definition sum (l : list float32) : float32 := fold_left add l (Val 0).

End F32.

Module Float32Kernel.
Import Builder.

Definition Tensor2 := nat -> nat -> F32.float32.

(** The scratch buffers [m_i], [l_i] and [o_scratch], all float32. *)
Record Scratch : Type := mkScratch {
  m_i : nat -> F32.float32;
  l_i : nat -> F32.float32;
  o_scratch : Tensor2
}.

Record Buffers : Type := mkBuffers {
  scratch : Scratch;
  o_ref : Tensor2;
  stores : list nat
}.

Section Body.
Variable softmax_scale : R.
Variable mask_fn : option MaskFn.
Variable head_dim block_k : nat.

Definition sum_n (f : nat -> F32.float32) (n : nat) : F32.float32 :=
  F32.sum (map f (seq 0 n)).

Definition max_n (f : nat -> F32.float32) (n : nat) : F32.float32 :=
  fold_right F32.max F32.MInf (map f (seq 0 n)).

Definition dot (q k : Tensor2) : Tensor2 :=
  fun i c => sum_n (fun h => F32.mul (q i h) (k h c)) head_dim.

(** Lines 81-85. *)
Definition init (s : Scratch) : Scratch :=
  {| m_i := fun _ => F32.NEG_INF;
     l_i := fun _ => F32.Val 0;
     o_scratch := fun _ _ => F32.Val 0 |}.

(** Lines 96-110. *)
Definition masked_logits (kv_offset kv_seq_len : Z)
  (q_ref k_ref : Tensor2) (b_ref : option Tensor2) : Tensor2 :=
  fun i c =>
    let qk := dot q_ref k_ref i c in
    let qk := if Req_dec_T softmax_scale 1 then qk
              else F32.mul qk (F32.Val softmax_scale) in
    let qk := match b_ref with
              | Some b => F32.max (F32.add qk (b i c)) F32.NEG_INF
              | None => qk
              end in
    let block_kv_indices := kv_offset + Z.of_nat c in
    let kv_mask := block_kv_indices <? kv_seq_len in
    let kv_mask := match mask_fn with
                   | Some f => kv_mask && f (kv_seq_len - 1) block_kv_indices
                   | None => kv_mask
                   end in
    if kv_mask then qk else F32.NEG_INF.

(** Lines 112-133. *)
Definition update (qk : Tensor2) (v_ref : Tensor2) (s : Scratch) : Scratch :=
  let m_prev := m_i s in
  let l_prev := l_i s in
  let o_prev := o_scratch s in
  let m_curr := fun i => max_n (qk i) block_k in
  let m_next := fun i => F32.max (m_prev i) (m_curr i) in
  let correction := fun i => F32.exp (F32.sub (m_prev i) (m_next i)) in
  let l_prev_corr := fun i => F32.mul (correction i) (l_prev i) in
  let s_curr := fun i c => F32.exp (F32.sub (qk i c) (m_next i)) in
  let l_curr := fun i => sum_n (s_curr i) block_k in
  let l_next := fun i => F32.add (l_prev_corr i) (l_curr i) in
  let o_prev_corr := fun i d => F32.mul (correction i) (o_prev i d) in
  let o_curr := fun i d => sum_n (fun c => F32.mul (s_curr i c) (v_ref d c)) block_k in
  let o_next := fun i d => F32.add (o_prev_corr i d) (o_curr i d) in
  {| m_i := m_next; l_i := l_next; o_scratch := o_next |}.

Definition compute (kv_offset kv_seq_len : Z)
  (q_ref k_ref v_ref : Tensor2) (b_ref : option Tensor2) (s : Scratch) : Scratch :=
  update (masked_logits kv_offset kv_seq_len q_ref k_ref b_ref) v_ref s.

(** Lines 135-140. *)
Definition final (scan_index : nat) (bufs : Buffers) : Buffers :=
  {| scratch := scratch bufs;
     o_ref := fun i d => F32.div (o_scratch (scratch bufs) i d) (l_i (scratch bufs) i);
     stores := scan_index :: stores bufs |}.

Definition on_scratch (f : Scratch -> Scratch) (bufs : Buffers) : Buffers :=
  {| scratch := f (scratch bufs); o_ref := o_ref bufs; stores := stores bufs |}.

Definition _tpu_decoding_kernel
  (kv_seq_len_ref : list Z) (kv_block_offset : list (list Z))
  (kv_block_offset_size : list Z)
  (batch_index non_empty_kv_block_index : nat)
  (q_ref k_ref v_ref : Tensor2) (b_ref : option Tensor2)
  (bufs : Buffers) : Buffers :=
  let bufs := if (non_empty_kv_block_index =? 0)%nat then on_scratch init bufs else bufs in
  let kv_offset :=
    nth non_empty_kv_block_index (nth batch_index kv_block_offset []) 0
    * Z.of_nat block_k in
  let kv_seq_len := nth batch_index kv_seq_len_ref 0 in
  let num_non_empty_kv_blocks := nth batch_index kv_block_offset_size 0 in
  let bufs :=
    if Z.of_nat non_empty_kv_block_index <? num_non_empty_kv_blocks
    then on_scratch (compute kv_offset kv_seq_len q_ref k_ref v_ref b_ref) bufs
    else bufs in
  if Z.of_nat non_empty_kv_block_index =? num_non_empty_kv_blocks - 1
  then final non_empty_kv_block_index bufs
  else bufs.

End Body.

End Float32Kernel.

Module Float32Driver.
Import Builder Driver.

(** The finite numbers of an input block as float32. *)
Definition lift (x : Kernel.Tensor2) : Float32Kernel.Tensor2 :=
  fun i j => F32.Val (x i j).

Definition lift_bias (x : nat -> nat -> xreal) : Float32Kernel.Tensor2 :=
  fun i j => F32.of_xreal (x i j).

Section Grid.
Variable cfg : Config.
Variable mask_fn : option MaskFn.
Variable input_batch : InputBatch.
Variable bias_value : option BiasTensor.
Variable block_kv : nat.
Variable q_seq_head : nat.
Variable kv_seq_len : list Z.
Variable kv_block_offset : list (list Z).
Variable kv_block_offset_size : list Z.

(** One grid step [(b, h, j)] on the blocks the block specs select. *)
Definition grid_step (b h : nat) (bufs : Float32Kernel.Buffers) (j : nat)
  : Float32Kernel.Buffers :=
  let e := kv_index_map kv_block_offset b j in
  Float32Kernel._tpu_decoding_kernel (softmax_scale cfg) mask_fn
    (per_head_dim input_batch) block_kv
    kv_seq_len kv_block_offset kv_block_offset_size b j
    (lift (q_lane input_batch q_seq_head b h))
    (lift (block_at block_kv (k_lane input_batch b h) e))
    (lift (block_at block_kv (v_lane input_batch b h) e))
    (option_map
       (fun bt => lift_bias (xblock_at block_kv (lane_bias bt q_seq_head b h) e))
       bias_value)
    bufs.

Definition run_lane (b h : nat) (steps : nat) (bufs : Float32Kernel.Buffers)
  : Float32Kernel.Buffers :=
  fold_left (grid_step b h) (seq 0 steps) bufs.
End Grid.

(** What the device holds when the call starts. *)
Record Device : Type := mkDevice {
  vmem : nat -> nat -> Float32Kernel.Scratch;
  out_init : nat -> nat -> Float32Kernel.Tensor2
}.

Record Outcome : Type := mkOutcome {
  launches : nat;
  returned : result (nat -> nat -> nat -> nat -> F32.float32)
}.

(** [TPUDecoding.__call__] with the kernel in float32. *)
Definition call (cfg : Config) (dev : Device) (input_batch : InputBatch) : Outcome :=
  match prepare cfg input_batch with
  | Raise e => mkOutcome 0 (Raise e)
  | Return args =>
      let q_seq_head := launch_q_seq_head args in
      let steps := Z.to_nat (list_max (launch_kv_block_offset_size args)) in
      let out := fun b h =>
        Float32Kernel.o_ref
          (run_lane cfg (launch_mask_fn args) input_batch (launch_bias args)
             (launch_block_kv args) q_seq_head (launch_kv_seq_len args)
             (launch_kv_block_offset args) (launch_kv_block_offset_size args)
             b h steps
             (Float32Kernel.mkBuffers (vmem dev b h) (out_init dev b h) [])) in
      mkOutcome 1
        (Return (fun b _ n d => out b (n / q_seq_head)%nat (n mod q_seq_head)%nat d))
  end.

End Float32Driver.

(** ** The dense reference *)

Module Reference.
Import Builder Kernel Driver.

Section Dense.
Variable cfg : Config.
Variable input_batch : InputBatch.
Variable mask_bias : MaskFnAttentionBias.
Variable bias_value : option BiasTensor.
Variable kv_seq_len : list Z.

(** Query heads per KV head, and the bias entry of head [n] at key [p]. *)
Definition group_size : nat := (num_heads input_batch / num_kv_heads input_batch)%nat.

Definition bias_at (bt : BiasTensor) (b n : nat) (p : Z) : xreal :=
  if ((bias_shape0 bt =? 1) && (bias_shape1 bt =? 1))%nat
  then bias_data bt 0%nat 0%nat 0%nat p
  else bias_data bt b n 0%nat p.

(** Section 4.3: the mask function "evaluated on absolute key positions ...
    combined with a position is within batch element's true KV length
    predicate"; the decode query sits at position [kv_seq_len - 1]. *)
Definition accepted (b : nat) (p : Z) : bool :=
  key_accepted (mask mask_bias) (nth b kv_seq_len 0) p.

Definition scaled_qk (b n : nat) (p : Z) : R :=
  (softmax_scale cfg
   * sum_n (fun d => query input_batch b 0%nat n d * key input_batch b p (n / group_size)%nat d)
       (per_head_dim input_batch))%R.

Definition ref_logit (b n : nat) (p : Z) : xreal :=
  if accepted b p
  then match bias_value with
       | Some bt => xadd (Fin (scaled_qk b n p)) (bias_at bt b n p)
       | None => Fin (scaled_qk b n p)
       end
  else NEG_INF.

(** All key positions of the padded sequence. *)
Definition positions : list Z := zrange 0 (k_seq_len input_batch).

Definition ref_max (b n : nat) : xreal := xmax_list (map (ref_logit b n) positions).

Definition ref_weight (b n : nat) (p : Z) : R :=
  xexp (xsub (ref_logit b n p) (ref_max b n)).

(** Modelled from the spec: [ReferenceMHA] of flash_attention/common.py is
    not among the sources.  P1: "a dense reference implementation that
    computes softmax(scale QK^T + bias, masked) V over the full unblocked
    sequence". *)
Definition softmax (b n : nat) (p : Z) : R :=
  (ref_weight b n p / Rsum (map (ref_weight b n) positions))%R.

Definition reference (b n d : nat) : R :=
  Rsum (map (fun p => softmax b n p * value input_batch b p (n / group_size)%nat d)%R
            positions).


End Dense.

End Reference.

(** ** What a lane has seen *)

Module Visited.
Import Builder Kernel Driver.

(** A key position as the accumulator of one query row meets it: its masked
    logit and its value row (by output column). *)
Definition term : Type := (xreal * (nat -> R))%type.

Definition terms_max (ts : list term) : xreal := xmax_list (map fst ts).

Definition weight (ts : list term) (t : term) : R := xexp (xsub (fst t) (terms_max ts)).

(** The softmax of the logits of [ts], and the softmax-weighted average of
    their values. *)
Definition softmax_of (ts : list term) (t : term) : R :=
  (weight ts t / Rsum (map (weight ts) ts))%R.

Definition softmax_average (ts : list term) (d : nat) : R :=
  Rsum (map (fun t => softmax_of ts t * snd t d)%R ts).

(** What the scratch buffers hold for query row [i] once the terms [ts]
    have gone through the accumulator: the running maximum, and [l] and [o]
    unnormalised with respect to it. *)
Definition accumulates (s : Scratch) (i : nat) (ts : list term) : Prop :=
  m_i s i = terms_max ts
  /\ l_i s i = Rsum (map (weight ts) ts)
  /\ forall d, o_scratch s i d = Rsum (map (fun t => weight ts t * snd t d)%R ts).

(** The terms of one block, for query row [i]. *)
Definition block_terms (block_k : nat) (qk : nat -> nat -> xreal) (v_ref : Tensor2) (i : nat)
  : list term :=
  map (fun c => (qk i c, fun d => v_ref d c)) (seq 0 block_k).

Section Lane.
Variable cfg : Config.
Variable mask_fn : option MaskFn.
Variable input_batch : InputBatch.
Variable bias_value : option BiasTensor.
Variable block_kv : nat.
Variable q_seq_head : nat.
Variable kv_seq_len : list Z.
Variable kv_block_offset : list (list Z).

(** The masked logits and the values of the block scan step [j] of lane
    [(b, h)] reads. *)
Definition step_logits (b h j : nat) : nat -> nat -> xreal :=
  let e := kv_index_map kv_block_offset b j in
  masked_logits (softmax_scale cfg) mask_fn (per_head_dim input_batch)
    (e * Z.of_nat block_kv) (nth b kv_seq_len 0)
    (q_lane input_batch q_seq_head b h)
    (block_at block_kv (k_lane input_batch b h) e)
    (option_map (fun bt => xblock_at block_kv (lane_bias bt q_seq_head b h) e) bias_value).

Definition step_values (b h j : nat) : Tensor2 :=
  block_at block_kv (v_lane input_batch b h) (kv_index_map kv_block_offset b j).

(** The scratch the update of scan step [t] starts from: the initial
    accumulator at scan index 0, what the steps before left otherwise. *)
Definition before_step (kv_block_offset_size : list Z) (b h t : nat) (bufs : Buffers)
  : Scratch :=
  let bufs := run_lane cfg mask_fn input_batch bias_value block_kv q_seq_head
                kv_seq_len kv_block_offset kv_block_offset_size b h t bufs in
  if (t =? 0)%nat then init (scratch bufs) else scratch bufs.

(** The terms of the blocks visited by scan steps [0 .. t-1]. *)
Definition lane_terms (b h i t : nat) : list term :=
  flat_map (fun j => block_terms block_kv (step_logits b h j) (step_values b h j) i)
           (seq 0 t).
End Lane.



End Visited.

Module Float32Visited.
Import Builder Driver.

Section Lane.
Variable cfg : Config.
Variable mask_fn : option MaskFn.
Variable input_batch : InputBatch.
Variable bias_value : option BiasTensor.
Variable block_kv : nat.
Variable q_seq_head : nat.
Variable kv_seq_len : list Z.
Variable kv_block_offset : list (list Z).

(** The masked logits and the values of the block scan step [j] of lane
    [(b, h)] reads, in float32. *)
Definition step_logits (b h j : nat) : Float32Kernel.Tensor2 :=
  let e := kv_index_map kv_block_offset b j in
  Float32Kernel.masked_logits (softmax_scale cfg) mask_fn (per_head_dim input_batch)
    (e * Z.of_nat block_kv) (nth b kv_seq_len 0)
    (Float32Driver.lift (q_lane input_batch q_seq_head b h))
    (Float32Driver.lift (block_at block_kv (k_lane input_batch b h) e))
    (option_map
       (fun bt => Float32Driver.lift_bias
                    (xblock_at block_kv (lane_bias bt q_seq_head b h) e))
       bias_value).

Definition step_values (b h j : nat) : Float32Kernel.Tensor2 :=
  Float32Driver.lift
    (block_at block_kv (v_lane input_batch b h) (kv_index_map kv_block_offset b j)).

(** The scratch the update of scan step [t] starts from. *)
Definition before_step (kv_block_offset_size : list Z) (b h t : nat)
  (bufs : Float32Kernel.Buffers) : Float32Kernel.Scratch :=
  let bufs := Float32Driver.run_lane cfg mask_fn input_batch bias_value block_kv
                q_seq_head kv_seq_len kv_block_offset kv_block_offset_size b h t bufs in
  if (t =? 0)%nat then Float32Kernel.init (Float32Kernel.scratch bufs)
  else Float32Kernel.scratch bufs.
End Lane.

End Float32Visited.

(** ** Where float32 agrees with exact arithmetic

    The conditions under which no operation of the kernel leaves the
    float32 range and no [exp] underflows between two logits that count:
    they are the hypotheses of the theorems that compare the float32 kernel
    with the dense reference. *)

Module Float32Range.
Import Builder Kernel Driver Reference.

(** The window of the logits starts far enough above [NEG_INF] for
    [exp(NEG_INF - x)] to underflow, and stays below [-NEG_INF]. *)
Definition window_ok (lo : R) : Prop :=
  (F32.neg_inf_value + F32.exp_underflow <= lo <= - F32.neg_inf_value)%R.

(** A logit is [NEG_INF] or lies within the window of width 80 at [lo]:
    [exp] of the difference of two such logits does not underflow. *)
Definition in_window (lo : R) (x : xreal) : Prop :=
  match x with
  | NEG_INF => True
  | Fin r => (lo <= r <= lo + 80)%R
  end.

(** Row [i] of the float32 scratch holds the numbers of row [i] of the
    scratch of the exact embedding, [L] bounding the number of key
    positions met so far and [vmax] the values. *)
Definition refines_row (lo vmax L : R) (i : nat)
  (s32 : Float32Kernel.Scratch) (s : Scratch) : Prop :=
  Float32Kernel.m_i s32 i = F32.of_xreal (m_i s i)
  /\ in_window lo (m_i s i)
  /\ Float32Kernel.l_i s32 i = F32.Val (l_i s i)
  /\ (0 <= l_i s i <= L)%R
  /\ forall d, Float32Kernel.o_scratch s32 i d = F32.Val (o_scratch s i d)
               /\ (Rabs (o_scratch s i d) <= L * vmax)%R.

(** Row [i] of lane [(b, h)] of the grid: in its valid blocks the accepted
    positions have logits of the window at [lo] whose dot product (line 98)
    and scaling (line 100) do not overflow, the values are bounded by
    [vmax], and as many values as the valid blocks hold do not add up
    beyond the float32 range. *)
Definition lane_in_range (cfg : Config) (mask_fn : option MaskFn)
  (input_batch : InputBatch) (bias_value : option BiasTensor)
  (block_kv q_seq_head : nat) (kv_seq_len : list Z)
  (kv_block_offset : list (list Z)) (kv_block_offset_size : list Z)
  (b h i : nat) (lo vmax : R) : Prop :=
  let n := nth b kv_block_offset_size 0 in
  window_ok lo
  /\ (0 <= vmax)%R
  /\ (0 < block_kv)%nat
  /\ (forall j c : nat,
        Z.of_nat j < n -> (c < block_kv)%nat ->
        let e := kv_index_map kv_block_offset b j in
        key_accepted mask_fn (nth b kv_seq_len 0) (e * Z.of_nat block_kv + Z.of_nat c)
        = true ->
        (exists x,
           Visited.step_logits cfg mask_fn input_batch bias_value block_kv q_seq_head
             kv_seq_len kv_block_offset b h j i c = Fin x
           /\ (lo <= x <= lo + 80)%R)
        /\ (Rsum (map (fun d => Rabs (q_lane input_batch q_seq_head b h i d
                                      * block_at block_kv (k_lane input_batch b h) e d c))
                      (seq 0 (per_head_dim input_batch))) <= F32.max_float)%R
        /\ (Rabs (dot (per_head_dim input_batch) (q_lane input_batch q_seq_head b h)
                    (block_at block_kv (k_lane input_batch b h) e) i c
                  * softmax_scale cfg) <= F32.max_float)%R)
  /\ (forall j c d : nat,
        Z.of_nat j < n -> (c < block_kv)%nat ->
        (Rabs (Visited.step_values input_batch block_kv kv_block_offset b h j d c)
         <= vmax)%R)
  /\ (IZR n * INR block_kv * vmax <= F32.max_float)%R
  /\ (IZR n * INR block_kv <= F32.max_float)%R.

(** The logits of head [n] of batch element [b]: every accepted key position
    has a finite logit within the window at [lo], and neither the dot
    product of line 98 nor its scaling overflows. *)
Definition logits_in_range (cfg : Config) (input_batch : InputBatch)
  (mask_bias : MaskFnAttentionBias) (bias_value : option BiasTensor)
  (kv_seq_len : list Z) (b n : nat) (lo : R) : Prop :=
  window_ok lo
  /\ forall p : Z, 0 <= p -> accepted mask_bias kv_seq_len b p = true ->
       (exists x, ref_logit cfg input_batch mask_bias bias_value kv_seq_len b n p = Fin x
                  /\ (lo <= x <= lo + 80)%R)
       /\ (Rsum (map (fun d => Rabs (query input_batch b 0%nat n d
                                     * key input_batch b p (n / group_size input_batch)%nat d))
                     (seq 0 (per_head_dim input_batch)))
           <= F32.max_float)%R
       /\ (Rabs (scaled_qk cfg input_batch b n p) <= F32.max_float)%R.

(** The values of KV head [h] of batch element [b] are bounded by [vmax],
    and as many of them as there are key positions do not add up beyond
    the float32 range. *)
Definition values_in_range (input_batch : InputBatch) (b h : nat) (vmax : R) : Prop :=
  (forall (p : Z) (d : nat), 0 <= p < k_seq_len input_batch ->
     (Rabs (value input_batch b p h d) <= vmax)%R)
  /\ (IZR (k_seq_len input_batch) * vmax <= F32.max_float)%R
  /\ (IZR (k_seq_len input_batch) <= F32.max_float)%R.

End Float32Range.

(** ** Inputs for the examples *)

Module Samples.
Import Builder Kernel Driver.

Definition cfg2 : Config := mkConfig 2 1 true.

Definition zeros4 {I : Type} : nat -> I -> nat -> nat -> R := fun _ _ _ _ => 0%R.

(** The value at key position [p] is [p + 1]. *)
Definition position_values : nat -> Z -> nat -> nat -> R := fun _ p _ _ => IZR (p + 1).

Definition device0 : Device :=
  mkDevice (fun _ _ => mkScratch (fun _ => NEG_INF) (fun _ => 0%R) (fun _ _ => 0%R))
           (fun _ _ _ _ => 0%R).

(** One head of dimension 1 over 4 keys, zero queries and keys. *)
Definition batch_of (bs : nat) (m : option MaskFnAttentionBias) (sink : option (nat -> R))
  : InputBatch :=
  {| batch_size := bs; q_seq_len := 1; num_heads := 1; per_head_dim := 1;
     k_seq_len := 4; num_kv_heads := 1;
     query := zeros4; key := zeros4; value := position_values;
     bias := mkBias m None; logit_sink := sink |}.

(** No mask part at all. *)
Definition batch_without_mask : InputBatch := batch_of 1 None None.

(** A mask that lets only the first two query positions attend, causally;
    two batch elements of true lengths 1 and 3 under it. *)
Definition prefix_only_mask : MaskFn := fun q k => (q <? 2) && (k <=? q).
Definition prefix_bias : MaskFnAttentionBias :=
  mkMaskBias (Some prefix_only_mask) (Some [[0]; [2]]) None.
Definition prefix_batch : InputBatch := batch_of 2 (Some prefix_bias) None.

(** A sliding window of size 1, the decode query at position 3. *)
Definition window_bias : MaskFnAttentionBias :=
  mkMaskBias (Some (sliding_window_causal_mask 1)) (Some [[3]]) (Some 1).
Definition window_batch : InputBatch := batch_of 1 (Some window_bias) None.


(** A causal mask over a single real key, with and without a logit sink. *)
Definition causal_bias : MaskFnAttentionBias :=
  mkMaskBias (Some causal_mask) (Some [[0]]) None.



(** Scratch and output buffers as a launch may find them: not initialised. *)
Definition device32 : Float32Driver.Device :=
  Float32Driver.mkDevice
    (fun _ _ => Float32Kernel.mkScratch (fun _ => F32.NaN) (fun _ => F32.NaN)
                  (fun _ _ => F32.NaN))
    (fun _ _ _ _ => F32.NaN).

(** Queries of 1 against the key [p] at position [p], under a causal mask
    with the decode query at position 3: the logits are 0, 1, 2, 3. *)
Definition ones4 : nat -> nat -> nat -> nat -> R := fun _ _ _ _ => 1%R.
Definition position_keys : nat -> Z -> nat -> nat -> R := fun _ p _ _ => IZR p.
Definition ramp_bias : MaskFnAttentionBias :=
  mkMaskBias (Some causal_mask) (Some [[3]]) None.
Definition ramp_batch : InputBatch :=
  set_query (set_key_value (batch_of 1 (Some ramp_bias) None) position_keys position_values)
    ones4.


(** One real key whose logit [-1e16] is below [NEG_INF = -1e15], and a
    stale cache entry behind it: keys of [-1e16] against a query of 1. *)
Definition low_keys : nat -> Z -> nat -> nat -> R := fun _ _ _ _ => (-10000000000000000)%R.
Definition low_logit_batch : InputBatch :=
  set_query (set_key_value (batch_of 1 (Some causal_bias) None) low_keys position_values)
    ones4.

End Samples.

(** ** Facts about the block maps *)

Module BuilderFacts.
Import Builder.

Lemma In_zrange (lo hi x : Z) : In x (zrange lo hi) <-> lo <= x < hi.
Proof.
  unfold zrange. rewrite in_map_iff. split.
  - intros [n [<- Hn]]. apply in_seq in Hn. lia.
  - intros H. exists (Z.to_nat (x - lo)). split; [lia|]. apply in_seq. lia.
Qed.

Lemma block_any_true_iff (f : MaskFn) (Lq Lk bq bk i j : Z) :
  block_any f Lq Lk bq bk i j = true <->
  exists q k, i * bq <= q < Z.min ((i + 1) * bq) Lq /\
              j * bk <= k < Z.min ((j + 1) * bk) Lk /\ f q k = true.
Proof.
  unfold block_any. rewrite existsb_exists. split.
  - intros [q [Hq H]]. apply existsb_exists in H. destruct H as [k [Hk H]].
    exists q, k. rewrite In_zrange in Hq, Hk. auto.
  - intros [q [k [Hq [Hk H]]]]. exists q. split; [now apply In_zrange|].
    apply existsb_exists. exists k. split; [now apply In_zrange|assumption].
Qed.

Lemma sliding_window_causal_mask_true (w q k : Z) :
  sliding_window_causal_mask w q k = true <-> k <= q /\ q - k <= w.
Proof.
  unfold sliding_window_causal_mask, and_masks, causal_mask.
  rewrite andb_true_iff, Z.geb_le, Z.leb_le. tauto.
Qed.

(** Floor division against a block boundary. *)
Lemma block_le_div (b x j : Z) : 0 < b -> (j * b <= x <-> j <= x / b).
Proof.
  intros Hb. split; intros H.
  - apply Z.div_le_lower_bound; lia.
  - pose proof (Z.mul_div_le x b Hb). nia.
Qed.

Lemma div_le_block (b x j : Z) : 0 < b -> (x / b <= j <-> x < (j + 1) * b).
Proof.
  intros Hb. split; intros H.
  - pose proof (Z.mod_pos_bound x b Hb). pose proof (Z.div_mod x b). nia.
  - assert (x / b < j + 1); [|lia]. apply Z.div_lt_upper_bound; lia.
Qed.

Lemma cdiv_range (L b i : Z) : 0 < b -> (0 <= i < cdiv L b <-> 0 <= i /\ i * b < L).
Proof.
  intros Hb. unfold cdiv. split.
  - intros [H0 H]. split; [assumption|].
    assert (i + 1 <= (L + b - 1) / b) by lia.
    apply block_le_div in H1; lia.
  - intros [H0 H]. split; [assumption|].
    assert (i + 1 <= (L + b - 1) / b); [|lia].
    apply block_le_div; lia.
Qed.

(** The closed form of one entry agrees with the predicate on the block pair. *)
Lemma sliding_window_entry (Lq Lk bq bk w i j : Z) :
  0 < bq -> 0 < bk -> 0 <= w ->
  0 <= i -> i * bq < Lq -> 0 <= j -> j * bk < Lk ->
  ((i * bq - w <? Lk)
   && (sliding_window_first_block bq bk w i <=? j)
   && (j <=? sliding_window_last_block Lq Lk bq bk i)) = true
  <-> exists q k, i * bq <= q < Z.min ((i + 1) * bq) Lq /\
                  j * bk <= k < Z.min ((j + 1) * bk) Lk /\
                  k <= q /\ q - k <= w.
Proof.
  intros Hbq Hbk Hw Hi Hrow Hj Hcol.
  unfold sliding_window_first_block, sliding_window_last_block.
  rewrite !andb_true_iff, Z.ltb_lt, !Z.leb_le.
  rewrite (div_le_block bk _ j Hbk), <- (block_le_div bk _ j Hbk).
  split.
  - intros [[Hvis Hfirst] Hlast].
    (* the newest key of the block the row can see *)
    set (k := Z.min (Z.min ((j + 1) * bk) Lk - 1) (Z.min ((i + 1) * bq) Lq - 1)).
    exists (Z.max (i * bq) k), k. subst k. lia.
  - intros [q [k H]]. lia.
Qed.


Lemma build_sliding_window_mask_eq (Lq Lk bq bk w : Z) :
  0 < bq -> 0 < bk -> 0 <= w ->
  build_sliding_window_mask Lq Lk bq bk w
  = build_mask (sliding_window_causal_mask w) Lq Lk bq bk.
Proof.
  intros Hbq Hbk Hw. unfold build_sliding_window_mask, build_mask.
  apply map_ext_in. intros i Hi. apply map_ext_in. intros j Hj.
  apply In_zrange in Hi, Hj.
  apply (cdiv_range Lq bq i Hbq) in Hi. apply (cdiv_range Lk bk j Hbk) in Hj.
  apply eq_true_iff_eq.
  rewrite block_any_true_iff, sliding_window_entry by lia.
  split; intros [q [k H]]; exists q, k.
  - rewrite sliding_window_causal_mask_true. tauto.
  - rewrite sliding_window_causal_mask_true in H. tauto.
Qed.

(** The indices [true_indices] lists are those of the true entries. *)
Lemma In_true_indices (row : list bool) (s j : Z) :
  In j (true_indices s row) <->
  s <= j < s + Z.of_nat (length row) /\ nth (Z.to_nat (j - s)) row false = true.
Proof.
  revert s. induction row as [|b row IH]; intros s; cbn [true_indices In length].
  - split; [tauto|]. intros [H _]. simpl in H. lia.
  - assert (Hnext : forall j, s + 1 <= j ->
              nth (Z.to_nat (j - s)) (b :: row) false
              = nth (Z.to_nat (j - (s + 1))) row false).
    { intros j' Hj'. replace (Z.to_nat (j' - s)) with (S (Z.to_nat (j' - (s + 1)))) by lia.
      reflexivity. }
    rewrite Nat2Z.inj_succ.
    destruct b; cbn [In]; rewrite ?IH.
    + split.
      * intros [<- | [H1 H2]].
        -- rewrite Z.sub_diag. simpl. split; [lia|reflexivity].
        -- rewrite Hnext by lia. split; [lia|assumption].
      * intros [H1 H2]. destruct (Z.eq_dec s j) as [->|Hne]; [now left|right].
        rewrite Hnext in H2 by lia. split; [lia|assumption].
    + split.
      * intros [H1 H2]. rewrite Hnext by lia. split; [lia|assumption].
      * intros [H1 H2]. destruct (Z.eq_dec s j) as [->|Hne].
        -- rewrite Z.sub_diag in H2. discriminate.
        -- rewrite Hnext in H2 by lia. split; [lia|assumption].
Qed.

Lemma true_indices_ge (row : list bool) (s j : Z) : In j (true_indices s row) -> s <= j.
Proof. intros H. apply In_true_indices in H. lia. Qed.

Lemma filter_all {A : Type} (p : A -> bool) (l : list A) :
  (forall x, In x l -> p x = true) -> filter p l = l.
Proof.
  induction l as [|a l IH]; simpl; intros H; [reflexivity|].
  rewrite (H a) by now left. f_equal. apply IH. intros x Hx. apply H. now right.
Qed.

Lemma filter_none {A : Type} (p : A -> bool) (l : list A) :
  (forall x, In x l -> p x = false) -> filter p l = [].
Proof.
  induction l as [|a l IH]; simpl; intros H; [reflexivity|].
  rewrite (H a) by now left. apply IH. intros x Hx. apply H. now right.
Qed.

(** Dropping the sentinel entries of a table row gives back the valid
    block indices. *)
Lemma row_blocks_offset_row (padding : Z) (row : list bool) :
  padding < 0 -> row_blocks padding (offset_row padding row) = true_indices 0 row.
Proof.
  intros Hp. unfold row_blocks, offset_row. rewrite filter_app.
  rewrite filter_all, filter_none, app_nil_r; [reflexivity| |].
  - intros x Hx. apply repeat_spec in Hx. subst x. rewrite Z.eqb_refl. reflexivity.
  - intros x Hx. apply true_indices_ge in Hx.
    destruct (Z.eqb_spec x padding); [lia|reflexivity].
Qed.

Lemma nth_map_zrange {A : Type} (f : Z -> A) (n i : Z) (d : A) :
  0 <= i < n -> nth (Z.to_nat i) (map f (zrange 0 n)) d = f i.
Proof.
  intros Hi. unfold zrange. rewrite map_map.
  rewrite (nth_indep _ d (f (0 + Z.of_nat 0))) by (rewrite length_map, length_seq; lia).
  rewrite (map_nth (fun n => f (0 + Z.of_nat n)) (seq 0 (Z.to_nat (n - 0))) 0%nat).
  rewrite seq_nth by lia. f_equal. lia.
Qed.

Lemma length_zrange (lo hi : Z) : length (zrange lo hi) = Z.to_nat (hi - lo).
Proof. unfold zrange. now rewrite length_map, length_seq. Qed.

Lemma nth_zrange (n i : Z) (d : Z) : 0 <= i < n -> nth (Z.to_nat i) (zrange 0 n) d = i.
Proof.
  intros Hi. rewrite <- (map_id (zrange 0 n)). now rewrite nth_map_zrange.
Qed.

(** The blocks a row of the table built from [build_mask] lists. *)
Lemma In_build_mask_row (f : MaskFn) (Lq Lk bq bk padding i j : Z) :
  0 < bk -> padding < 0 -> 0 <= i < cdiv Lq bq ->
  In j (row_blocks padding
          (nth (Z.to_nat i)
             (fst (query_iterator_indices (build_mask f Lq Lk bq bk) padding)) []))
  <-> 0 <= j < cdiv Lk bk /\ block_any f Lq Lk bq bk i j = true.
Proof.
  intros Hbk Hp Hi. unfold query_iterator_indices, build_mask. simpl fst.
  rewrite map_map. rewrite nth_map_zrange by assumption.
  rewrite row_blocks_offset_row by assumption.
  rewrite In_true_indices, length_map, length_zrange, !Z.sub_0_r.
  split.
  - intros [H1 H2]. assert (Hj : 0 <= j < cdiv Lk bk) by lia. split; [assumption|].
    rewrite nth_map_zrange in H2; assumption.
  - intros [H1 H2]. split; [lia|]. rewrite nth_map_zrange; assumption.
Qed.


(** C8.  For every window size [w >= 0], all block sizes and sequence
    lengths and every query-block row [i], the closed form of
    [build_sliding_window_mask] lists exactly the key blocks that hold a pair
    (q, k) the sliding window predicate accepts: the block offset table is
    the one brute-force evaluation of the predicate gives, and a block index
    is listed in row [i] if and only if such a pair exists in the block pair. *)
Theorem sliding_window_blocks_exact (Lq Lk bq bk w : Z) :
  0 < bq -> 0 < bk -> 0 <= w ->
  let closed :=
    fst (query_iterator_indices (build_sliding_window_mask Lq Lk bq bk w) Driver.padding) in
  closed
  = fst (query_iterator_indices
           (build_mask (sliding_window_causal_mask w) Lq Lk bq bk) Driver.padding)
  /\ forall i j, 0 <= i < cdiv Lq bq ->
       (In j (row_blocks Driver.padding (nth (Z.to_nat i) closed []))
        <-> 0 <= j < cdiv Lk bk /\
            exists q k, i * bq <= q < Z.min ((i + 1) * bq) Lq /\
                        j * bk <= k < Z.min ((j + 1) * bk) Lk /\
                        sliding_window_causal_mask w q k = true).
Proof.
  intros Hbq Hbk Hw closed. subst closed.
  rewrite build_sliding_window_mask_eq by assumption.
  split; [reflexivity|]. intros i j Hi.
  rewrite In_build_mask_row by (try assumption; unfold Driver.padding; lia).
  now rewrite block_any_true_iff.
Qed.

Lemma sliding_window_blocks_exact_witness :
  let closed :=
    fst (query_iterator_indices (build_sliding_window_mask 16 16 4 4 1) Driver.padding) in
  closed
  = fst (query_iterator_indices
           (build_mask (sliding_window_causal_mask 1) 16 16 4 4) Driver.padding)
  /\ forall i j, 0 <= i < cdiv 16 4 ->
       (In j (row_blocks Driver.padding (nth (Z.to_nat i) closed []))
        <-> 0 <= j < cdiv 16 4 /\
            exists q k, i * 4 <= q < Z.min ((i + 1) * 4) 16 /\
                        j * 4 <= k < Z.min ((j + 1) * 4) 16 /\
                        sliding_window_causal_mask 1 q k = true).
Proof. apply (sliding_window_blocks_exact 16 16 4 4 1); lia. Defined.

End BuilderFacts.

Module DriverFacts.
Import Builder Kernel Driver BuilderFacts Samples.

(** *** The remap of sentinel entries *)

Lemma fold_left_max_ge (l : list Z) (a : Z) : a <= fold_left Z.max l a.
Proof.
  revert a. induction l as [|x l IH]; intros a; simpl; [lia|].
  specialize (IH (Z.max a x)). lia.
Qed.

Lemma fold_left_max_In (l : list Z) (a : Z) :
  fold_left Z.max l a = a \/ In (fold_left Z.max l a) l.
Proof.
  revert a. induction l as [|x l IH]; intros a; simpl; [now left|].
  destruct (IH (Z.max a x)) as [H|H]; [|now right; right].
  rewrite H. destruct (Z.max_spec a x) as [[_ ->]|[_ ->]]; [right; now left|now left].
Qed.

Lemma fold_left_max_upper (l : list Z) (a x : Z) : In x l -> x <= fold_left Z.max l a.
Proof.
  revert a. induction l as [|y l IH]; intros a; simpl; [tauto|].
  intros [<-|H]; [|now apply IH].
  pose proof (fold_left_max_ge l (Z.max a y)). lia.
Qed.

Lemma row_max_In (row : list Z) : row <> [] -> In (row_max row) row.
Proof.
  destruct row as [|e row]; [congruence|]. intros _. unfold row_max.
  destruct (fold_left_max_In row e) as [->|H]; [now left|now right].
Qed.

Lemma row_max_upper (row : list Z) (x : Z) : In x row -> x <= row_max row.
Proof.
  destruct row as [|e row]; [intros []|]. unfold row_max. intros [<-|H].
  - apply fold_left_max_ge.
  - now apply fold_left_max_upper.
Qed.

(** On a row that lists at least one block, the remap leaves no sentinel and
    only block indices the row already lists. *)
Lemma replace_padding_valid (row : list Z) (e : Z) :
  (forall x, In x row -> padding <= x) ->
  (exists x, In x row /\ x <> padding) ->
  In e (replace_padding row) -> e <> padding /\ In e row.
Proof.
  intros Hlow [x [Hx Hxp]] He. unfold replace_padding in He.
  apply in_map_iff in He. destruct He as [y [<- Hy]].
  assert (Hmax : row_max row <> padding /\ In (row_max row) row).
  { split.
    - pose proof (row_max_upper row x Hx). pose proof (Hlow x Hx). lia.
    - apply row_max_In. intros ->. contradiction. }
  destruct (Z.eqb_spec y padding); [exact Hmax|]. split; assumption.
Qed.

(** On a row that lists no block there is nothing to remap to. *)
Lemma replace_padding_all_sentinel (row : list Z) :
  (forall x, In x row -> x = padding) -> replace_padding row = row.
Proof.
  intros H. unfold replace_padding. rewrite <- (map_id row) at 2.
  apply map_ext_in. intros x Hx.
  destruct (Z.eqb_spec x padding) as [->|]; [|reflexivity].
  destruct row as [|e row]; [contradiction|].
  pose proof (row_max_In (e :: row) ltac:(congruence)) as Hm. now apply H in Hm.
Qed.

(** C5.  The remap does not hold for every mask: with block size 2 over 4
    keys, [prefix_only_mask] leaves the second query-block row without any
    block.  For a batch of true lengths 1 and 3 the grid has one scan step,
    and at that step the second batch element still dereferences the
    sentinel. *)
Theorem sentinel_survives_empty_row :
  let kv_seq_len := kv_seq_len_of [[0]; [2]] (batch_size prefix_batch) in
  let block_size := Z.min (tpu_block_size cfg2) (k_seq_len prefix_batch) in
  let tables :=
    kv_block_offset_tables prefix_bias (k_seq_len prefix_batch) block_size kv_seq_len in
  kv_seq_len = [1; 3]
  /\ tables = ([[0; 0]; [-1; -1]], [1; 0])
  /\ Z.to_nat (list_max (snd tables)) = 1%nat
  /\ kv_index_map (fst tables) 1 0 = padding.
Proof. vm_compute. repeat split; reflexivity. Qed.

End DriverFacts.

Module SupportFacts.
Import Builder Kernel Driver Samples.

Lemma cache_type_eqb_spec (a b : option cache_kind) :
  cache_type_eqb a b = true <-> a = b.
Proof.
  destruct a as [[|]|], b as [[|]|]; simpl; split; intros H;
    try reflexivity; try discriminate; congruence.
Qed.

Lemma own_checks_reject_dec (cfg : Config) (ib : InputBatch) (kct : option cache_kind) :
  own_checks_reject cfg ib kct \/ ~ own_checks_reject cfg ib kct.
Proof.
  unfold own_checks_reject.
  destruct (cache_type_eqb kct (Some KVCache)) eqn:Hk.
  - apply cache_type_eqb_spec in Hk.
    destruct (Z.eq_dec (k_seq_len ib mod tpu_block_size cfg) 0) as [H0|H0];
      destruct (Z_le_gt_dec (k_seq_len ib) (tpu_block_size cfg)) as [Hle|Hgt];
      try (right; intros [H1|[H1 H2]]; [congruence|lia]).
    left. right. split; assumption.
  - left. left. intros Heq. apply cache_type_eqb_spec in Heq. congruence.
Qed.

Lemma own_checks (base : InputBatch -> option cache_kind -> result bool)
  (cfg : Config) (ib : InputBatch) (kct : option cache_kind) :
  0 < tpu_block_size cfg -> base ib kct = Return true ->
  (own_checks_reject cfg ib kct -> is_supported base cfg ib kct = Return false)
  /\ (~ own_checks_reject cfg ib kct -> is_supported base cfg ib kct = Return true).
Proof.
  intros Hb Hbase. unfold is_supported, own_checks_reject. rewrite Hbase.
  destruct (cache_type_eqb kct (Some KVCache)) eqn:Hk; cbn [negb].
  - apply cache_type_eqb_spec in Hk.
    destruct (Z.eqb_spec (tpu_block_size cfg) 0) as [Hz|Hz]; [lia|].
    destruct (Z.eqb_spec (k_seq_len ib mod tpu_block_size cfg) 0) as [Hm|Hm]; cbn [negb andb].
    + split; intros Hr; [|reflexivity]. destruct Hr as [Hr|[Hr _]]; congruence.
    + unfold Z.gtb. destruct (Z.compare_spec (k_seq_len ib) (tpu_block_size cfg)) as [Hc|Hc|Hc].
      * split; intros Hr; [|reflexivity]. destruct Hr as [Hr|[_ Hr]]; [congruence|lia].
      * split; intros Hr; [|reflexivity]. destruct Hr as [Hr|[_ Hr]]; [congruence|lia].
      * split; intros Hr; [reflexivity|]. exfalso. apply Hr. right. split; [assumption|lia].
  - split; intros Hr; [reflexivity|]. exfalso. apply Hr. left. intros Heq.
    apply cache_type_eqb_spec in Heq. congruence.
Qed.

(** C6, as the code has it.  With a positive configured block size,
    [is_supported] returns false (without raising) exactly when the
    inherited check returns false, or that check passes and the KV cache is
    of the wrong kind or the key sequence length is both not a multiple of
    the block size and greater than it; it raises exactly when the inherited
    check raises; a key sequence of at most one block passes the length
    check, and [__call__] then takes the whole key sequence as its block. *)
Theorem is_supported_false_iff (base : InputBatch -> option cache_kind -> result bool)
  (cfg : Config) (ib : InputBatch) (kct : option cache_kind) :
  0 < tpu_block_size cfg ->
  (is_supported base cfg ib kct = Return false
   <-> base ib kct = Return false
       \/ (base ib kct = Return true /\ own_checks_reject cfg ib kct))
  /\ (forall e, is_supported base cfg ib kct = Raise e <-> base ib kct = Raise e)
  /\ (k_seq_len ib <= tpu_block_size cfg ->
      base ib kct = Return true -> kct = Some KVCache ->
      is_supported base cfg ib kct = Return true
      /\ Z.min (tpu_block_size cfg) (k_seq_len ib) = k_seq_len ib).
Proof.
  intros Hb. split; [|split].
  - destruct (base ib kct) as [e|[|]] eqn:Hbase.
    + unfold is_supported. rewrite Hbase. split; [discriminate|].
      intros [H|[H _]]; discriminate.
    + destruct (own_checks base cfg ib kct Hb Hbase) as [Hrej Hacc].
      destruct (own_checks_reject_dec cfg ib kct) as [Hd|Hd].
      * rewrite (Hrej Hd). split; [intros _; right; now split|reflexivity].
      * rewrite (Hacc Hd). split; [discriminate|]. intros [H|[_ H]]; [discriminate|tauto].
    + unfold is_supported. rewrite Hbase. split; [intros _; now left|reflexivity].
  - intros e. destruct (base ib kct) as [e'|[|]] eqn:Hbase.
    + unfold is_supported. rewrite Hbase. tauto.
    + destruct (own_checks base cfg ib kct Hb Hbase) as [Hrej Hacc].
      destruct (own_checks_reject_dec cfg ib kct) as [Hd|Hd];
        [rewrite (Hrej Hd)|rewrite (Hacc Hd)]; split; discriminate.
    + unfold is_supported. rewrite Hbase. split; discriminate.
  - intros Hle Hbase Hk. split; [|lia].
    apply (own_checks base cfg ib kct Hb Hbase).
    unfold own_checks_reject. intros [H|[_ H]]; [congruence|lia].
Qed.

Lemma is_supported_false_iff_witness :
  let base := fun (_ : InputBatch) (_ : option cache_kind) => Return true in
  0 < tpu_block_size cfg2 /\
  ((is_supported base cfg2 batch_without_mask (Some KVCache) = Return false
    <-> base batch_without_mask (Some KVCache) = Return false
        \/ (base batch_without_mask (Some KVCache) = Return true
            /\ own_checks_reject cfg2 batch_without_mask (Some KVCache)))
   /\ (forall e, is_supported base cfg2 batch_without_mask (Some KVCache) = Raise e
                 <-> base batch_without_mask (Some KVCache) = Raise e)
   /\ (k_seq_len batch_without_mask <= tpu_block_size cfg2 ->
       base batch_without_mask (Some KVCache) = Return true ->
       Some KVCache = Some KVCache ->
       is_supported base cfg2 batch_without_mask (Some KVCache) = Return true
       /\ Z.min (tpu_block_size cfg2) (k_seq_len batch_without_mask)
          = k_seq_len batch_without_mask)).
Proof.
  intros base. split; [simpl; lia|].
  apply (is_supported_false_iff base cfg2 batch_without_mask (Some KVCache)).
  simpl. lia.
Defined.

(** C6 as stated fails: when the inherited check rejects, [is_supported]
    returns false although the cache is a [KVCache] and the key sequence
    length 4 is a multiple of the block size 2. *)
Lemma is_supported_false_by_base :
  is_supported (fun _ _ => Return false) cfg2 batch_without_mask (Some KVCache)
  = Return false
  /\ ~ own_checks_reject cfg2 batch_without_mask (Some KVCache).
Proof.
  split; [reflexivity|].
  unfold own_checks_reject. simpl. intros [H|[H _]]; [congruence|].
  apply H. reflexivity.
Qed.

(** C7.  When the bias has no mask part, or its mask part carries no target
    positions, [__call__] raises [ValueError] and launches no kernel. *)
Theorem call_raises_without_positions (cfg : Config) (dev : Device) (ib : InputBatch) :
  (mask_part (bias ib) = None
   \/ exists m, mask_part (bias ib) = Some m /\ target_positions m = None) ->
  call cfg dev ib = mkOutcome 0 (Raise ValueError).
Proof.
  intros [H|[m [H Hm]]]; unfold call, prepare, split; rewrite H; [reflexivity|].
  rewrite Hm. reflexivity.
Qed.

Lemma call_raises_without_positions_witness :
  mask_part (bias batch_without_mask) = None
  /\ call cfg2 device0 batch_without_mask = mkOutcome 0 (Raise ValueError).
Proof.
  split; [reflexivity|].
  apply (call_raises_without_positions cfg2 device0 batch_without_mask).
  left. reflexivity.
Defined.

End SupportFacts.

(** ** Facts about the numbers *)

Module NumFacts.

Lemma xmax_NEG_INF_r (a : xreal) : xmax a NEG_INF = a.
Proof. destruct a; reflexivity. Qed.

Lemma xmax_comm (a b : xreal) : xmax a b = xmax b a.
Proof. destruct a, b; simpl; try reflexivity. now rewrite Rmax_comm. Qed.

Lemma xmax_assoc (a b c : xreal) : xmax a (xmax b c) = xmax (xmax a b) c.
Proof. destruct a, b, c; simpl; try reflexivity. now rewrite Rmax_assoc. Qed.

Lemma xle_refl (a : xreal) : xle a a.
Proof. destruct a; simpl; [exact I|lra]. Qed.

Lemma xle_trans (a b c : xreal) : xle a b -> xle b c -> xle a c.
Proof. destruct a, b, c; simpl; try tauto. lra. Qed.

Lemma xle_xmax_l (a b : xreal) : xle a (xmax a b).
Proof. destruct a, b; simpl; try exact I; try lra. apply Rmax_l. Qed.

Lemma xle_xmax_r (a b : xreal) : xle b (xmax a b).
Proof. rewrite xmax_comm. apply xle_xmax_l. Qed.

Lemma xmax_list_app (l1 l2 : list xreal) :
  xmax_list (l1 ++ l2) = xmax (xmax_list l1) (xmax_list l2).
Proof.
  induction l1 as [|a l1 IH]; simpl; [reflexivity|].
  unfold xmax_list in *. simpl. now rewrite IH, xmax_assoc.
Qed.

Lemma xle_xmax_list (l : list xreal) (x : xreal) : In x l -> xle x (xmax_list l).
Proof.
  induction l as [|a l IH]; simpl; [tauto|]. intros [<-|H].
  - apply xle_xmax_l.
  - eapply xle_trans; [now apply IH|apply xle_xmax_r].
Qed.


(** The exponent the kernel hands to [exp] never overflows: a running
    maximum minus a value it dominates is [NEG_INF - real] or a real that is
    not positive. *)
Lemma xsub_xmax_not_above (a b : xreal) :
  xle a b -> xsub a b = NEG_INF \/ exists r, xsub a b = Fin r /\ (r <= 0)%R.
Proof.
  destruct a as [|x], b as [|y]; simpl; intros H.
  - right. exists 0%R. split; [reflexivity|lra].
  - now left.
  - contradiction.
  - right. exists (x - y)%R. split; [reflexivity|lra].
Qed.

(** Rescaling a weight from one running maximum to a later one. *)
Lemma xexp_rescale (x m m' : xreal) :
  xle x m -> xle m m' ->
  (xexp (xsub m m') * xexp (xsub x m))%R = xexp (xsub x m').
Proof.
  destruct x as [|x], m as [|m], m' as [|m']; simpl; intros H1 H2;
    try contradiction; try lra.
  - rewrite exp_0. lra.
  - rewrite <- exp_plus. f_equal. lra.
Qed.

Lemma xexp_nonneg (a : xreal) : (0 <= xexp a)%R.
Proof. destruct a; simpl; [lra|]. left. apply exp_pos. Qed.

Lemma xexp_sub_self (a : xreal) : xexp (xsub a a) = 1%R.
Proof. destruct a; simpl; [apply exp_0|]. rewrite Rminus_diag. apply exp_0. Qed.

(** [Rsum]. *)
Lemma Rsum_app (l1 l2 : list R) : Rsum (l1 ++ l2) = (Rsum l1 + Rsum l2)%R.
Proof. induction l1 as [|a l1 IH]; simpl; [lra|]. unfold Rsum in *. simpl. lra. Qed.

Lemma Rsum_cons (a : R) (l : list R) : Rsum (a :: l) = (a + Rsum l)%R.
Proof. reflexivity. Qed.

Lemma Rsum_scale {A : Type} (c : R) (f : A -> R) (l : list A) :
  (c * Rsum (map f l))%R = Rsum (map (fun x => c * f x)%R l).
Proof.
  induction l as [|a l IH]; cbn [map]; [unfold Rsum; simpl; lra|].
  rewrite !Rsum_cons, <- IH. lra.
Qed.

Lemma Rsum_scale_r {A : Type} (c : R) (f : A -> R) (l : list A) :
  (Rsum (map f l) * c)%R = Rsum (map (fun x => f x * c)%R l).
Proof.
  induction l as [|a l IH]; cbn [map]; [unfold Rsum; simpl; lra|].
  rewrite !Rsum_cons, <- IH. lra.
Qed.

Lemma Rsum_ext {A : Type} (f g : A -> R) (l : list A) :
  (forall x, In x l -> f x = g x) -> Rsum (map f l) = Rsum (map g l).
Proof. intros H. f_equal. now apply map_ext_in. Qed.


Lemma Rsum_nonneg {A : Type} (f : A -> R) (l : list A) :
  (forall x, In x l -> 0 <= f x)%R -> (0 <= Rsum (map f l))%R.
Proof.
  induction l as [|a l IH]; intros H; [unfold Rsum; simpl; lra|].
  cbn [map]. rewrite Rsum_cons. pose proof (H a (or_introl eq_refl)).
  assert (0 <= Rsum (map f l))%R by (apply IH; intros x Hx; apply H; now right). lra.
Qed.

Lemma Rsum_pos {A : Type} (f : A -> R) (l : list A) (a : A) :
  (forall x, In x l -> 0 <= f x)%R -> In a l -> (0 < f a)%R -> (0 < Rsum (map f l))%R.
Proof.
  induction l as [|b l IH]; intros H Ha Hpos; [contradiction|].
  cbn [map]. rewrite Rsum_cons.
  assert (Hrest : (0 <= Rsum (map f l))%R) by (apply Rsum_nonneg; intros x Hx; apply H; now right).
  pose proof (H b (or_introl eq_refl)) as Hb.
  destruct Ha as [->|Ha]; [lra|].
  assert (0 < Rsum (map f l))%R; [|lra].
  apply IH; try assumption. intros x Hx. apply H. now right.
Qed.

End NumFacts.

(** ** The scan of one lane *)

Module ScanFacts.
Import Builder Kernel Driver Samples.

Section Step.
Variable softmax_scale : R.
Variable mask_fn : option MaskFn.
Variable head_dim block_k : nat.
Variable kv_seq_len_ref : list Z.
Variable kv_block_offset : list (list Z).
Variable kv_block_offset_size : list Z.
Variable b j : nat.
Variable q_ref k_ref v_ref : Tensor2.
Variable b_ref : option (nat -> nat -> xreal).

Let n := nth b kv_block_offset_size 0.
Let body := _tpu_decoding_kernel softmax_scale mask_fn head_dim block_k
              kv_seq_len_ref kv_block_offset kv_block_offset_size b j
              q_ref k_ref v_ref b_ref.

(** Past the valid blocks the body does nothing at all. *)
Lemma kernel_past_valid (bufs : Buffers) :
  n <= Z.of_nat j -> j <> 0%nat -> body bufs = bufs.
Proof.
  intros Hn Hj. subst body n. unfold _tpu_decoding_kernel.
  destruct (Nat.eqb_spec j 0) as [H0|H0]; [contradiction|].
  destruct (Z.ltb_spec (Z.of_nat j) (nth b kv_block_offset_size 0)) as [H1|H1]; [lia|].
  destruct (Z.eqb_spec (Z.of_nat j) (nth b kv_block_offset_size 0 - 1)) as [H2|H2]; [lia|].
  reflexivity.
Qed.

(** Away from the last valid block the output block is not touched. *)
Lemma kernel_keeps_output (bufs : Buffers) :
  Z.of_nat j <> n - 1 ->
  o_ref (body bufs) = o_ref bufs /\ stores (body bufs) = stores bufs.
Proof.
  intros Hn. subst body n. unfold _tpu_decoding_kernel.
  destruct (Z.eqb_spec (Z.of_nat j) (nth b kv_block_offset_size 0 - 1)) as [H2|H2];
    [contradiction|].
  destruct (Nat.eqb j 0);
    destruct (Z.of_nat j <? nth b kv_block_offset_size 0); split; reflexivity.
Qed.

(** At the last valid block the normalised accumulator is stored. *)
Lemma kernel_stores_output (bufs : Buffers) :
  Z.of_nat j = n - 1 ->
  stores (body bufs) = j :: stores bufs
  /\ o_ref (body bufs)
     = (fun i d => o_scratch (scratch (body bufs)) i d / l_i (scratch (body bufs)) i)%R.
Proof.
  intros Hn. subst body n. unfold _tpu_decoding_kernel.
  destruct (Z.eqb_spec (Z.of_nat j) (nth b kv_block_offset_size 0 - 1)) as [H2|H2];
    [|contradiction].
  destruct (Nat.eqb j 0);
    destruct (Z.of_nat j <? nth b kv_block_offset_size 0); split; reflexivity.
Qed.

(** On a valid block the scratch buffers are updated, from the initial
    accumulator at scan index 0. *)
Lemma kernel_scratch (bufs : Buffers) :
  Z.of_nat j < n ->
  scratch (body bufs)
  = compute softmax_scale mask_fn head_dim block_k
      (nth j (nth b kv_block_offset []) 0 * Z.of_nat block_k)
      (nth b kv_seq_len_ref 0) q_ref k_ref v_ref b_ref
      (if (j =? 0)%nat then init (scratch bufs) else scratch bufs).
Proof.
  intros Hn. subst body n. unfold _tpu_decoding_kernel.
  destruct (Z.ltb_spec (Z.of_nat j) (nth b kv_block_offset_size 0)) as [H1|H1]; [|lia].
  destruct (Nat.eqb j 0);
    destruct (Z.of_nat j =? nth b kv_block_offset_size 0 - 1); reflexivity.
Qed.
End Step.

Section Lane.
Variable cfg : Config.
Variable mask_fn : option MaskFn.
Variable input_batch : InputBatch.
Variable bias_value : option BiasTensor.
Variable block_kv : nat.
Variable q_seq_head : nat.
Variable kv_seq_len : list Z.
Variable kv_block_offset : list (list Z).
Variable kv_block_offset_size : list Z.
Variable b h : nat.

Let n := nth b kv_block_offset_size 0.
Let step := grid_step cfg mask_fn input_batch bias_value block_kv q_seq_head
              kv_seq_len kv_block_offset kv_block_offset_size b h.
Let run := run_lane cfg mask_fn input_batch bias_value block_kv q_seq_head
             kv_seq_len kv_block_offset kv_block_offset_size b h.

Lemma run_lane_S (t : nat) (bufs : Buffers) : run (S t) bufs = step (run t bufs) t.
Proof.
  subst run step. unfold run_lane. rewrite seq_S, fold_left_app. reflexivity.
Qed.

Lemma step_past_valid (j : nat) (bufs : Buffers) :
  n <= Z.of_nat j -> j <> 0%nat -> step bufs j = bufs.
Proof. intros Hn Hj. subst step n. unfold grid_step. now apply kernel_past_valid. Qed.

Lemma step_keeps_output (j : nat) (bufs : Buffers) :
  Z.of_nat j <> n - 1 ->
  o_ref (step bufs j) = o_ref bufs /\ stores (step bufs j) = stores bufs.
Proof. intros Hn. subst step n. unfold grid_step. now apply kernel_keeps_output. Qed.

(** Before the last valid block nothing is stored. *)
Lemma run_keeps_output (t : nat) (bufs : Buffers) :
  Z.of_nat t <= n - 1 \/ n <= 0 ->
  o_ref (run t bufs) = o_ref bufs /\ stores (run t bufs) = stores bufs.
Proof.
  induction t as [|t IH]; intros Ht; [split; reflexivity|].
  rewrite run_lane_S.
  destruct (step_keeps_output t (run t bufs)) as [Ho Hs]; [lia|].
  destruct IH as [IHo IHs]; [lia|]. rewrite Ho, Hs. split; assumption.
Qed.

(** After the last valid block the buffers stay as they are. *)
Lemma run_past_valid (t : nat) (bufs : Buffers) :
  1 <= n -> n <= Z.of_nat t -> run t bufs = run (Z.to_nat n) bufs.
Proof.
  intros Hn. induction t as [|t IH]; intros Ht; [lia|].
  destruct (Z.eq_dec (Z.of_nat (S t)) n) as [He|He].
  - f_equal. lia.
  - rewrite run_lane_S, step_past_valid by lia. apply IH. lia.
Qed.

Lemma run_stores_once (steps : nat) (bufs : Buffers) :
  1 <= n -> n <= Z.of_nat steps ->
  stores (run steps bufs) = Z.to_nat (n - 1) :: stores bufs
  /\ o_ref (run steps bufs)
     = (fun i d => o_scratch (scratch (run steps bufs)) i d
                   / l_i (scratch (run steps bufs)) i)%R.
Proof.
  intros Hn Hs. rewrite (run_past_valid steps bufs Hn Hs).
  replace (Z.to_nat n) with (S (Z.to_nat (n - 1))) by lia.
  rewrite run_lane_S.
  destruct (run_keeps_output (Z.to_nat (n - 1)) bufs) as [_ Hst]; [lia|].
  subst step n. unfold grid_step.
  match goal with
  | |- context [_tpu_decoding_kernel ?a ?b ?c ?d ?e ?f ?g ?h ?i ?j ?k ?l ?m ?bufs] =>
      destruct (kernel_stores_output a b c d e f g h i j k l m bufs) as [H1 H2]
  end; [lia|].
  split; [|exact H2]. rewrite H1. f_equal. exact Hst.
Qed.

(** C10.  In a lane whose number of valid blocks is zero, no scan index
    meets the condition of [final]; whatever the number of scan steps, the
    output block of the lane keeps the contents it had before the call and
    nothing is stored into it. *)
Theorem zero_block_lane_keeps_output (steps : nat) (bufs : Buffers) :
  nth b kv_block_offset_size 0 = 0 ->
  (forall j : nat, (Z.of_nat j =? nth b kv_block_offset_size 0 - 1) = false)
  /\ o_ref (run_lane cfg mask_fn input_batch bias_value block_kv q_seq_head
              kv_seq_len kv_block_offset kv_block_offset_size b h steps bufs)
     = o_ref bufs
  /\ stores (run_lane cfg mask_fn input_batch bias_value block_kv q_seq_head
               kv_seq_len kv_block_offset kv_block_offset_size b h steps bufs)
     = stores bufs.
Proof.
  intros H0. split.
  - intros j. rewrite H0. apply Z.eqb_neq. lia.
  - apply run_keeps_output. right. subst n. lia.
Qed.

(** C3, as the code has it.  In a lane with at least one valid block, run
    for at least that many scan steps, the normalised output [o / l] is
    stored exactly once, at scan index [valid_block_count - 1]; every scan
    step at an index from [valid_block_count] on leaves the scratch
    buffers, the output block and the store log as they are. *)
Theorem output_stored_once (steps : nat) (bufs : Buffers) :
  1 <= nth b kv_block_offset_size 0 ->
  nth b kv_block_offset_size 0 <= Z.of_nat steps ->
  let final := run_lane cfg mask_fn input_batch bias_value block_kv q_seq_head
                 kv_seq_len kv_block_offset kv_block_offset_size b h steps bufs in
  stores final = Z.to_nat (nth b kv_block_offset_size 0 - 1) :: stores bufs
  /\ o_ref final
     = (fun i d => o_scratch (scratch final) i d / l_i (scratch final) i)%R
  /\ forall (j : nat) (bufs' : Buffers),
       nth b kv_block_offset_size 0 <= Z.of_nat j ->
       grid_step cfg mask_fn input_batch bias_value block_kv q_seq_head
         kv_seq_len kv_block_offset kv_block_offset_size b h bufs' j = bufs'.
Proof.
  intros Hn Hs final.
  destruct (run_stores_once steps bufs Hn Hs) as [H1 H2].
  split; [exact H1|]. split; [exact H2|].
  intros j bufs' Hj. apply step_past_valid; [exact Hj|]. subst n. lia.
Qed.
End Lane.

(** The tables the driver builds for [prefix_batch]: the second batch
    element has no valid block. *)
Lemma prefix_tables :
  kv_block_offset_tables prefix_bias 4 2 [1; 3] = ([[0; 0]; [-1; -1]], [1; 0]).
Proof. vm_compute. reflexivity. Qed.

Lemma zero_block_lane_keeps_output_witness :
  let bufs := mkBuffers (vmem device0 1 0) (out_init device0 1 0) [] in
  let final := run_lane cfg2 (Some prefix_only_mask) prefix_batch None 2 1
                 [1; 3] [[0; 0]; [-1; -1]] [1; 0] 1 0 1 bufs in
  nth 1%nat [1; 0] 0 = 0
  /\ o_ref final = o_ref bufs /\ stores final = stores bufs.
Proof.
  intros bufs final. split; [reflexivity|].
  apply (zero_block_lane_keeps_output cfg2 (Some prefix_only_mask) prefix_batch None 2 1
           [1; 3] [[0; 0]; [-1; -1]] [1; 0] 1 0 1 bufs).
  reflexivity.
Defined.

Lemma output_stored_once_witness :
  let bufs := mkBuffers (vmem device0 0 0) (out_init device0 0 0) [] in
  let final := run_lane cfg2 (Some prefix_only_mask) prefix_batch None 2 1
                 [1; 3] [[0; 0]; [-1; -1]] [1; 0] 0 0 1 bufs in
  (1 <= nth 0%nat [1; 0] 0 /\ nth 0%nat [1; 0] 0 <= Z.of_nat 1)
  /\ stores final = [0%nat].
Proof.
  intros bufs final. split; [simpl; lia|].
  apply (output_stored_once cfg2 (Some prefix_only_mask) prefix_batch None 2 1
           [1; 3] [[0; 0]; [-1; -1]] [1; 0] 0 0 1 bufs); simpl; lia.
Defined.

(** C3 as stated fails: in the grid the driver launches for [prefix_batch]
    (one scan step), the lane of the second batch element has no valid
    block, and its output is stored zero times, not once. *)
Lemma zero_block_lane_never_stores :
  let tables := kv_block_offset_tables prefix_bias 4 2 [1; 3] in
  let steps := Z.to_nat (list_max (snd tables)) in
  let bufs := mkBuffers (vmem device0 1 0) (out_init device0 1 0) [] in
  steps = 1%nat
  /\ nth 1%nat (snd tables) 0 = 0
  /\ stores (run_lane cfg2 (mask prefix_bias) prefix_batch None 2 1
               [1; 3] (fst tables) (snd tables) 1 0 steps bufs) = [].
Proof.
  intros tables steps bufs. subst steps tables. rewrite prefix_tables.
  split; [reflexivity|]. split; [reflexivity|].
  apply (run_keeps_output cfg2 (mask prefix_bias) prefix_batch None 2 1
           [1; 3] [[0; 0]; [-1; -1]] [1; 0] 1 0 1 bufs).
  right. simpl. lia.
Qed.

End ScanFacts.

(** ** The streaming softmax accumulator *)

Module AccumulatorFacts.
Import Builder Kernel Driver Visited NumFacts ScanFacts Samples.

Lemma terms_max_app (ts bs : list term) :
  terms_max (ts ++ bs) = xmax (terms_max ts) (terms_max bs).
Proof. unfold terms_max. rewrite map_app. apply xmax_list_app. Qed.

Lemma xle_terms_max (ts : list term) (t : term) : In t ts -> xle (fst t) (terms_max ts).
Proof. intros H. apply xle_xmax_list. now apply in_map. Qed.

Lemma max_n_block_terms (bk : nat) (qk : nat -> nat -> xreal) (v : Tensor2) (i : nat) :
  max_n (qk i) bk = terms_max (block_terms bk qk v i).
Proof. unfold max_n, terms_max, block_terms. now rewrite map_map. Qed.

Lemma init_accumulates (s : Scratch) (i : nat) : accumulates (init s) i [].
Proof. repeat split. Qed.

(** One update carries the accumulator from the terms seen so far to those
    with the block appended. *)
Lemma update_accumulates (bk : nat) (qk : nat -> nat -> xreal) (v : Tensor2)
  (s : Scratch) (i : nat) (ts : list term) :
  accumulates s i ts ->
  accumulates (update bk qk v s) i (ts ++ block_terms bk qk v i).
Proof.
  intros [Hm [Hl Ho]].
  assert (Hmax : xmax (m_i s i) (max_n (qk i) bk)
                 = terms_max (ts ++ block_terms bk qk v i)).
  { now rewrite terms_max_app, Hm, (max_n_block_terms bk qk v i). }
  assert (Hold : forall t, In t ts ->
            (xexp (xsub (m_i s i) (terms_max (ts ++ block_terms bk qk v i)))
             * weight ts t)%R
            = weight (ts ++ block_terms bk qk v i) t).
  { intros t Ht. unfold weight. rewrite Hm. apply xexp_rescale.
    - now apply xle_terms_max.
    - rewrite terms_max_app. apply xle_xmax_l. }
  unfold accumulates, update. cbn [m_i l_i o_scratch]. rewrite Hmax.
  split; [reflexivity|]. split.
  - rewrite map_app, Rsum_app, Hl, Rsum_scale. f_equal.
    + apply Rsum_ext. exact Hold.
    + unfold sum_n, block_terms. rewrite map_map. reflexivity.
  - intros d. rewrite map_app, Rsum_app, Ho, Rsum_scale. f_equal.
    + apply Rsum_ext. intros t Ht. rewrite <- (Hold t Ht). lra.
    + unfold sum_n, block_terms. rewrite map_map. reflexivity.
Qed.

(** The exponents of the update do not overflow: [m_next] dominates
    [m_prev] and every logit of the block. *)
Lemma update_exponents_not_above (bk : nat) (qk : nat -> nat -> xreal)
  (s : Scratch) (i c : nat) :
  (c < bk)%nat ->
  let m_next := xmax (m_i s i) (max_n (qk i) bk) in
  xle (m_i s i) m_next /\ xle (qk i c) m_next.
Proof.
  intros Hc m_next. split; [apply xle_xmax_l|].
  eapply xle_trans; [|apply xle_xmax_r]. unfold max_n.
  apply xle_xmax_list. apply in_map. apply in_seq. lia.
Qed.

(** The stored ratio is the softmax-weighted average. *)
Lemma accumulates_ratio (s : Scratch) (i d : nat) (ts : list term) :
  accumulates s i ts ->
  (o_scratch s i d / l_i s i)%R = softmax_average ts d.
Proof.
  intros [_ [Hl Ho]]. rewrite Hl, Ho. unfold softmax_average, softmax_of, Rdiv.
  rewrite Rsum_scale_r. apply Rsum_ext. intros t _. lra.
Qed.

Section Lane.
Variable cfg : Config.
Variable mask_fn : option MaskFn.
Variable input_batch : InputBatch.
Variable bias_value : option BiasTensor.
Variable block_kv : nat.
Variable q_seq_head : nat.
Variable kv_seq_len : list Z.
Variable kv_block_offset : list (list Z).
Variable kv_block_offset_size : list Z.
Variable b h : nat.

Let run := run_lane cfg mask_fn input_batch bias_value block_kv q_seq_head
             kv_seq_len kv_block_offset kv_block_offset_size b h.
Let seen := lane_terms cfg mask_fn input_batch bias_value block_kv q_seq_head
              kv_seq_len kv_block_offset b h.
Let logits := step_logits cfg mask_fn input_batch bias_value block_kv q_seq_head
                kv_seq_len kv_block_offset b h.
Let values := step_values input_batch block_kv kv_block_offset b h.

Lemma lane_terms_S (i t : nat) :
  seen i (S t) = seen i t ++ block_terms block_kv (logits t) (values t) i.
Proof.
  subst seen logits values. unfold lane_terms.
  rewrite seq_S, flat_map_app. cbn [flat_map]. now rewrite app_nil_r.
Qed.

Let before := before_step cfg mask_fn input_batch bias_value block_kv q_seq_head
                kv_seq_len kv_block_offset kv_block_offset_size b h.

Lemma scratch_run_S (t : nat) (bufs : Buffers) :
  Z.of_nat t < nth b kv_block_offset_size 0 ->
  scratch (run (S t) bufs)
  = update block_kv (logits t) (values t) (before t bufs).
Proof.
  intros Ht. subst run before. rewrite run_lane_S. unfold grid_step, before_step.
  rewrite kernel_scratch by exact Ht. reflexivity.
Qed.

Lemma run_accumulates (t : nat) (bufs : Buffers) (i : nat) :
  Z.of_nat t < nth b kv_block_offset_size 0 ->
  accumulates (before t bufs) i (seen i t)
  /\ accumulates (scratch (run (S t) bufs)) i (seen i (S t)).
Proof.
  induction t as [|t IH]; intros Ht.
  - assert (H0 : accumulates (before 0 bufs) i (seen i 0)).
    { subst before. unfold before_step. cbn [Nat.eqb]. apply init_accumulates. }
    split; [exact H0|].
    rewrite scratch_run_S, lane_terms_S by exact Ht. now apply update_accumulates.
  - destruct IH as [_ IH]; [lia|].
    assert (H0 : accumulates (before (S t) bufs) i (seen i (S t))).
    { subst before. unfold before_step. cbn [Nat.eqb]. exact IH. }
    split; [exact H0|].
    rewrite scratch_run_S, lane_terms_S by exact Ht. now apply update_accumulates.
Qed.

(** After the last valid block the output block holds the softmax-weighted
    average over every block the lane has visited. *)
Lemma lane_output (steps : nat) (bufs : Buffers) (i d : nat) :
  1 <= nth b kv_block_offset_size 0 ->
  nth b kv_block_offset_size 0 <= Z.of_nat steps ->
  o_ref (run steps bufs) i d
  = softmax_average (seen i (Z.to_nat (nth b kv_block_offset_size 0))) d.
Proof.
  intros Hn Hs. unfold run, seen.
  destruct (run_stores_once cfg mask_fn input_batch bias_value block_kv q_seq_head
              kv_seq_len kv_block_offset kv_block_offset_size b h steps bufs Hn Hs)
    as [_ Ho].
  rewrite Ho.
  rewrite (run_past_valid cfg mask_fn input_batch bias_value block_kv q_seq_head
             kv_seq_len kv_block_offset kv_block_offset_size b h steps bufs Hn Hs).
  replace (Z.to_nat (nth b kv_block_offset_size 0))
    with (S (Z.to_nat (nth b kv_block_offset_size 0 - 1))) by lia.
  apply accumulates_ratio. apply run_accumulates. lia.
Qed.

End Lane.


End AccumulatorFacts.

(** ** Masking inside a kernel step *)

Module MaskFacts.
Import Builder Kernel Driver Visited NumFacts Samples.

Section Step.
Variable softmax_scale : R.
Variable mask_fn : option MaskFn.
Variable head_dim block_k : nat.

Lemma scale_applied (x : R) :
  (if Req_dec_T softmax_scale 1 then x else (x * softmax_scale)%R) = (x * softmax_scale)%R.
Proof. destruct (Req_dec_T softmax_scale 1) as [->|_]; [lra|reflexivity]. Qed.

(** The logit of an accepted position: the scaled product, then the bias. *)
Lemma accepted_logit (kv_offset kv_seq_len : Z) (q k : Tensor2)
  (b_ref : option (nat -> nat -> xreal)) (i c : nat) :
  key_accepted mask_fn kv_seq_len (kv_offset + Z.of_nat c) = true ->
  masked_logits softmax_scale mask_fn head_dim kv_offset kv_seq_len q k b_ref i c
  = match b_ref with
    | Some bias => xadd (Fin (dot head_dim q k i c * softmax_scale)) (bias i c)
    | None => Fin (dot head_dim q k i c * softmax_scale)
    end.
Proof.
  unfold key_accepted, masked_logits. intros H.
  replace (match mask_fn with
           | Some f => (kv_offset + Z.of_nat c <? kv_seq_len)
                       && f (kv_seq_len - 1) (kv_offset + Z.of_nat c)
           | None => kv_offset + Z.of_nat c <? kv_seq_len
           end) with true.
  - rewrite scale_applied. destruct b_ref; [apply xmax_NEG_INF_r|reflexivity].
  - destruct mask_fn; [now rewrite H|]. now rewrite andb_true_r in H.
Qed.

(** The logit of a rejected position is [NEG_INF]. *)
Lemma rejected_logit (kv_offset kv_seq_len : Z) (q k : Tensor2)
  (b_ref : option (nat -> nat -> xreal)) (i c : nat) :
  key_accepted mask_fn kv_seq_len (kv_offset + Z.of_nat c) = false ->
  masked_logits softmax_scale mask_fn head_dim kv_offset kv_seq_len q k b_ref i c
  = NEG_INF.
Proof.
  unfold key_accepted, masked_logits. intros H.
  replace (match mask_fn with
           | Some f => (kv_offset + Z.of_nat c <? kv_seq_len)
                       && f (kv_seq_len - 1) (kv_offset + Z.of_nat c)
           | None => kv_offset + Z.of_nat c <? kv_seq_len
           end) with false; [reflexivity|].
  destruct mask_fn; [now rewrite H|]. now rewrite andb_true_r in H.
Qed.

End Step.



End MaskFacts.

(** ** The blocks a lane visits *)

Module TableFacts.
Import Builder Kernel Driver BuilderFacts DriverFacts.

Lemma zrange_nil (lo hi : Z) : hi <= lo -> zrange lo hi = [].
Proof. intros H. unfold zrange. replace (Z.to_nat (hi - lo)) with 0%nat by lia. reflexivity. Qed.

Lemma zrange_cons (lo hi : Z) : lo < hi -> zrange lo hi = lo :: zrange (lo + 1) hi.
Proof.
  intros H. unfold zrange.
  replace (Z.to_nat (hi - lo)) with (S (Z.to_nat (hi - (lo + 1)))) by lia.
  cbn [seq map]. f_equal; [lia|].
  rewrite <- seq_shift, map_map. apply map_ext. intros n. lia.
Qed.

Lemma zrange_app (lo mid hi : Z) :
  lo <= mid <= hi -> zrange lo hi = zrange lo mid ++ zrange mid hi.
Proof.
  intros H. remember (Z.to_nat (mid - lo)) as n eqn:Hn.
  revert lo H Hn. induction n as [|n IH]; intros lo H Hn.
  - assert (mid = lo) by lia. subst mid. now rewrite (zrange_nil lo lo) by lia.
  - rewrite (zrange_cons lo hi), (zrange_cons lo mid) by lia.
    cbn [app]. f_equal. apply IH; lia.
Qed.

Lemma true_indices_map_zrange (q : Z -> bool) (lo hi : Z) :
  true_indices lo (map q (zrange lo hi)) = filter q (zrange lo hi).
Proof.
  remember (Z.to_nat (hi - lo)) as n eqn:Hn.
  revert lo Hn. induction n as [|n IH]; intros lo Hn.
  - now rewrite zrange_nil by lia.
  - rewrite zrange_cons by lia. cbn [map true_indices filter].
    rewrite IH by lia. reflexivity.
Qed.

Lemma firstn_length_app {A : Type} (l1 l2 : list A) : firstn (length l1) (l1 ++ l2) = l1.
Proof. induction l1 as [|a l1 IH]; simpl; [reflexivity|]. now rewrite IH. Qed.

Lemma map_nth_seq {A : Type} (l : list A) (d : A) (n : nat) :
  (n <= length l)%nat -> map (fun j => nth j l d) (seq 0 n) = firstn n l.
Proof.
  revert n. induction l as [|a l IH]; intros n Hn.
  - simpl in Hn. assert (n = 0%nat) by lia. subst n. reflexivity.
  - destruct n as [|n]; [reflexivity|].
    cbn [seq map firstn nth]. f_equal.
    rewrite <- seq_shift, map_map. cbn [nth]. apply IH. simpl in Hn. lia.
Qed.

Lemma nth_map2 {A B C : Type} (f : A -> B -> C) (la : list A) (lb : list B)
  (n : nat) (da : A) (db : B) (dc : C) :
  (n < length la)%nat -> (n < length lb)%nat ->
  nth n (map2 f la lb) dc = f (nth n la da) (nth n lb db).
Proof.
  revert lb n. induction la as [|a la IH]; intros lb n Ha Hb; [simpl in Ha; lia|].
  destruct lb as [|b' lb]; [simpl in Hb; lia|].
  destruct n as [|n]; [reflexivity|]. simpl in Ha, Hb. cbn [map2 nth]. apply IH; lia.
Qed.

Lemma nth_map_in {A B : Type} (f : A -> B) (l : list A) (n : nat) (da : A) (db : B) :
  (n < length l)%nat -> nth n (map f l) db = f (nth n l da).
Proof.
  intros H. rewrite (nth_indep _ db (f da)) by (now rewrite length_map). apply map_nth.
Qed.

(** A table row: the valid block indices, in increasing order, then
    sentinels.  Its count of blocks starting below [len] and the prefix of
    that length of the remapped row. *)
Lemma row_visited (q : Z -> bool) (P r B len : Z) (k : nat) :
  0 < B -> 0 <= r < P -> r = (len - 1) / B ->
  let row := filter q (zrange 0 P) ++ repeat padding k in
  let visited := filter q (zrange 0 (r + 1)) in
  block_offset_size B row len = Z.of_nat (length visited)
  /\ firstn (length visited) (replace_padding row) = visited.
Proof.
  intros HB Hr Hlen row visited.
  assert (Hbelow : forall e, e * B < len <-> e <= r).
  { intros e. rewrite Hlen, <- (block_le_div B (len - 1) e HB). lia. }
  assert (Hsplit : filter q (zrange 0 P) = visited ++ filter q (zrange (r + 1) P)).
  { subst visited. rewrite <- filter_app, <- zrange_app by lia. reflexivity. }
  assert (Hvis : forall e, In e visited -> 0 <= e <= r).
  { intros e He. apply filter_In in He. destruct He as [He _].
    apply In_zrange in He. lia. }
  assert (Hrest : forall e, In e (filter q (zrange (r + 1) P)) -> r < e).
  { intros e He. apply filter_In in He. destruct He as [He _].
    apply In_zrange in He. lia. }
  split.
  - unfold block_offset_size, count_nonzero. f_equal. subst row.
    rewrite Hsplit, !filter_app.
    rewrite (filter_all _ visited), (filter_none _ (filter q (zrange (r + 1) P))),
      (filter_none _ (repeat padding k)).
    + now rewrite !app_nil_r.
    + intros e He. apply repeat_spec in He. subst e. now rewrite Z.eqb_refl.
    + intros e He. apply Hrest in He.
      destruct (Z.ltb_spec (e * B) len) as [Hlt|_]; [apply Hbelow in Hlt; lia|].
      apply andb_false_r.
    + intros e He. apply Hvis in He.
      destruct (Z.eqb_spec e padding) as [Hp|_]; [unfold padding in Hp; lia|].
      destruct (Z.ltb_spec (e * B) len) as [_|Hge]; [reflexivity|].
      assert (e * B < len) by (apply Hbelow; lia). lia.
  - unfold replace_padding. subst row. rewrite Hsplit, <- app_assoc, map_app.
    replace (map _ visited) with visited.
    + apply firstn_length_app.
    + rewrite <- (map_id visited) at 1. apply map_ext_in. intros e He.
      apply Hvis in He.
      destruct (Z.eqb_spec e padding) as [Hp|_]; [unfold padding in Hp; lia|reflexivity].
Qed.

Lemma cdiv_exact (S B : Z) : 0 < B -> S mod B = 0 -> cdiv S B = S / B /\ S = S / B * B.
Proof.
  intros HB Hmod. pose proof (Z.div_mod S B ltac:(lia)) as Hdm.
  assert (HS : S = S / B * B) by lia. split; [|exact HS].
  unfold cdiv. rewrite HS at 1.
  replace (S / B * B + B - 1) with ((B - 1) + S / B * B) by lia.
  rewrite Z.div_add by lia. rewrite Z.div_small by lia. lia.
Qed.

(** An index within the rows selects its row. *)
Lemma row_index_in_range (n_rows idx : Z) :
  0 <= idx < n_rows -> row_index n_rows idx = Z.to_nat idx.
Proof.
  intros H. unfold row_index. destruct (Z.ltb_spec idx 0) as [Hneg|_]; [lia|].
  f_equal. lia.
Qed.

(** The offset table has one row per query block. *)
Lemma length_block_offsets (m : MaskFnAttentionBias) (S B : Z) :
  length (block_offsets m S B) = Z.to_nat (cdiv S B).
Proof.
  unfold block_offsets. destruct (mask m) as [f|].
  - unfold query_iterator_indices. cbn [fst]. rewrite length_map.
    destruct (sliding_window_size m) as [w|];
      unfold build_sliding_window_mask, build_mask;
      rewrite length_map, length_zrange; f_equal; lia.
  - unfold iota_table. rewrite length_map, length_zrange. f_equal. lia.
Qed.

(** The row the driver selects for a true length within the padded one. *)
Lemma select_rows_nth (m : MaskFnAttentionBias) (S B : Z) (lens : list Z) (b : nat) :
  0 < B -> 1 <= nth b lens 0 <= S ->
  nth b (select_rows (block_offsets m S B) lens B) []
  = nth (Z.to_nat ((nth b lens 0 - 1) / B)) (block_offsets m S B) [].
Proof.
  intros HB Hlen.
  assert (Hb : (b < length lens)%nat).
  { destruct (Nat.lt_ge_cases b (length lens)) as [H|H]; [exact H|].
    rewrite nth_overflow in Hlen by exact H. lia. }
  unfold select_rows. rewrite (nth_map_in _ lens b 0) by exact Hb.
  rewrite row_index_in_range; [reflexivity|].
  rewrite length_block_offsets.
  assert (Hr : 0 <= (nth b lens 0 - 1) / B < cdiv S B).
  { apply (cdiv_range S B _ HB). split; [apply Z.div_pos; lia|].
    pose proof (Z.mul_div_le (nth b lens 0 - 1) B HB). lia. }
  lia.
Qed.

(** The row of the offset table the driver selects for a true length [len]:
    the key blocks kept by some test, in increasing order, then sentinels;
    a block the test drops holds no accepted position. *)
Lemma selected_row (m : MaskFnAttentionBias) (S B len : Z) :
  0 < B -> S mod B = 0 -> 1 <= len <= S ->
  (forall f w, mask m = Some f -> sliding_window_size m = Some w ->
               0 <= w /\ forall q k, f q k = sliding_window_causal_mask w q k) ->
  exists (keep : Z -> bool) (k : nat),
    nth (Z.to_nat ((len - 1) / B)) (block_offsets m S B) []
    = filter keep (zrange 0 (S / B)) ++ repeat padding k
    /\ forall e c, 0 <= e < S / B -> keep e = false -> 0 <= c < B ->
                   key_accepted (mask m) len (e * B + c) = false.
Proof.
  intros HB Hmod Hlen Hsw.
  destruct (cdiv_exact S B HB Hmod) as [Hcdiv HS].
  set (r := (len - 1) / B).
  assert (Hr : 0 <= r < S / B).
  { subst r. split; [apply Z.div_pos; lia|]. apply Z.div_lt_upper_bound; lia. }
  assert (Hrow : forall f : MaskFn, exists k : nat,
            nth (Z.to_nat r) (fst (query_iterator_indices (build_mask f S S B B) padding)) []
            = filter (block_any f S S B B r) (zrange 0 (S / B)) ++ repeat padding k).
  { intros f. unfold query_iterator_indices, build_mask. cbn [fst].
    rewrite map_map, Hcdiv, nth_map_zrange by exact Hr.
    unfold offset_row. rewrite true_indices_map_zrange. eexists. reflexivity. }
  assert (Hrej : forall f : MaskFn, forall e c,
            0 <= e < S / B -> block_any f S S B B r e = false -> 0 <= c < B ->
            f (len - 1) (e * B + c) = false).
  { intros f e c He Hany Hc. destruct (f (len - 1) (e * B + c)) eqn:Hf; [|reflexivity].
    rewrite <- Hany. symmetry. apply block_any_true_iff.
    exists (len - 1), (e * B + c). split; [|split; [|exact Hf]].
    - subst r. pose proof (Z.mul_div_le (len - 1) B HB).
      pose proof (Z.mod_pos_bound (len - 1) B HB). pose proof (Z.div_mod (len - 1) B).
      nia.
    - nia. }
  unfold block_offsets. destruct (mask m) as [f|] eqn:Hmask.
  - destruct (sliding_window_size m) as [w|] eqn:Hw.
    + destruct (Hsw f w eq_refl eq_refl) as [Hw0 Hf].
      rewrite build_sliding_window_mask_eq by assumption.
      destruct (Hrow (sliding_window_causal_mask w)) as [k Hk].
      eexists. exists k. split; [exact Hk|].
      intros e c He Hkeep Hc. unfold key_accepted.
      rewrite Hf, (Hrej _ e c He Hkeep Hc). apply andb_false_r.
    + destruct (Hrow f) as [k Hk].
      eexists. exists k. split; [exact Hk|].
      intros e c He Hkeep Hc. unfold key_accepted.
      rewrite (Hrej _ e c He Hkeep Hc). apply andb_false_r.
  - exists (fun _ => true), 0%nat. split; [|intros; discriminate].
    unfold iota_table. rewrite Hcdiv, nth_map_zrange by exact Hr.
    cbn [repeat]. rewrite app_nil_r. symmetry. apply filter_all. reflexivity.
Qed.

(** The scan of lane [b] reads, in order, the key blocks up to the one of the
    decode query that some test keeps, as many as the lane counts valid; the
    blocks the test drops hold no accepted position. *)
Lemma driver_visited (m : MaskFnAttentionBias) (S B : Z) (lens : list Z) (b : nat) :
  0 < B -> S mod B = 0 -> 1 <= nth b lens 0 <= S ->
  (forall f w, mask m = Some f -> sliding_window_size m = Some w ->
               0 <= w /\ forall q k, f q k = sliding_window_causal_mask w q k) ->
  exists keep : Z -> bool,
    let visited := filter keep (zrange 0 ((nth b lens 0 - 1) / B + 1)) in
    nth b (snd (kv_block_offset_tables m S B lens)) 0 = Z.of_nat (length visited)
    /\ map (kv_index_map (fst (kv_block_offset_tables m S B lens)) b)
           (seq 0 (length visited)) = visited
    /\ forall e c, 0 <= e < S / B -> keep e = false -> 0 <= c < B ->
                   key_accepted (mask m) (nth b lens 0) (e * B + c) = false.
Proof.
  intros HB Hmod Hlen Hsw.
  destruct (selected_row m S B (nth b lens 0) HB Hmod Hlen Hsw) as [keep [k [Hrow Hrej]]].
  exists keep. intros visited.
  assert (Hb : (b < length lens)%nat).
  { destruct (Nat.lt_ge_cases b (length lens)) as [H|H]; [exact H|].
    rewrite nth_overflow in Hlen by exact H. lia. }
  assert (Hr : 0 <= (nth b lens 0 - 1) / B < S / B).
  { split; [apply Z.div_pos; lia|]. apply Z.div_lt_upper_bound; [lia|].
    destruct (cdiv_exact S B HB Hmod) as [_ HS]. lia. }
  destruct (row_visited keep (S / B) ((nth b lens 0 - 1) / B) B (nth b lens 0) k
              HB Hr eq_refl) as [Hsize Hfirst].
  fold visited in Hsize, Hfirst. rewrite <- Hrow in Hsize, Hfirst.
  unfold kv_block_offset_tables. cbn [fst snd].
  assert (Hsel : nth b (select_rows (block_offsets m S B) lens B) []
                 = nth (Z.to_nat ((nth b lens 0 - 1) / B)) (block_offsets m S B) []).
  { now apply select_rows_nth. }
  assert (Hlsel : length (select_rows (block_offsets m S B) lens B) = length lens).
  { unfold select_rows. apply length_map. }
  split; [|split; [|exact Hrej]].
  - rewrite (nth_map2 _ _ _ b [] 0) by lia. now rewrite Hsel.
  - unfold kv_index_map. rewrite (nth_map_in _ _ b []) by lia. rewrite Hsel.
    rewrite map_nth_seq; [exact Hfirst|].
    pose proof (f_equal (@length Z) Hfirst) as Hl. rewrite length_firstn in Hl. lia.
Qed.

End TableFacts.

(** ** The kernel against the dense reference *)

Module EquivalenceFacts.
Import Builder Kernel Driver Reference Visited.
Import BuilderFacts DriverFacts NumFacts ScanFacts AccumulatorFacts MaskFacts TableFacts.
Import Samples.







Section Lane.
Variable cfg : Config.
Variable input_batch : InputBatch.
Variable mask_bias : MaskFnAttentionBias.
Variable bias_value : option BiasTensor.
Variable kv_seq_len : list Z.
Variable block_size : Z.
Hypothesis block_size_pos : 0 < block_size.

Let g := group_size input_batch.
Let bk := Z.to_nat block_size.

Lemma head_of_row (h i : nat) : (i < g)%nat -> ((h * g + i) / g)%nat = h.
Proof.
  intros Hi. rewrite Nat.div_add_l by lia. rewrite Nat.div_small by exact Hi. lia.
Qed.

(** The logit the kernel computes at column [c] of the block of scan step
    [j] is the reference logit at the absolute position of that column. *)
Lemma step_logits_ref (kv_block_offset : list (list Z)) (b h i j c : nat) :
  (i < g)%nat ->
  step_logits cfg (mask mask_bias) input_batch bias_value bk g kv_seq_len
    kv_block_offset b h j i c
  = ref_logit cfg input_batch mask_bias bias_value kv_seq_len b (h * g + i)
      (kv_index_map kv_block_offset b j * block_size + Z.of_nat c).
Proof.
  intros Hi. unfold step_logits, ref_logit, accepted.
  assert (Hbk : Z.of_nat bk = block_size) by (subst bk; lia).
  rewrite Hbk.
  set (e := kv_index_map kv_block_offset b j).
  destruct (key_accepted (mask mask_bias) (nth b kv_seq_len 0)
              (e * block_size + Z.of_nat c)) eqn:Hacc.
  - rewrite accepted_logit by exact Hacc.
    assert (Hqk : (dot (per_head_dim input_batch) (q_lane input_batch g b h)
                     (block_at bk (k_lane input_batch b h) e) i c
                   * softmax_scale cfg)%R
                  = scaled_qk cfg input_batch b (h * g + i) (e * block_size + Z.of_nat c)).
    { unfold scaled_qk, dot, q_lane, k_lane, block_at. fold g.
      rewrite head_of_row by exact Hi. rewrite Hbk. apply Rmult_comm. }
    rewrite Hqk. destruct bias_value as [bt|]; [|reflexivity].
    cbn [option_map]. f_equal. unfold xblock_at, lane_bias, bias_at. rewrite Hbk.
    destruct ((bias_shape0 bt =? 1)%nat && (bias_shape1 bt =? 1)%nat); reflexivity.
  - now rewrite rejected_logit by exact Hacc.
Qed.


End Lane.

Lemma list_max_upper (l : list Z) (x : Z) : In x l -> x <= list_max l.
Proof.
  destruct l as [|e l]; [intros []|]. unfold list_max. intros [<-|H].
  - apply fold_left_max_ge.
  - now apply fold_left_max_upper.
Qed.

(** With shapes that fit, positive sizes and at most 512 query rows per KV
    head nothing raises before the launch. *)
Lemma prepare_returns (cfg : Config) (ib : InputBatch)
  (m : MaskFnAttentionBias) (ev : option BiasTensor) (tp : list (list Z)) :
  bias ib = mkBias (Some m) ev ->
  target_positions m = Some tp ->
  q_seq_len ib = 1%nat ->
  shapes_fit ib tp ev ->
  (group_size ib <= 512)%nat ->
  0 < tpu_block_size cfg ->
  0 < k_seq_len ib ->
  let block_size := Z.min (tpu_block_size cfg) (k_seq_len ib) in
  let lens := kv_seq_len_of tp (batch_size ib) in
  let tables := kv_block_offset_tables m (k_seq_len ib) block_size lens in
  prepare cfg ib
  = Return (mkLaunch (mask m) ev (Z.to_nat block_size) (group_size ib) lens
              (fst tables) (snd tables)).
Proof.
  intros Hbias Htp Hq Hshape Hg Hcfg HS block_size lens tables.
  destruct Hshape as [Hrows [Hlen [Hbs [Hkv [Hhd [Hdiv Hbt]]]]]].
  unfold prepare, split. rewrite Hbias. cbn [mask_part explicit_value]. rewrite Htp.
  assert (Hnil : existsb (fun row : list Z => match row with [] => true | _ => false end) tp
                 = false).
  { destruct (existsb _ tp) eqn:He; [|reflexivity].
    apply existsb_exists in He. destruct He as [row [Hin Hrow]].
    destruct row; [|discriminate]. exfalso. now apply (Hrows []). }
  rewrite Hnil, Hq. cbn [Nat.eqb negb].
  assert (Hbc : ((length tp =? 1)%nat || (length tp =? batch_size ib)%nat) = true).
  { apply orb_true_iff. destruct Hlen as [H|H]; [left|right]; now apply Nat.eqb_eq. }
  rewrite Hbc. cbn [negb]. fold block_size lens.
  destruct (Z.eqb_spec block_size 0) as [H0|_]; [subst block_size; lia|].
  destruct (Z.ltb_spec block_size 0) as [H0|_]; [subst block_size; lia|].
  fold tables. destruct tables as [tbl sizes]. cbn [fst snd].
  destruct (Nat.eqb_spec (batch_size ib * num_kv_heads ib * per_head_dim ib) 0) as [H0|_];
    [nia|].
  rewrite (proj2 (Nat.eqb_eq _ _) Hdiv). cbn [negb]. fold (group_size ib).
  destruct (Nat.ltb_spec 512 (group_size ib)) as [H|_]; [lia|].
  assert (Hfit : match ev with
                 | Some bt =>
                     negb ((bias_shape0 bt =? 1)%nat && (bias_shape1 bt =? 1)%nat)
                     && negb (bias_reshape_fits bt (batch_size ib) (num_kv_heads ib)
                                (group_size ib) (k_seq_len ib))
                 | None => false
                 end = false).
  { destruct ev as [bt|]; [|reflexivity].
    destruct Hbt as [H2 [H3 [[H0 H1]|[H0 H1]]]].
    - rewrite H0, H1. reflexivity.
    - apply andb_false_iff. right. apply negb_false_iff.
      unfold bias_reshape_fits. apply Z.eqb_eq. rewrite H0, H1, H2, <- H3.
      assert (Hnh : num_heads ib = (num_kv_heads ib * group_size ib)%nat).
      { unfold group_size. apply Nat.Div0.div_exact. exact Hdiv. }
      rewrite Hnh. rewrite !Nat2Z.inj_mul. ring. }
  rewrite Hfit. reflexivity.
Qed.

(** What [__call__] returns then. *)
Lemma call_returns (cfg : Config) (dev : Device) (ib : InputBatch)
  (m : MaskFnAttentionBias) (ev : option BiasTensor) (tp : list (list Z)) :
  bias ib = mkBias (Some m) ev ->
  target_positions m = Some tp ->
  q_seq_len ib = 1%nat ->
  shapes_fit ib tp ev ->
  (group_size ib <= 512)%nat ->
  0 < tpu_block_size cfg ->
  0 < k_seq_len ib ->
  let block_size := Z.min (tpu_block_size cfg) (k_seq_len ib) in
  let lens := kv_seq_len_of tp (batch_size ib) in
  let tables := kv_block_offset_tables m (k_seq_len ib) block_size lens in
  call cfg dev ib
  = mkOutcome 1
      (Return (fun b _ n d =>
         o_ref (run_lane cfg (mask m) ib ev (Z.to_nat block_size) (group_size ib) lens
                  (fst tables) (snd tables) b (n / group_size ib)
                  (Z.to_nat (list_max (snd tables)))
                  (mkBuffers (vmem dev b (n / group_size ib)%nat)
                             (out_init dev b (n / group_size ib)%nat) []))
           (n mod group_size ib)%nat d)).
Proof.
  intros Hbias Htp Hq Hshape Hg Hcfg HS block_size lens tables.
  unfold call.
  rewrite (prepare_returns cfg ib m ev tp Hbias Htp Hq Hshape Hg Hcfg HS).
  reflexivity.
Qed.

(** With the length check of [is_supported] passed, the block size of
    [__call__] divides the padded key sequence length. *)
Lemma call_block_size_divides (cfg : Config) (ib : InputBatch) :
  0 < tpu_block_size cfg -> 0 < k_seq_len ib ->
  ~ own_checks_reject cfg ib (Some KVCache) ->
  let block_size := Z.min (tpu_block_size cfg) (k_seq_len ib) in
  0 < block_size /\ k_seq_len ib mod block_size = 0.
Proof.
  intros Hcfg HS Hsup block_size. split; [subst block_size; lia|].
  subst block_size. destruct (Z_le_gt_dec (k_seq_len ib) (tpu_block_size cfg)) as [Hle|Hgt].
  - rewrite Z.min_r by exact Hle. apply Z_mod_same_full.
  - rewrite Z.min_l by lia.
    destruct (Z.eq_dec (k_seq_len ib mod tpu_block_size cfg) 0) as [H0|H0]; [exact H0|].
    exfalso. apply Hsup. right. split; assumption.
Qed.


End EquivalenceFacts.

(** ** Stability of the accumulator *)

Module StabilityFacts.
Import Builder Kernel Driver Visited NumFacts ScanFacts AccumulatorFacts Samples.

(** [exp] of a difference that is not above zero lies in [0, 1]. *)
Lemma xexp_sub_unit (a b : xreal) : xle a b -> (0 <= xexp (xsub a b) <= 1)%R.
Proof.
  intros H. split; [apply xexp_nonneg|].
  destruct a as [|x], b as [|y]; cbn [xle xsub xexp] in *.
  - rewrite exp_0. lra.
  - lra.
  - contradiction.
  - destruct (Rle_lt_or_eq_dec _ _ H) as [Hlt|Heq].
    + rewrite <- exp_0. left. apply exp_increasing. lra.
    + rewrite Heq, Rminus_diag, exp_0. lra.
Qed.

Lemma Rsum_le {A : Type} (f g : A -> R) (l : list A) :
  (forall x, In x l -> f x <= g x)%R -> (Rsum (map f l) <= Rsum (map g l))%R.
Proof.
  induction l as [|a l IH]; intros H; [unfold Rsum; simpl; lra|].
  cbn [map]. rewrite !Rsum_cons.
  pose proof (H a (or_introl eq_refl)).
  assert (Rsum (map f l) <= Rsum (map g l))%R by (apply IH; intros x Hx; apply H; now right).
  lra.
Qed.

Lemma Rsum_ge_term {A : Type} (f : A -> R) (l : list A) (a : A) :
  (forall x, In x l -> 0 <= f x)%R -> In a l -> (f a <= Rsum (map f l))%R.
Proof.
  induction l as [|b l IH]; intros H Ha; [contradiction|].
  cbn [map]. rewrite Rsum_cons.
  assert (Hrest : (0 <= Rsum (map f l))%R)
    by (apply Rsum_nonneg; intros x Hx; apply H; now right).
  pose proof (H b (or_introl eq_refl)) as Hb.
  destruct Ha as [->|Ha]; [lra|].
  assert (f a <= Rsum (map f l))%R; [|lra].
  apply IH; [|exact Ha]. intros x Hx. apply H. now right.
Qed.

(** The maximum of a non-empty list of logits is one of them. *)
Lemma xmax_list_attained (l : list xreal) : l <> [] -> In (xmax_list l) l.
Proof.
  induction l as [|a l IH]; [congruence|]. intros _.
  destruct l as [|b l].
  - left. unfold xmax_list. simpl. now rewrite xmax_NEG_INF_r.
  - assert (Hin : In (xmax_list (b :: l)) (b :: l)) by (apply IH; congruence).
    change (xmax_list (a :: b :: l)) with (xmax a (xmax_list (b :: l))).
    destruct a as [|x], (xmax_list (b :: l)) as [|y] eqn:Hm; simpl.
    + now left.
    + right. exact Hin.
    + now left.
    + unfold Rmax. destruct (Rle_dec x y); [right; exact Hin|now left].
Qed.

Lemma weight_unit (ts : list term) (t : term) :
  In t ts -> (0 <= weight ts t <= 1)%R.
Proof. intros H. apply xexp_sub_unit. now apply xle_terms_max. Qed.

(** Some term carries the running maximum, hence weight 1. *)
Lemma weight_one (ts : list term) : ts <> [] -> exists t, In t ts /\ weight ts t = 1%R.
Proof.
  intros Hne.
  assert (Hin : In (terms_max ts) (map fst ts)).
  { apply xmax_list_attained. destruct ts; [congruence|discriminate]. }
  apply in_map_iff in Hin. destruct Hin as [t [Ht Hin]].
  exists t. split; [exact Hin|]. unfold weight. rewrite Ht. apply xexp_sub_self.
Qed.

Lemma normalizer_ge_1 (ts : list term) : ts <> [] -> (1 <= Rsum (map (weight ts) ts))%R.
Proof.
  intros Hne. destruct (weight_one ts Hne) as [t [Hin Hw]]. rewrite <- Hw.
  apply Rsum_ge_term; [|exact Hin]. intros x Hx. now apply weight_unit.
Qed.

(** A softmax-weighted average lies between bounds of the values. *)
Lemma softmax_average_bounds (ts : list term) (d : nat) (lo hi : R) :
  ts <> [] ->
  (forall t, In t ts -> lo <= snd t d <= hi)%R ->
  (lo <= softmax_average ts d <= hi)%R.
Proof.
  intros Hne Hv.
  pose proof (normalizer_ge_1 ts Hne) as HL.
  set (L := Rsum (map (weight ts) ts)) in *.
  assert (Havg : softmax_average ts d
                 = (Rsum (map (fun t => weight ts t * snd t d) ts) / L)%R).
  { unfold softmax_average, softmax_of, Rdiv. fold L. rewrite Rsum_scale_r.
    apply Rsum_ext. intros t _. lra. }
  assert (Hlo : (lo * L <= Rsum (map (fun t => weight ts t * snd t d) ts))%R).
  { subst L. rewrite Rsum_scale. apply Rsum_le. intros t Ht.
    pose proof (weight_unit ts t Ht). pose proof (Hv t Ht). nra. }
  assert (Hhi : (Rsum (map (fun t => weight ts t * snd t d) ts) <= hi * L)%R).
  { subst L. rewrite Rsum_scale. apply Rsum_le. intros t Ht.
    pose proof (weight_unit ts t Ht). pose proof (Hv t Ht). nra. }
  assert (Hinv : (0 < / L)%R) by (apply Rinv_0_lt_compat; lra).
  assert (HiL : (L * / L = 1)%R) by (apply Rinv_r; lra).
  rewrite Havg. unfold Rdiv. split.
  - replace lo with (lo * L * / L)%R by (rewrite Rmult_assoc, HiL; lra).
    apply Rmult_le_compat_r; lra.
  - replace hi with (hi * L * / L)%R by (rewrite Rmult_assoc, HiL; lra).
    apply Rmult_le_compat_r; lra.
Qed.

(** Every [exp] of the update is taken at an exponent that is not above
    zero: [m_next] is at least [m_prev], and the rescaling factor
    [exp(m_prev - m_next)] and every weight [exp(qk - m_next)] of the block
    lie between 0 and 1, whatever the scratch held and whatever the logits
    are. *)
Theorem update_factors_in_unit_interval (bk : nat) (qk : nat -> nat -> xreal)
  (v : Tensor2) (s : Scratch) (i c : nat) :
  (c < bk)%nat ->
  let s' := update bk qk v s in
  xle (m_i s i) (m_i s' i)
  /\ (0 <= xexp (xsub (m_i s i) (m_i s' i)) <= 1)%R
  /\ (0 <= s_curr bk qk s i c <= 1)%R.
Proof.
  intros Hc s'.
  destruct (update_exponents_not_above bk qk s i c Hc) as [Hm Hq].
  split; [exact Hm|]. split; apply xexp_sub_unit; assumption.
Qed.

Lemma update_factors_in_unit_interval_witness :
  let qk := fun (_ _ : nat) => Fin 3 in
  let s := mkScratch (fun _ => Fin 1) (fun _ => 1%R) (fun _ _ => 0%R) in
  (0 < 2)%nat
  /\ (0 <= s_curr 2 qk s 0 0 <= 1)%R.
Proof.
  intros qk s. split; [lia|].
  apply (update_factors_in_unit_interval 2 qk (fun _ _ => 0%R) s 0 0). lia.
Defined.

(** Two updates commute: visiting two blocks in either order leaves the
    same running maximum, the same [l] and the same [o]. *)
Theorem update_commutes (bk : nat) (qk1 qk2 : nat -> nat -> xreal) (v1 v2 : Tensor2)
  (s : Scratch) (i d : nat) :
  let s12 := update bk qk2 v2 (update bk qk1 v1 s) in
  let s21 := update bk qk1 v1 (update bk qk2 v2 s) in
  m_i s12 i = m_i s21 i
  /\ l_i s12 i = l_i s21 i
  /\ o_scratch s12 i d = o_scratch s21 i d.
Proof.
  intros s12 s21.
  set (m := m_i s i). set (M1 := max_n (qk1 i) bk). set (M2 := max_n (qk2 i) bk).
  set (mm := xmax (xmax m M1) M2).
  assert (Hmm : xmax (xmax m M2) M1 = mm).
  { subst mm. now rewrite <- !xmax_assoc, (xmax_comm M2 M1). }
  assert (H1 : xle (xmax m M1) mm) by apply xle_xmax_l.
  assert (H2 : xle (xmax m M2) mm) by (rewrite <- Hmm; apply xle_xmax_l).
  assert (Hq1 : forall c, In c (seq 0 bk) -> xle (qk1 i c) (xmax m M1)).
  { intros c Hc. apply in_seq in Hc.
    apply (update_exponents_not_above bk qk1 s i c). lia. }
  assert (Hq2 : forall c, In c (seq 0 bk) -> xle (qk2 i c) (xmax m M2)).
  { intros c Hc. apply in_seq in Hc.
    apply (update_exponents_not_above bk qk2 s i c). lia. }
  assert (Hc1 : (xexp (xsub (xmax m M1) mm) * xexp (xsub m (xmax m M1)))%R
                = xexp (xsub m mm)) by (apply xexp_rescale; [apply xle_xmax_l|exact H1]).
  assert (Hc2 : (xexp (xsub (xmax m M2) mm) * xexp (xsub m (xmax m M2)))%R
                = xexp (xsub m mm)) by (apply xexp_rescale; [apply xle_xmax_l|exact H2]).
  assert (Hs1 : forall f : nat -> R,
            (xexp (xsub (xmax m M1) mm)
             * sum_n (fun c => xexp (xsub (qk1 i c) (xmax m M1)) * f c) bk)%R
            = sum_n (fun c => xexp (xsub (qk1 i c) mm) * f c)%R bk).
  { intros f. unfold sum_n. rewrite Rsum_scale. apply Rsum_ext. intros c Hc.
    rewrite <- (xexp_rescale (qk1 i c) (xmax m M1) mm (Hq1 c Hc) H1). lra. }
  assert (Hs2 : forall f : nat -> R,
            (xexp (xsub (xmax m M2) mm)
             * sum_n (fun c => xexp (xsub (qk2 i c) (xmax m M2)) * f c) bk)%R
            = sum_n (fun c => xexp (xsub (qk2 i c) mm) * f c)%R bk).
  { intros f. unfold sum_n. rewrite Rsum_scale. apply Rsum_ext. intros c Hc.
    rewrite <- (xexp_rescale (qk2 i c) (xmax m M2) mm (Hq2 c Hc) H2). lra. }
  assert (Hone : forall (g : nat -> R), sum_n g bk = sum_n (fun c => g c * 1)%R bk).
  { intros g. unfold sum_n. apply Rsum_ext. intros c _. lra. }
  subst s12 s21. unfold update. cbn [m_i l_i o_scratch].
  fold m M1 M2. fold mm. rewrite Hmm.
  split; [reflexivity|]. split.
  - rewrite (Hone (fun c => xexp (xsub (qk1 i c) (xmax m M1)))),
      (Hone (fun c => xexp (xsub (qk2 i c) (xmax m M2)))).
    rewrite !Rmult_plus_distr_l, <- !Rmult_assoc, Hc1, Hc2, Hs1, Hs2.
    rewrite (Hone (fun c => xexp (xsub (qk1 i c) mm))),
      (Hone (fun c => xexp (xsub (qk2 i c) mm))). lra.
  - rewrite !Rmult_plus_distr_l, <- !Rmult_assoc, Hc1, Hc2, Hs1, Hs2. lra.
Qed.

Section Lane.
Variable cfg : Config.
Variable mask_fn : option MaskFn.
Variable input_batch : InputBatch.
Variable bias_value : option BiasTensor.
Variable block_kv : nat.
Variable q_seq_head : nat.
Variable kv_seq_len : list Z.
Variable kv_block_offset : list (list Z).
Variable kv_block_offset_size : list Z.
Variable b h : nat.

Lemma lane_terms_nonempty (i t : nat) :
  (0 < block_kv)%nat ->
  lane_terms cfg mask_fn input_batch bias_value block_kv q_seq_head kv_seq_len
    kv_block_offset b h i (S t) <> [].
Proof.
  intros Hb. rewrite lane_terms_S. unfold block_terms.
  destruct block_kv as [|k]; [lia|]. cbn [seq map].
  intros H. apply app_eq_nil in H. destruct H as [_ H]. discriminate.
Qed.

(** A lane starts from the initial accumulator whatever the scratch buffers
    held: a scan of at least one step gives the same buffers from any two
    scratch contents. *)
Lemma run_lane_resets_scratch (steps : nat) (s1 s2 : Scratch)
  (o : Tensor2) (log : list nat) :
  (1 <= steps)%nat ->
  run_lane cfg mask_fn input_batch bias_value block_kv q_seq_head kv_seq_len
    kv_block_offset kv_block_offset_size b h steps (mkBuffers s1 o log)
  = run_lane cfg mask_fn input_batch bias_value block_kv q_seq_head kv_seq_len
      kv_block_offset kv_block_offset_size b h steps (mkBuffers s2 o log).
Proof.
  intros Hs. destruct steps as [|k]; [lia|].
  unfold run_lane. cbn [seq fold_left]. reflexivity.
Qed.

(** In exact arithmetic the normalizer [l] is at least 1 after every update
    on a block of at least one column. *)
Lemma exact_normalizer_at_least_one (t : nat) (bufs : Buffers) (i : nat) :
  Z.of_nat t < nth b kv_block_offset_size 0 ->
  (0 < block_kv)%nat ->
  (1 <= l_i (scratch (run_lane cfg mask_fn input_batch bias_value block_kv q_seq_head
                        kv_seq_len kv_block_offset kv_block_offset_size b h (S t) bufs))
          i)%R.
Proof.
  intros Ht Hb.
  destruct (run_accumulates cfg mask_fn input_batch bias_value block_kv q_seq_head
              kv_seq_len kv_block_offset kv_block_offset_size b h t bufs i Ht)
    as [_ [_ [Hl _]]].
  rewrite Hl. apply normalizer_ge_1. now apply lane_terms_nonempty.
Qed.

(** In exact arithmetic the output of a lane is a weighted mean of the
    value entries it has read. *)
Lemma exact_lane_output_within_values (steps : nat) (bufs : Buffers) (i d : nat)
  (lo hi : R) :
  1 <= nth b kv_block_offset_size 0 ->
  nth b kv_block_offset_size 0 <= Z.of_nat steps ->
  (0 < block_kv)%nat ->
  (forall j c : nat,
     Z.of_nat j < nth b kv_block_offset_size 0 -> (c < block_kv)%nat ->
     (lo <= value input_batch b
              (kv_index_map kv_block_offset b j * Z.of_nat block_kv + Z.of_nat c) h d
      <= hi)%R) ->
  (lo <= o_ref (run_lane cfg mask_fn input_batch bias_value block_kv q_seq_head
                  kv_seq_len kv_block_offset kv_block_offset_size b h steps bufs) i d
   <= hi)%R.
Proof.
  intros Hn Hs Hb Hv.
  rewrite (lane_output cfg mask_fn input_batch bias_value block_kv q_seq_head
             kv_seq_len kv_block_offset kv_block_offset_size b h steps bufs i d Hn Hs).
  replace (Z.to_nat (nth b kv_block_offset_size 0))
    with (S (Z.to_nat (nth b kv_block_offset_size 0 - 1))) by lia.
  apply softmax_average_bounds; [now apply lane_terms_nonempty|].
  intros t Ht. unfold lane_terms in Ht. apply in_flat_map in Ht.
  destruct Ht as [j [Hj Ht]]. unfold block_terms in Ht.
  apply in_map_iff in Ht. destruct Ht as [c [<- Hc]]. cbn [snd].
  apply in_seq in Hj, Hc.
  unfold step_values, block_at, v_lane. apply Hv; lia.
Qed.
End Lane.

(** What the scratch buffers hold when the kernel is launched never reaches
    the caller: [init] overwrites them at the first scan step of every lane,
    and a grid without scan steps does not read them.  Two devices that
    differ in their scratch memory only give the same launches, the same
    exception or the same output. *)
Theorem call_ignores_stale_scratch (cfg : Config) (input_batch : InputBatch)
  (vmem1 vmem2 : nat -> nat -> Scratch) (out0 : nat -> nat -> Tensor2) :
  let outcome1 := call cfg (mkDevice vmem1 out0) input_batch in
  let outcome2 := call cfg (mkDevice vmem2 out0) input_batch in
  launches outcome1 = launches outcome2
  /\ match returned outcome1, returned outcome2 with
     | Return out1, Return out2 => forall b s n d : nat, out1 b s n d = out2 b s n d
     | Raise e1, Raise e2 => e1 = e2
     | _, _ => False
     end.
Proof.
  intros outcome1 outcome2. subst outcome1 outcome2. unfold call.
  destruct (prepare cfg input_batch) as [e|args]; [split; reflexivity|].
  cbn [launches returned vmem out_init]. split; [reflexivity|].
  intros b s n d.
  destruct (Z.to_nat (list_max (launch_kv_block_offset_size args))) as [|k] eqn:Hsteps.
  - reflexivity.
  - now rewrite (run_lane_resets_scratch cfg (launch_mask_fn args) input_batch
                   (launch_bias args) (launch_block_kv args) (launch_q_seq_head args)
                   (launch_kv_seq_len args) (launch_kv_block_offset args)
                   (launch_kv_block_offset_size args) b (n / launch_q_seq_head args)
                   (S k) (vmem1 b (n / launch_q_seq_head args)%nat)
                   (vmem2 b (n / launch_q_seq_head args)%nat))
      by lia.
Qed.

End StabilityFacts.

(** ** More on the block offset tables and on the call *)

Module DriverExtras.
Import Builder Kernel Driver BuilderFacts DriverFacts ScanFacts TableFacts.
Import EquivalenceFacts Samples.

(** The remap of lines 238-240 on a row that lists at least one block: the
    row keeps its length, every listed block index stays in place, every
    sentinel becomes the largest index of the row, and no sentinel is left. *)
Theorem remap_on_listed_row (row : list Z) (j : nat) :
  (forall x, In x row -> padding <= x) ->
  (exists x, In x row /\ x <> padding) ->
  (j < length row)%nat ->
  let remapped := replace_padding row in
  length remapped = length row
  /\ (nth j row 0 <> padding -> nth j remapped 0 = nth j row 0)
  /\ (nth j row 0 = padding -> nth j remapped 0 = row_max row)
  /\ nth j remapped 0 <> padding
  /\ In (nth j remapped 0) row.
Proof.
  intros Hlow Hex Hj remapped.
  assert (Hnth : nth j remapped 0
                 = if nth j row 0 =? padding then row_max row else nth j row 0).
  { subst remapped. unfold replace_padding.
    now rewrite (nth_map_in _ row j 0 0) by exact Hj. }
  assert (Hin : In (nth j remapped 0) remapped).
  { apply nth_In. subst remapped. unfold replace_padding. now rewrite length_map. }
  destruct (replace_padding_valid row _ Hlow Hex Hin) as [Hne Hrow].
  split; [subst remapped; unfold replace_padding; apply length_map|].
  split; [|split; [|split; assumption]].
  - intros H. rewrite Hnth. destruct (Z.eqb_spec (nth j row 0) padding); [contradiction|].
    reflexivity.
  - intros H. rewrite Hnth, H, Z.eqb_refl. reflexivity.
Qed.

Lemma remap_on_listed_row_witness :
  let row := [0; 2; -1; -1] in
  let remapped := replace_padding row in
  ((forall x, In x row -> padding <= x) /\ (2 < length row)%nat)
  /\ nth 2 remapped 0 = row_max row
  /\ nth 2 remapped 0 <> padding.
Proof.
  intros row remapped.
  assert (Hlow : forall x, In x row -> padding <= x).
  { intros x Hx. unfold padding. simpl in Hx. lia. }
  split; [split; [exact Hlow|simpl; lia]|].
  destruct (remap_on_listed_row row 2 Hlow) as [_ [_ [H1 [H2 _]]]].
  - exists 0. split; [now left|unfold padding; lia].
  - simpl. lia.
  - split; [apply H1; reflexivity|exact H2].
Defined.

Lemma cdiv_as_floor (len B : Z) : 0 < B -> cdiv len B = (len - 1) / B + 1.
Proof.
  intros HB. unfold cdiv. replace (len + B - 1) with (len - 1 + 1 * B) by lia.
  now rewrite Z.div_add by lia.
Qed.

(** Without a mask function (lines 223-227) the table row of every batch
    element lists all key blocks in order; the lane counts
    [cdiv(kv_seq_len, block_size)] valid blocks, those that start below the
    true KV length. *)
Theorem no_mask_visits_leading_blocks (m : MaskFnAttentionBias) (S B : Z)
  (lens : list Z) (b : nat) :
  mask m = None ->
  0 < B ->
  1 <= nth b lens 0 <= S ->
  let tables := kv_block_offset_tables m S B lens in
  nth b (snd tables) 0 = cdiv (nth b lens 0) B
  /\ forall j : nat, Z.of_nat j < cdiv S B ->
       kv_index_map (fst tables) b j = Z.of_nat j.
Proof.
  intros Hmask HB Hlen tables.
  set (len := nth b lens 0) in *. set (P := cdiv S B). set (r := (len - 1) / B).
  assert (Hb : (b < length lens)%nat).
  { destruct (Nat.lt_ge_cases b (length lens)) as [H|H]; [exact H|].
    subst len. rewrite nth_overflow in Hlen by exact H. lia. }
  assert (Hr : 0 <= r < P).
  { subst r P. rewrite (cdiv_as_floor S B HB).
    split; [apply Z.div_pos; lia|].
    assert ((len - 1) / B <= (S - 1) / B) by (apply Z.div_le_mono; lia). lia. }
  assert (Hrow : nth b (select_rows (block_offsets m S B) lens B) [] = zrange 0 P).
  { rewrite select_rows_nth by assumption.
    unfold block_offsets. rewrite Hmask. unfold iota_table. fold len r P.
    now rewrite nth_map_zrange by exact Hr. }
  assert (Hlsel : length (select_rows (block_offsets m S B) lens B) = length lens).
  { unfold select_rows. apply length_map. }
  assert (Hall : filter (fun _ : Z => true) (zrange 0 P) ++ repeat padding 0 = zrange 0 P).
  { cbn [repeat]. rewrite app_nil_r. apply filter_all. reflexivity. }
  destruct (row_visited (fun _ => true) P r B len 0 HB Hr eq_refl) as [Hsize _].
  rewrite Hall in Hsize.
  subst tables. unfold kv_block_offset_tables. cbn [fst snd]. split.
  - rewrite (nth_map2 _ _ _ b [] 0) by lia. rewrite Hrow. fold len. rewrite Hsize.
    rewrite filter_all by reflexivity. rewrite length_zrange.
    rewrite (cdiv_as_floor len B HB). fold r. lia.
  - intros j Hj. unfold kv_index_map.
    rewrite (nth_map_in _ _ b []) by lia. rewrite Hrow.
    assert (Hid : replace_padding (zrange 0 P) = zrange 0 P).
    { unfold replace_padding. rewrite <- (map_id (zrange 0 P)) at 2.
      apply map_ext_in. intros e He. apply In_zrange in He.
      destruct (Z.eqb_spec e padding) as [Hp|_]; [unfold padding in Hp; lia|reflexivity]. }
    rewrite Hid. rewrite <- (Nat2Z.id j) at 1. apply nth_zrange. fold P in Hj. lia.
Qed.

Lemma no_mask_visits_leading_blocks_witness :
  let m := mkMaskBias None (Some [[4]; [0]]) None in
  let tables := kv_block_offset_tables m 8 2 [5; 1] in
  (0 < 2 /\ 1 <= nth 0%nat [5; 1] 0 <= 8)
  /\ nth 0%nat (snd tables) 0 = cdiv 5 2
  /\ kv_index_map (fst tables) 0 3 = 3.
Proof.
  intros m tables. split; [simpl; lia|].
  destruct (no_mask_visits_leading_blocks m 8 2 [5; 1] 0 eq_refl ltac:(lia)
              ltac:(simpl; lia)) as [H1 H2].
  split; [exact H1|]. apply (H2 3%nat). vm_compute. reflexivity.
Defined.

(** Increasing lists. *)
Lemma zrange_sorted (lo hi : Z) : StronglySorted Z.lt (zrange lo hi).
Proof.
  remember (Z.to_nat (hi - lo)) as n eqn:Hn.
  revert lo Hn. induction n as [|n IH]; intros lo Hn.
  - rewrite zrange_nil by lia. constructor.
  - rewrite zrange_cons by lia. constructor; [apply IH; lia|].
    apply Forall_forall. intros x Hx. apply In_zrange in Hx. lia.
Qed.

Lemma filter_sorted (keep : Z -> bool) (l : list Z) :
  StronglySorted Z.lt l -> StronglySorted Z.lt (filter keep l).
Proof.
  induction 1 as [|a l Hs IH Hall]; [constructor|].
  cbn [filter]. destruct (keep a); [|exact IH].
  constructor; [exact IH|]. apply Forall_forall. intros x Hx.
  apply filter_In in Hx. destruct Hx as [Hx _].
  rewrite Forall_forall in Hall. now apply Hall.
Qed.

Lemma sorted_nth (l : list Z) (j1 j2 : nat) :
  StronglySorted Z.lt l -> (j1 < j2 < length l)%nat -> nth j1 l 0 < nth j2 l 0.
Proof.
  intros Hs. revert j1 j2. induction Hs as [|a l Hs IH Hall]; intros j1 j2 Hj.
  - simpl in Hj. lia.
  - destruct j2 as [|j2]; [lia|]. simpl in Hj. destruct j1 as [|j1]; cbn [nth].
    + rewrite Forall_forall in Hall. apply Hall. apply nth_In. lia.
    + apply IH. lia.
Qed.

(** Every block a lane computes on is a real block that starts below the
    true KV length of its batch element, and the lane meets its blocks in
    increasing order, none twice. *)
Theorem valid_steps_read_real_blocks (m : MaskFnAttentionBias) (S B : Z)
  (lens : list Z) (b j : nat) :
  0 < B -> S mod B = 0 -> 1 <= nth b lens 0 <= S ->
  (forall f w, mask m = Some f -> sliding_window_size m = Some w ->
               0 <= w /\ forall q k, f q k = sliding_window_causal_mask w q k) ->
  let tables := kv_block_offset_tables m S B lens in
  Z.of_nat j < nth b (snd tables) 0 ->
  (0 <= kv_index_map (fst tables) b j
   /\ kv_index_map (fst tables) b j * B < nth b lens 0
   /\ (kv_index_map (fst tables) b j + 1) * B <= S)
  /\ forall j' : nat, (j < j')%nat -> Z.of_nat j' < nth b (snd tables) 0 ->
       kv_index_map (fst tables) b j < kv_index_map (fst tables) b j'.
Proof.
  intros HB Hmod Hlen Hsw tables Hj.
  destruct (driver_visited m S B lens b HB Hmod Hlen Hsw) as [keep Hdrv].
  cbv zeta in Hdrv. fold tables in Hdrv. destruct Hdrv as [Hn [Hvis _]].
  set (len := nth b lens 0) in *. set (r := (len - 1) / B) in *.
  set (visited := filter keep (zrange 0 (r + 1))) in *.
  assert (Hat : forall i : nat, (i < length visited)%nat ->
                  kv_index_map (fst tables) b i = nth i visited 0).
  { intros i Hi. rewrite <- Hvis.
    rewrite (nth_map_in _ (seq 0 (length visited)) i 0%nat 0)
      by (now rewrite length_seq).
    now rewrite seq_nth. }
  assert (Hsorted : StronglySorted Z.lt visited)
    by (apply filter_sorted, zrange_sorted).
  assert (Hrdiv : B * r <= len - 1).
  { subst r. apply Z.mul_div_le. exact HB. }
  destruct (cdiv_exact S B HB Hmod) as [_ HS].
  assert (Hrlt : r < S / B).
  { subst r. apply Z.div_lt_upper_bound; [lia|]. lia. }
  split.
  - rewrite Hat by lia.
    assert (Hin : In (nth j visited 0) visited) by (apply nth_In; lia).
    apply filter_In in Hin. destruct Hin as [Hin _]. apply In_zrange in Hin.
    split; [lia|]. split; nia.
  - intros j' Hjj Hj'. rewrite !Hat by lia. apply sorted_nth; [exact Hsorted|lia].
Qed.

Lemma valid_steps_read_real_blocks_witness :
  let tables := kv_block_offset_tables window_bias 4 2 [4] in
  (0 < 2 /\ 4 mod 2 = 0 /\ Z.of_nat 0 < nth 0%nat (snd tables) 0)
  /\ 0 <= kv_index_map (fst tables) 0 0
  /\ kv_index_map (fst tables) 0 0 * 2 < 4.
Proof.
  intros tables. split; [vm_compute; repeat split; reflexivity|].
  destruct (valid_steps_read_real_blocks window_bias 4 2 [4] 0 0) as [[H1 [H2 _]] _].
  - lia.
  - reflexivity.
  - simpl. lia.
  - intros f w Hf Hw. injection Hf as <-. injection Hw as <-. split; [lia|reflexivity].
  - vm_compute. reflexivity.
  - split; [exact H1|exact H2].
Defined.

Lemma list_max_In (l : list Z) : l <> [] -> In (list_max l) l.
Proof.
  destruct l as [|e l]; [congruence|]. intros _. unfold list_max.
  destruct (fold_left_max_In l e) as [->|H]; [now left|now right].
Qed.

(** The scan dimension of the grid (line 293) is the valid block count of
    some lane, and it is enough for every lane: a lane with at least one
    valid block stores its output exactly once within it. *)
Theorem grid_scan_fits_every_lane (cfg : Config) (mask_fn : option MaskFn)
  (ib : InputBatch) (ev : option BiasTensor) (block_kv q_seq_head : nat)
  (lens : list Z) (tbl : list (list Z)) (sizes : list Z) (b h : nat)
  (s : Scratch) (o : Tensor2) :
  1 <= nth b sizes 0 ->
  let steps := Z.to_nat (list_max sizes) in
  In (list_max sizes) sizes
  /\ nth b sizes 0 <= Z.of_nat steps
  /\ stores (run_lane cfg mask_fn ib ev block_kv q_seq_head lens tbl sizes b h steps
               (mkBuffers s o []))
     = [Z.to_nat (nth b sizes 0 - 1)].
Proof.
  intros Hn steps.
  assert (Hb : (b < length sizes)%nat).
  { destruct (Nat.lt_ge_cases b (length sizes)) as [H|H]; [exact H|].
    rewrite nth_overflow in Hn by exact H. lia. }
  assert (Hle : nth b sizes 0 <= Z.of_nat steps).
  { pose proof (list_max_upper sizes _ (nth_In sizes 0 Hb)). subst steps. lia. }
  split; [|split; [exact Hle|]].
  - apply list_max_In. intros ->. simpl in Hb. lia.
  - apply (run_stores_once cfg mask_fn ib ev block_kv q_seq_head lens tbl sizes b h steps
             (mkBuffers s o []) Hn Hle).
Qed.

Lemma grid_scan_fits_every_lane_witness :
  1 <= nth 0%nat [1; 0] 0
  /\ stores (run_lane cfg2 (Some prefix_only_mask) prefix_batch None 2 1 [1; 3]
               [[0; 0]; [-1; -1]] [1; 0] 0 0 (Z.to_nat (list_max [1; 0]))
               (mkBuffers (vmem device0 0 0) (out_init device0 0 0) []))
     = [Z.to_nat (nth 0%nat [1; 0] 0 - 1)].
Proof.
  split; [simpl; lia|].
  apply (grid_scan_fits_every_lane cfg2 (Some prefix_only_mask) prefix_batch None 2 1
           [1; 3] [[0; 0]; [-1; -1]] [1; 0] 0 0). simpl. lia.
Defined.

(** What [prepare] has checked when it returns. *)
Lemma prepare_checked (cfg : Config) (ib : InputBatch) (args : Launch) :
  prepare cfg ib = Return args ->
  (exists m tp,
     mask_part (bias ib) = Some m /\ target_positions m = Some tp
     /\ (forall row, In row tp -> row <> [])
     /\ (length tp = 1%nat \/ length tp = batch_size ib))
  /\ q_seq_len ib = 1%nat
  /\ 0 < Z.min (tpu_block_size cfg) (k_seq_len ib)
  /\ (0 < batch_size ib * num_kv_heads ib * per_head_dim ib)%nat
  /\ (num_heads ib mod num_kv_heads ib = 0)%nat
  /\ (num_heads ib / num_kv_heads ib <= 512)%nat.
Proof.
  unfold prepare, split.
  destruct (mask_part (bias ib)) as [m|] eqn:Hm; [|discriminate].
  destruct (target_positions m) as [tp|] eqn:Htp; [|discriminate].
  destruct (existsb _ tp) eqn:Hrows; [discriminate|].
  destruct (Nat.eqb_spec (q_seq_len ib) 1) as [Hq|Hq]; cbn [negb]; [|discriminate].
  destruct ((length tp =? 1)%nat || (length tp =? batch_size ib)%nat) eqn:Hlen;
    cbn [negb]; [|discriminate].
  destruct (Z.eqb_spec (Z.min (tpu_block_size cfg) (k_seq_len ib)) 0) as [H0|H0];
    [discriminate|].
  destruct (Z.ltb_spec (Z.min (tpu_block_size cfg) (k_seq_len ib)) 0) as [H1|H1];
    [discriminate|].
  destruct (kv_block_offset_tables m (k_seq_len ib)
              (Z.min (tpu_block_size cfg) (k_seq_len ib))
              (kv_seq_len_of tp (batch_size ib))) as [tbl sizes].
  destruct (Nat.eqb_spec (batch_size ib * num_kv_heads ib * per_head_dim ib) 0)
    as [Hz|Hz]; [discriminate|].
  destruct (Nat.eqb_spec (num_heads ib mod num_kv_heads ib) 0) as [Hd|Hd]; cbn [negb];
    [|discriminate].
  destruct (Nat.ltb_spec 512 (num_heads ib / num_kv_heads ib)) as [Hr|Hr];
    [discriminate|].
  intros _.
  split.
  { exists m, tp. split; [reflexivity|]. split; [exact Htp|]. split.
    - intros row Hin ->.
      assert (existsb (fun row : list Z => match row with [] => true | _ => false end) tp
              = true) by (apply existsb_exists; exists []; now split).
      congruence.
    - apply orb_true_iff in Hlen. destruct Hlen as [H|H]; [left|right];
        now apply Nat.eqb_eq. }
  repeat split; try assumption; lia.
Qed.

(** What [__call__] has checked when it returns, and what it has not done
    when it raises: a call that returns had a mask part with target
    positions of at least one column, in one row or one row per batch
    element, a query of one step, a block size above 0, a query that
    reshapes to the KV heads with at most 512 rows per KV head, and
    launched the kernel once; a call that raises launched nothing. *)
Theorem call_outcomes (cfg : Config) (dev : Float32Driver.Device) (ib : InputBatch) :
  let rows := (num_heads ib / num_kv_heads ib)%nat in
  let outcome := Float32Driver.call cfg dev ib in
  ((exists out, Float32Driver.returned outcome = Return out) ->
     (exists m tp,
        mask_part (bias ib) = Some m /\ target_positions m = Some tp
        /\ (forall row, In row tp -> row <> [])
        /\ (length tp = 1%nat \/ length tp = batch_size ib))
     /\ q_seq_len ib = 1%nat
     /\ 0 < Z.min (tpu_block_size cfg) (k_seq_len ib)
     /\ (0 < batch_size ib * num_kv_heads ib * per_head_dim ib)%nat
     /\ (num_heads ib mod num_kv_heads ib = 0)%nat
     /\ (rows <= 512)%nat
     /\ Float32Driver.launches outcome = 1%nat)
  /\ (forall e, Float32Driver.returned outcome = Raise e ->
                Float32Driver.launches outcome = 0%nat).
Proof.
  intros rows outcome. subst outcome rows. unfold Float32Driver.call.
  destruct (prepare cfg ib) as [e|args] eqn:Hp;
    cbn [Float32Driver.launches Float32Driver.returned].
  - split; [intros [out H]; discriminate|reflexivity].
  - split; [|discriminate]. intros _.
    destruct (prepare_checked cfg ib args Hp) as [H1 [H2 [H3 [H4 [H5 H6]]]]].
    repeat split; assumption.
Qed.

Lemma filter_nonempty_In {A : Type} (p : A -> bool) (l : list A) :
  filter p l <> [] -> exists x, In x l /\ p x = true.
Proof.
  destruct (filter p l) as [|x l'] eqn:H; [congruence|]. intros _.
  exists x. apply filter_In. rewrite H. now left.
Qed.

(** What [is_supported] accepts, [__call__] can fetch: with the answer
    [True] the block size of line 193 divides the padded key length, and
    every step of the scan of a lane with at least one valid block, padded
    steps included, fetches a key block that lies within the keys, the
    remap of lines 238-240 sending the padded steps to a block the row
    lists. *)
Theorem supported_call_fetches_existing_blocks
  (base : InputBatch -> option cache_kind -> result bool) (cfg : Config)
  (ib : InputBatch) (kct : option cache_kind) (m : MaskFnAttentionBias)
  (lens : list Z) (b j : nat) :
  is_supported base cfg ib kct = Return true ->
  0 < tpu_block_size cfg ->
  1 <= nth b lens 0 <= k_seq_len ib ->
  (forall f w, mask m = Some f -> sliding_window_size m = Some w ->
               0 <= w /\ forall q k, f q k = sliding_window_causal_mask w q k) ->
  let B := Z.min (tpu_block_size cfg) (k_seq_len ib) in
  let tables := kv_block_offset_tables m (k_seq_len ib) B lens in
  1 <= nth b (snd tables) 0 ->
  k_seq_len ib mod B = 0
  /\ 0 <= kv_index_map (fst tables) b j
  /\ (kv_index_map (fst tables) b j + 1) * B <= k_seq_len ib.
Proof.
  intros Hsup Hcfg Hlen Hsw B tables Hn.
  assert (Hown : ~ own_checks_reject cfg ib (Some KVCache)).
  { unfold is_supported in Hsup.
    destruct (base ib kct) as [e|[|]]; try discriminate.
    destruct (negb (cache_type_eqb kct (Some KVCache))); [discriminate|].
    destruct (Z.eqb_spec (tpu_block_size cfg) 0) as [H0|_]; [discriminate|].
    destruct (Z.eqb_spec (k_seq_len ib mod tpu_block_size cfg) 0) as [Hm|Hm];
      destruct (Z.gtb_spec (k_seq_len ib) (tpu_block_size cfg)) as [Hg|Hg];
      cbn [negb andb] in Hsup; try discriminate;
      intros [H|[H1 H2]]; try congruence; lia. }
  destruct (call_block_size_divides cfg ib Hcfg ltac:(lia) Hown) as [HB Hmod].
  fold B in HB, Hmod. split; [exact Hmod|].
  set (S := k_seq_len ib) in *. set (len := nth b lens 0) in *.
  destruct (selected_row m S B len HB Hmod Hlen Hsw) as [keep [k [Hrow _]]].
  destruct (cdiv_exact S B HB Hmod) as [_ HS].
  assert (HP : 1 <= S / B).
  { assert (0 < S / B); [|lia]. apply Z.div_str_pos. split; [exact HB|].
    destruct (Z_le_gt_dec B S) as [H|H]; [exact H|].
    rewrite Z.mod_small in Hmod by lia. lia. }
  assert (Hb : (b < length lens)%nat).
  { destruct (Nat.lt_ge_cases b (length lens)) as [H|H]; [exact H|].
    subst len. rewrite nth_overflow in Hlen by exact H. lia. }
  set (row := filter keep (zrange 0 (S / B)) ++ repeat padding k) in *.
  assert (Hsel : nth b (select_rows (block_offsets m S B) lens B) [] = row).
  { rewrite select_rows_nth by assumption. exact Hrow. }
  assert (Hlsel : length (select_rows (block_offsets m S B) lens B) = length lens).
  { unfold select_rows. apply length_map. }
  assert (Hrange : forall e, In e row -> e <> padding -> 0 <= e < S / B).
  { intros e He Hne. subst row. apply in_app_or in He. destruct He as [He|He].
    - apply filter_In in He. destruct He as [He _]. now apply In_zrange in He.
    - apply repeat_spec in He. contradiction. }
  assert (Hlow : forall x, In x row -> padding <= x).
  { intros x Hx. destruct (Z.eq_dec x padding) as [->|Hne]; [lia|].
    pose proof (Hrange x Hx Hne). unfold padding. lia. }
  assert (Hlisted : exists x, In x row /\ x <> padding).
  { subst tables. unfold kv_block_offset_tables in Hn. cbn [snd] in Hn.
    rewrite (nth_map2 _ _ _ b [] 0) in Hn by lia. rewrite Hsel in Hn.
    unfold block_offset_size, count_nonzero in Hn.
    destruct (filter_nonempty_In
                (fun e => negb (e =? padding) && (e * B <? nth b lens 0)) row)
      as [x [Hx Hp]].
    { intros H. rewrite H in Hn. simpl in Hn. lia. }
    exists x. split; [exact Hx|].
    apply andb_true_iff in Hp. destruct Hp as [Hp _].
    destruct (Z.eqb_spec x padding); [discriminate|assumption]. }
  assert (Hidx : 0 <= kv_index_map (fst tables) b j < S / B).
  { subst tables. unfold kv_block_offset_tables, kv_index_map. cbn [fst].
    rewrite (nth_map_in _ _ b []) by lia. rewrite Hsel.
    destruct (Nat.lt_ge_cases j (length (replace_padding row))) as [Hj|Hj].
    - destruct (replace_padding_valid row _ Hlow Hlisted (nth_In _ 0 Hj)) as [Hne Hin].
      now apply Hrange.
    - rewrite nth_overflow by exact Hj. lia. }
  split; [lia|]. nia.
Qed.

Lemma supported_call_fetches_existing_blocks_witness :
  let tables := kv_block_offset_tables window_bias 4 2 [4] in
  k_seq_len window_batch mod 2 = 0
  /\ 0 <= kv_index_map (fst tables) 0 1
  /\ (kv_index_map (fst tables) 0 1 + 1) * 2 <= k_seq_len window_batch.
Proof.
  apply (supported_call_fetches_existing_blocks (fun _ _ => Return true) cfg2 window_batch
           (Some KVCache) window_bias [4] 0 1).
  - reflexivity.
  - simpl. lia.
  - simpl. lia.
  - intros f w Hf Hw. injection Hf as <-. injection Hw as <-. split; [lia|reflexivity].
  - vm_compute. discriminate.
Defined.

End DriverExtras.

(** ** More on the kernel against the dense reference *)

Module EquivalenceExtras.
Import Builder Kernel Driver Reference Visited.
Import BuilderFacts NumFacts MaskFacts TableFacts EquivalenceFacts Samples.

Lemma causal_mask_diag (q : Z) : causal_mask q q = true.
Proof. unfold causal_mask. apply Z.geb_le. lia. Qed.

Lemma sliding_window_causal_mask_diag (w q : Z) :
  0 <= w -> sliding_window_causal_mask w q q = true.
Proof. intros Hw. apply sliding_window_causal_mask_true. lia. Qed.


(** The sliding window mask handed over as a plain mask function
    ([jax_fn_mask], without window size, so that the block table is built
    by evaluating the function on every block pair) and as a sliding
    window bias (closed-form block table) give the same call: same
    launches, same exception or same output for every batch element and
    head. *)
Theorem jax_fn_mask_same_call (cfg : Config) (dev : Device) (ib : InputBatch)
  (ev : option BiasTensor) (tp : option (list (list Z))) (w : Z) :
  0 <= w ->
  0 < tpu_block_size cfg ->
  0 < k_seq_len ib ->
  call cfg dev
    (set_bias ib (mkBias (Some (mkMaskBias (Some (jax_fn_mask w)) tp None)) ev))
  = call cfg dev
      (set_bias ib
         (mkBias (Some (mkMaskBias (Some (sliding_window_causal_mask w)) tp (Some w))) ev)).
Proof.
  intros Hw Hcfg HS.
  assert (Hprepare :
    prepare cfg
      (set_bias ib (mkBias (Some (mkMaskBias (Some (jax_fn_mask w)) tp None)) ev))
    = prepare cfg
        (set_bias ib
           (mkBias (Some (mkMaskBias (Some (sliding_window_causal_mask w)) tp (Some w)))
              ev))); [|unfold call; rewrite Hprepare; reflexivity].
  unfold prepare, split.
  cbn [bias set_bias mask_part explicit_value target_positions mask
       batch_size num_kv_heads k_seq_len q_seq_len num_heads per_head_dim].
  destruct tp as [tp|]; [|reflexivity].
  assert (Htables :
    kv_block_offset_tables (mkMaskBias (Some (jax_fn_mask w)) (Some tp) None)
      (k_seq_len ib) (Z.min (tpu_block_size cfg) (k_seq_len ib))
      (kv_seq_len_of tp (batch_size ib))
    = kv_block_offset_tables
        (mkMaskBias (Some (sliding_window_causal_mask w)) (Some tp) (Some w))
        (k_seq_len ib) (Z.min (tpu_block_size cfg) (k_seq_len ib))
        (kv_seq_len_of tp (batch_size ib))).
  { unfold kv_block_offset_tables, block_offsets.
    cbn [mask sliding_window_size].
    rewrite build_sliding_window_mask_eq by lia. reflexivity. }
  rewrite Htables. reflexivity.
Qed.

Lemma jax_fn_mask_same_call_witness :
  call cfg2 device0
    (set_bias window_batch
       (mkBias (Some (mkMaskBias (Some (jax_fn_mask 1)) (Some [[3]]) None)) None))
  = call cfg2 device0
      (set_bias window_batch
         (mkBias (Some (mkMaskBias (Some (sliding_window_causal_mask 1)) (Some [[3]])
                          (Some 1))) None)).
Proof.
  apply (jax_fn_mask_same_call cfg2 device0 window_batch None (Some [[3]]) 1).
  - lia.
  - simpl. lia.
  - simpl. lia.
Defined.

End EquivalenceExtras.

(** ** float32 arithmetic within its range *)

Module Float32Facts.
Import Float32Range NumFacts.

Local Open Scope R_scope.

Lemma max_float_pos : 1 <= F32.max_float.
Proof. unfold F32.max_float. lra. Qed.

Lemma Rabs_le_bounds (r b : R) : Rabs r <= b -> - b <= r <= b.
Proof. unfold Rabs. destruct (Rcase_abs r); lra. Qed.

Lemma of_real_val (r : R) : Rabs r <= F32.max_float -> F32.of_real r = F32.Val r.
Proof.
  intros H. apply Rabs_le_bounds in H. unfold F32.of_real.
  destruct (Rlt_dec F32.max_float r) as [H1|_]; [lra|].
  destruct (Rlt_dec r (- F32.max_float)) as [H2|_]; [lra|]. reflexivity.
Qed.

Lemma add_val (x y : R) :
  Rabs (x + y) <= F32.max_float -> F32.add (F32.Val x) (F32.Val y) = F32.Val (x + y).
Proof. intros H. cbn [F32.add]. now apply of_real_val. Qed.

Lemma mul_val (x y : R) :
  Rabs (x * y) <= F32.max_float -> F32.mul (F32.Val x) (F32.Val y) = F32.Val (x * y).
Proof. intros H. cbn [F32.mul]. now apply of_real_val. Qed.

(** A sum whose terms do not add up beyond the range, in absolute value,
    is exact. *)
Lemma fold_add_val (l : list R) (acc : R) :
  Rabs acc + Rsum (map Rabs l) <= F32.max_float ->
  fold_left F32.add (map F32.Val l) (F32.Val acc) = F32.Val (acc + Rsum l).
Proof.
  revert acc. induction l as [|a l IH]; intros acc H; cbn [map fold_left].
  - cbn [Rsum fold_right]. f_equal. lra.
  - rewrite Rsum_cons in *. cbn [map] in H. rewrite Rsum_cons in H.
    assert (Hl : 0 <= Rsum (map Rabs l)).
    { apply Rsum_nonneg. intros x _. apply Rabs_pos. }
    pose proof (Rabs_triang acc a) as Htri.
    rewrite add_val by lra. rewrite IH by lra. f_equal. lra.
Qed.

Lemma sum_n_val (f : nat -> F32.float32) (g : nat -> R) (n : nat) :
  (forall c, (c < n)%nat -> f c = F32.Val (g c)) ->
  Rsum (map (fun c => Rabs (g c)) (seq 0 n)) <= F32.max_float ->
  Float32Kernel.sum_n f n = F32.Val (sum_n g n).
Proof.
  intros Hf Hb. unfold Float32Kernel.sum_n, F32.sum, sum_n.
  assert (Hmap : map f (seq 0 n) = map F32.Val (map g (seq 0 n))).
  { rewrite map_map. apply map_ext_in. intros c Hc. apply in_seq in Hc. apply Hf. lia. }
  rewrite Hmap, fold_add_val.
  - f_equal. lra.
  - rewrite map_map, Rabs_R0. lra.
Qed.

Lemma exp_le_1 (x : R) : x <= 0 -> exp x <= 1.
Proof.
  intros H. destruct (Rle_lt_or_eq_dec _ _ H) as [Hlt|Heq].
  - rewrite <- exp_0. left. now apply exp_increasing.
  - rewrite Heq, exp_0. lra.
Qed.

Lemma neg_inf_value_bounds :
  F32.neg_inf_value < 0 /\ - F32.neg_inf_value + 80 <= F32.max_float / 4.
Proof. unfold F32.neg_inf_value, F32.max_float. lra. Qed.

(** A logit of the window as a float32. *)
Lemma of_xreal_val (a : xreal) : exists r, F32.of_xreal a = F32.Val r.
Proof. destruct a as [|x]; eexists; reflexivity. Qed.

Section Window.
Variable lo : R.
Hypothesis Hlo : window_ok lo.

Lemma window_value_bounds (x : R) :
  lo <= x <= lo + 80 ->
  F32.neg_inf_value + F32.exp_underflow <= x <= F32.max_float / 4.
Proof.
  intros H. destruct Hlo as [H1 H2]. pose proof neg_inf_value_bounds. lra.
Qed.

Lemma in_window_xmax (a b : xreal) :
  in_window lo a -> in_window lo b -> in_window lo (xmax a b).
Proof.
  destruct a as [|x], b as [|y]; cbn [xmax in_window]; try tauto.
  intros Hx Hy. unfold Rmax. destruct (Rle_dec x y); assumption.
Qed.

(** [jnp.maximum] on logits of the window. *)
Lemma max_of_xreal (a b : xreal) :
  in_window lo a -> in_window lo b ->
  F32.max (F32.of_xreal a) (F32.of_xreal b) = F32.of_xreal (xmax a b).
Proof.
  unfold F32.exp_underflow in *.
  destruct a as [|x], b as [|y]; cbn [xmax in_window F32.of_xreal F32.max]; intros Ha Hb.
  - f_equal. unfold Rmax. destruct (Rle_dec _ _); reflexivity.
  - apply window_value_bounds in Hb. unfold F32.exp_underflow in Hb.
    f_equal. apply Rmax_right. lra.
  - apply window_value_bounds in Ha. unfold F32.exp_underflow in Ha.
    f_equal. apply Rmax_left. lra.
  - reflexivity.
Qed.

Lemma in_window_xmax_list (l : list xreal) :
  (forall x, In x l -> in_window lo x) -> in_window lo (xmax_list l).
Proof.
  induction l as [|a l IH]; intros H; cbn [xmax_list fold_right].
  - exact I.
  - apply in_window_xmax; [apply H; now left|].
    apply IH. intros x Hx. apply H. now right.
Qed.

(** [max(axis=-1)] over a row of at least one logit of the window. *)
Lemma fold_max_of_xreal (l : list xreal) :
  l <> [] -> (forall x, In x l -> in_window lo x) ->
  fold_right F32.max F32.MInf (map F32.of_xreal l) = F32.of_xreal (xmax_list l).
Proof.
  induction l as [|a l IH]; intros Hne H; [congruence|].
  cbn [map fold_right xmax_list]. destruct l as [|a' l].
  - cbn [map fold_right]. rewrite xmax_NEG_INF_r.
    destruct (of_xreal_val a) as [r ->]. reflexivity.
  - rewrite IH; [|discriminate|intros x Hx; apply H; now right].
    apply max_of_xreal; [apply H; now left|].
    apply in_window_xmax_list. intros x Hx. apply H. now right.
Qed.

Lemma max_n_of_xreal (f : nat -> F32.float32) (g : nat -> xreal) (n : nat) :
  (0 < n)%nat ->
  (forall c, (c < n)%nat -> f c = F32.of_xreal (g c) /\ in_window lo (g c)) ->
  Float32Kernel.max_n f n = F32.of_xreal (max_n g n) /\ in_window lo (max_n g n).
Proof.
  intros Hn H. unfold Float32Kernel.max_n, max_n.
  assert (Hmap : map f (seq 0 n) = map F32.of_xreal (map g (seq 0 n))).
  { rewrite map_map. apply map_ext_in. intros c Hc. apply in_seq in Hc. apply H. lia. }
  assert (Hin : forall x, In x (map g (seq 0 n)) -> in_window lo x).
  { intros x Hx. apply in_map_iff in Hx. destruct Hx as [c [<- Hc]].
    apply in_seq in Hc. apply H. lia. }
  split; [|now apply in_window_xmax_list].
  rewrite Hmap. apply fold_max_of_xreal; [|exact Hin].
  destruct n; [lia|]. discriminate.
Qed.

(** [exp(a - b)] for two logits of the window, [a] not above [b]: nothing
    overflows, and the only underflow is that of [exp(NEG_INF - x)]. *)
Lemma exp_sub_of_xreal (a b : xreal) :
  in_window lo a -> in_window lo b -> xle a b ->
  F32.exp (F32.sub (F32.of_xreal a) (F32.of_xreal b)) = F32.Val (xexp (xsub a b)).
Proof.
  pose proof neg_inf_value_bounds as [Hneg Hmax]. pose proof max_float_pos as Hmf.
  destruct a as [|x], b as [|y];
    cbn [in_window xle xsub xexp F32.of_xreal F32.sub F32.opp F32.add]; intros Ha Hb Hle.
  - rewrite of_real_val by (rewrite Rplus_opp_r, Rabs_R0; lra).
    cbn [F32.exp]. unfold F32.exp_underflow.
    destruct (Rle_dec _ _) as [H|_]; [lra|].
    rewrite Rplus_opp_r, exp_0. apply of_real_val. rewrite Rabs_R1. lra.
  - apply window_value_bounds in Hb. unfold F32.exp_underflow in Hb.
    rewrite of_real_val by (apply Rabs_le; lra).
    cbn [F32.exp]. unfold F32.exp_underflow.
    destruct (Rle_dec _ _) as [_|H]; [reflexivity|lra].
  - contradiction.
  - pose proof (window_value_bounds _ Ha) as Hx. pose proof (window_value_bounds _ Hb) as Hy.
    unfold F32.exp_underflow in Hx, Hy.
    rewrite of_real_val by (apply Rabs_le; lra).
    cbn [F32.exp]. unfold F32.exp_underflow.
    destruct (Rle_dec _ _) as [H|_]; [lra|].
    apply of_real_val. pose proof (exp_pos (x + - y)).
    pose proof (exp_le_1 (x + - y) ltac:(lra)). apply Rabs_le. unfold Rminus. lra.
Qed.

End Window.

(** A sum of [n] numbers of [[0, 1]] is at most [n]. *)
Lemma Rsum_unit_le (f : nat -> R) (n : nat) :
  (forall c, (c < n)%nat -> 0 <= f c <= 1) ->
  0 <= sum_n f n <= INR n.
Proof.
  intros H. unfold sum_n. split.
  - apply Rsum_nonneg. intros c Hc. apply in_seq in Hc. apply H. lia.
  - assert (Hle : Rsum (map f (seq 0 n)) <= Rsum (map (fun _ => 1) (seq 0 n))).
    { apply StabilityFacts.Rsum_le. intros c Hc. apply in_seq in Hc. apply H. lia. }
    assert (Hone : forall l : list nat, Rsum (map (fun _ => 1) l) = INR (length l)).
    { induction l as [|a l IH]; [reflexivity|].
      cbn [map length]. rewrite Rsum_cons, IH, S_INR. lra. }
    rewrite Hone, length_seq in Hle. exact Hle.
Qed.

(** A sum of [n] numbers bounded by [v] is bounded by [n * v]. *)
Lemma Rsum_abs_le (f : nat -> R) (n : nat) (v : R) :
  (forall c, (c < n)%nat -> Rabs (f c) <= v) ->
  Rsum (map (fun c => Rabs (f c)) (seq 0 n)) <= INR n * v
  /\ Rabs (sum_n f n) <= Rsum (map (fun c => Rabs (f c)) (seq 0 n)).
Proof.
  intros H. unfold sum_n. split.
  - assert (Hle : Rsum (map (fun c => Rabs (f c)) (seq 0 n))
                  <= Rsum (map (fun _ => v) (seq 0 n))).
    { apply StabilityFacts.Rsum_le. intros c Hc. apply in_seq in Hc. apply H. lia. }
    assert (Hc : forall l : list nat, Rsum (map (fun _ => v) l) = INR (length l) * v).
    { induction l as [|a l IH]; [cbn; lra|].
      cbn [map length]. rewrite Rsum_cons, IH, S_INR. lra. }
    rewrite Hc, length_seq in Hle. exact Hle.
  - generalize (seq 0 n). induction l as [|a l IH]; cbn [map].
    + cbn. rewrite Rabs_R0. lra.
    + rewrite !Rsum_cons. pose proof (Rabs_triang (f a) (Rsum (map f l))). lra.
Qed.

End Float32Facts.

(** ** The float32 kernel against the exact one *)

Module RefinementFacts.
Import Builder Kernel Driver Visited Float32Range.
Import NumFacts ScanFacts AccumulatorFacts StabilityFacts Float32Facts.

Local Open Scope R_scope.

Lemma scaled_bound (c x A : R) : 0 <= c <= 1 -> Rabs x <= A -> Rabs (c * x) <= A.
Proof.
  intros Hc Hx. rewrite Rabs_mult, (Rabs_pos_eq c) by lra.
  pose proof (Rabs_pos x). nra.
Qed.

Section Step.
Variable lo vmax : R.
Hypothesis Hlo : window_ok lo.
Hypothesis Hvmax : 0 <= vmax.
Variable bk : nat.
Hypothesis Hbk : (0 < bk)%nat.

(** One accumulator update: when the scratch rows agree, the logits of the
    block are logits of the window and its values are bounded, the float32
    update computes what the exact update computes. *)
Lemma update_refines (qk : nat -> nat -> xreal) (qk32 : Float32Kernel.Tensor2)
  (v : Tensor2) (s : Scratch) (s32 : Float32Kernel.Scratch) (i : nat) (L : R) :
  refines_row lo vmax L i s32 s ->
  (forall c, (c < bk)%nat -> qk32 i c = F32.of_xreal (qk i c) /\ in_window lo (qk i c)) ->
  (forall c d, (c < bk)%nat -> Rabs (v d c) <= vmax) ->
  0 <= L ->
  (L + INR bk) * vmax <= F32.max_float ->
  L + INR bk <= F32.max_float ->
  refines_row lo vmax (L + INR bk) i
    (Float32Kernel.update bk qk32 (Float32Driver.lift v) s32) (update bk qk v s).
Proof.
  intros [Hm [Hmw [Hl [Hlb Ho]]]] Hqk Hv HL Hbv Hbl.
  assert (Hbk1 : 1 <= INR bk).
  { rewrite <- INR_1. apply le_INR. lia. }
  set (m := m_i s i) in *. set (M := max_n (qk i) bk). set (m' := xmax m M).
  destruct (max_n_of_xreal lo Hlo (qk32 i) (qk i) bk Hbk Hqk) as [HM32 HMw].
  fold M in HM32, HMw.
  assert (Hm'w : in_window lo m') by (unfold m'; now apply in_window_xmax).
  assert (Hm'32 : F32.max (Float32Kernel.m_i s32 i) (Float32Kernel.max_n (qk32 i) bk)
                  = F32.of_xreal m').
  { rewrite Hm, HM32. unfold m'. now apply (max_of_xreal lo Hlo). }
  assert (Hmm' : xle m m') by apply xle_xmax_l.
  set (corr := xexp (xsub m m')).
  assert (Hcorr32 : F32.exp (F32.sub (Float32Kernel.m_i s32 i) (F32.of_xreal m'))
                    = F32.Val corr).
  { rewrite Hm. now apply (exp_sub_of_xreal lo Hlo). }
  assert (Hcorr : 0 <= corr <= 1) by (now apply xexp_sub_unit).
  set (w := fun c => xexp (xsub (qk i c) m')).
  assert (Hw32 : forall c, (c < bk)%nat ->
            F32.exp (F32.sub (qk32 i c) (F32.of_xreal m')) = F32.Val (w c)).
  { intros c Hc. destruct (Hqk c Hc) as [-> Hqw].
    apply (exp_sub_of_xreal lo Hlo); [exact Hqw|exact Hm'w|].
    now apply update_exponents_not_above. }
  assert (Hw : forall c, (c < bk)%nat -> 0 <= w c <= 1).
  { intros c Hc. apply xexp_sub_unit. now apply update_exponents_not_above. }
  assert (Hwabs : forall c, (c < bk)%nat -> Rabs (w c) <= 1).
  { intros c Hc. apply Rabs_le. pose proof (Hw c Hc). lra. }
  destruct (Rsum_unit_le w bk Hw) as [Hs0 Hs1].
  destruct (Rsum_abs_le w bk 1 Hwabs) as [Hsabs _].
  unfold refines_row, Float32Kernel.update, update.
  cbn [Float32Kernel.m_i Float32Kernel.l_i Float32Kernel.o_scratch m_i l_i o_scratch].
  fold m M m'. rewrite Hm'32.
  split; [reflexivity|]. split; [exact Hm'w|].
  rewrite Hcorr32, Hl.
  assert (Hcl : 0 <= corr * l_i s i <= L) by nra.
  split; [|split].
  - rewrite mul_val by (apply Rabs_le; lra).
    rewrite (sum_n_val _ w bk Hw32) by lra.
    rewrite add_val by (apply Rabs_le; fold (sum_n w bk); lra). reflexivity.
  - fold corr. fold w. lra.
  - intros d. destruct (Ho d) as [Ho32 Hob]. rewrite Ho32.
    set (g := fun c => w c * v d c).
    assert (Hg32 : forall c, (c < bk)%nat ->
              F32.mul (F32.exp (F32.sub (qk32 i c) (F32.of_xreal m')))
                      (Float32Driver.lift v d c) = F32.Val (g c)).
    { intros c Hc. rewrite (Hw32 c Hc). unfold Float32Driver.lift. apply mul_val.
      pose proof (scaled_bound (w c) (v d c) vmax (Hw c Hc) (Hv c d Hc)). nra. }
    assert (Hgabs : forall c, (c < bk)%nat -> Rabs (g c) <= vmax).
    { intros c Hc. apply scaled_bound; [now apply Hw|now apply Hv]. }
    destruct (Rsum_abs_le g bk vmax Hgabs) as [Hgs Hgt].
    pose proof (scaled_bound corr (o_scratch s i d) (L * vmax) Hcorr Hob) as Hco.
    assert (HLv : 0 <= L * vmax) by nra.
    rewrite mul_val by nra.
    rewrite (sum_n_val _ g bk Hg32) by nra.
    assert (Hsum : Rabs (corr * o_scratch s i d + sum_n g bk) <= (L + INR bk) * vmax).
    { pose proof (Rabs_triang (corr * o_scratch s i d) (sum_n g bk)). nra. }
    rewrite add_val by lra. split; [reflexivity|]. exact Hsum.
Qed.

End Step.

Section Logits.
Variable lo : R.
Hypothesis Hlo : window_ok lo.
Variable softmax_scale : R.
Variable mask_fn : option MaskFn.
Variable head_dim : nat.

(** The masked logits of a block (lines 96-110): a rejected position gets
    [NEG_INF] whatever the dot product gave; an accepted position whose
    exact logit lies in the window, the dot product and its scaling staying
    within the range, gets that logit. *)
Lemma masked_logits_refines (kv_offset kv_seq_len : Z) (q k : Tensor2)
  (b_ref : option (nat -> nat -> xreal)) (i c : nat) :
  (key_accepted mask_fn kv_seq_len (kv_offset + Z.of_nat c) = true ->
     (exists x,
        masked_logits softmax_scale mask_fn head_dim kv_offset kv_seq_len q k b_ref i c
        = Fin x /\ lo <= x <= lo + 80)
     /\ Rsum (map (fun h => Rabs (q i h * k h c)) (seq 0 head_dim)) <= F32.max_float
     /\ Rabs (dot head_dim q k i c * softmax_scale) <= F32.max_float) ->
  Float32Kernel.masked_logits softmax_scale mask_fn head_dim kv_offset kv_seq_len
    (Float32Driver.lift q) (Float32Driver.lift k)
    (option_map Float32Driver.lift_bias b_ref) i c
  = F32.of_xreal
      (masked_logits softmax_scale mask_fn head_dim kv_offset kv_seq_len q k b_ref i c)
  /\ in_window lo
       (masked_logits softmax_scale mask_fn head_dim kv_offset kv_seq_len q k b_ref i c).
Proof.
  intros H.
  destruct (key_accepted mask_fn kv_seq_len (kv_offset + Z.of_nat c)) eqn:Hacc.
  - destruct (H eq_refl) as [[x [Hx Hxw]] [Hdot Hscale]]. rewrite Hx.
    split; [|exact Hxw].
    rewrite (MaskFacts.accepted_logit softmax_scale mask_fn head_dim kv_offset kv_seq_len
               q k b_ref i c Hacc) in Hx.
    unfold Float32Kernel.masked_logits.
    replace (match mask_fn with
             | Some f => (kv_offset + Z.of_nat c <? kv_seq_len)%Z
                         && f (kv_seq_len - 1)%Z (kv_offset + Z.of_nat c)%Z
             | None => (kv_offset + Z.of_nat c <? kv_seq_len)%Z
             end) with true
      by (unfold key_accepted in Hacc; destruct mask_fn;
          [now rewrite Hacc|now rewrite andb_true_r in Hacc]).
    assert (Hd : Float32Kernel.dot head_dim (Float32Driver.lift q) (Float32Driver.lift k) i c
                 = F32.Val (dot head_dim q k i c)).
    { unfold Float32Kernel.dot, dot.
      apply (sum_n_val _ (fun h => q i h * k h c)); [|exact Hdot].
      intros h Hh. unfold Float32Driver.lift. apply mul_val.
      apply Rle_trans with (2 := Hdot).
      apply (Rsum_ge_term (fun h => Rabs (q i h * k h c))).
      - intros h' _. apply Rabs_pos.
      - apply in_seq. lia. }
    rewrite Hd.
    assert (Hs : (if Req_dec_T softmax_scale 1
                  then F32.Val (dot head_dim q k i c)
                  else F32.mul (F32.Val (dot head_dim q k i c)) (F32.Val softmax_scale))
                 = F32.Val (dot head_dim q k i c * softmax_scale)).
    { destruct (Req_dec_T softmax_scale 1) as [->|_]; [f_equal; lra|].
      now apply mul_val. }
    rewrite Hs.
    pose proof (window_value_bounds lo Hlo x Hxw) as Hxb.
    unfold F32.exp_underflow in Hxb. pose proof max_float_pos as Hmf.
    pose proof neg_inf_value_bounds as [Hneg Hnb].
    destruct b_ref as [bias|]; cbn [option_map].
    + unfold Float32Driver.lift_bias. destruct (bias i c) as [|bv]; [discriminate|].
      cbn [xadd] in Hx. injection Hx as Hx. cbn [F32.of_xreal].
      rewrite add_val by (rewrite Hx; apply Rabs_le; lra).
      rewrite Hx. unfold F32.NEG_INF. cbn [F32.max]. f_equal. apply Rmax_left. lra.
    + injection Hx as Hx. now rewrite Hx.
  - rewrite (MaskFacts.rejected_logit softmax_scale mask_fn head_dim kv_offset kv_seq_len
               q k b_ref i c Hacc).
    split; [|exact I].
    unfold Float32Kernel.masked_logits.
    replace (match mask_fn with
             | Some f => (kv_offset + Z.of_nat c <? kv_seq_len)%Z
                         && f (kv_seq_len - 1)%Z (kv_offset + Z.of_nat c)%Z
             | None => (kv_offset + Z.of_nat c <? kv_seq_len)%Z
             end) with false; [reflexivity|].
    unfold key_accepted in Hacc. destruct mask_fn; [now rewrite Hacc|].
    now rewrite andb_true_r in Hacc.
Qed.

End Logits.

End RefinementFacts.

(** ** The scan of a lane in float32 *)

Module Float32ScanFacts.
Import Builder Driver Float32Range.
Import NumFacts Float32Facts RefinementFacts.

Section Step.
Variable softmax_scale : R.
Variable mask_fn : option MaskFn.
Variable head_dim block_k : nat.
Variable kv_seq_len_ref : list Z.
Variable kv_block_offset : list (list Z).
Variable kv_block_offset_size : list Z.
Variable b j : nat.
Variable q_ref k_ref v_ref : Float32Kernel.Tensor2.
Variable b_ref : option Float32Kernel.Tensor2.

Let n := nth b kv_block_offset_size 0.
Let body := Float32Kernel._tpu_decoding_kernel softmax_scale mask_fn head_dim block_k
              kv_seq_len_ref kv_block_offset kv_block_offset_size b j
              q_ref k_ref v_ref b_ref.

Lemma f32_kernel_past_valid (bufs : Float32Kernel.Buffers) :
  n <= Z.of_nat j -> j <> 0%nat -> body bufs = bufs.
Proof.
  intros Hn Hj. subst body n. unfold Float32Kernel._tpu_decoding_kernel.
  destruct (Nat.eqb_spec j 0) as [H0|H0]; [contradiction|].
  destruct (Z.ltb_spec (Z.of_nat j) (nth b kv_block_offset_size 0)) as [H1|H1]; [lia|].
  destruct (Z.eqb_spec (Z.of_nat j) (nth b kv_block_offset_size 0 - 1)) as [H2|H2]; [lia|].
  reflexivity.
Qed.

Lemma f32_kernel_keeps_output (bufs : Float32Kernel.Buffers) :
  Z.of_nat j <> n - 1 ->
  Float32Kernel.o_ref (body bufs) = Float32Kernel.o_ref bufs
  /\ Float32Kernel.stores (body bufs) = Float32Kernel.stores bufs.
Proof.
  intros Hn. subst body n. unfold Float32Kernel._tpu_decoding_kernel.
  destruct (Z.eqb_spec (Z.of_nat j) (nth b kv_block_offset_size 0 - 1)) as [H2|H2];
    [contradiction|].
  destruct (Nat.eqb j 0);
    destruct (Z.of_nat j <? nth b kv_block_offset_size 0); split; reflexivity.
Qed.

Lemma f32_kernel_stores_output (bufs : Float32Kernel.Buffers) :
  Z.of_nat j = n - 1 ->
  Float32Kernel.stores (body bufs) = j :: Float32Kernel.stores bufs
  /\ Float32Kernel.o_ref (body bufs)
     = (fun i d => F32.div (Float32Kernel.o_scratch (Float32Kernel.scratch (body bufs)) i d)
                           (Float32Kernel.l_i (Float32Kernel.scratch (body bufs)) i)).
Proof.
  intros Hn. subst body n. unfold Float32Kernel._tpu_decoding_kernel.
  destruct (Z.eqb_spec (Z.of_nat j) (nth b kv_block_offset_size 0 - 1)) as [H2|H2];
    [|contradiction].
  destruct (Nat.eqb j 0);
    destruct (Z.of_nat j <? nth b kv_block_offset_size 0); split; reflexivity.
Qed.

Lemma f32_kernel_scratch (bufs : Float32Kernel.Buffers) :
  Z.of_nat j < n ->
  Float32Kernel.scratch (body bufs)
  = Float32Kernel.compute softmax_scale mask_fn head_dim block_k
      (nth j (nth b kv_block_offset []) 0 * Z.of_nat block_k)
      (nth b kv_seq_len_ref 0) q_ref k_ref v_ref b_ref
      (if (j =? 0)%nat then Float32Kernel.init (Float32Kernel.scratch bufs)
       else Float32Kernel.scratch bufs).
Proof.
  intros Hn. subst body n. unfold Float32Kernel._tpu_decoding_kernel.
  destruct (Z.ltb_spec (Z.of_nat j) (nth b kv_block_offset_size 0)) as [H1|H1]; [|lia].
  destruct (Nat.eqb j 0);
    destruct (Z.of_nat j =? nth b kv_block_offset_size 0 - 1); reflexivity.
Qed.
End Step.

Section Lane.
Variable cfg : Config.
Variable mask_fn : option MaskFn.
Variable input_batch : InputBatch.
Variable bias_value : option BiasTensor.
Variable block_kv : nat.
Variable q_seq_head : nat.
Variable kv_seq_len : list Z.
Variable kv_block_offset : list (list Z).
Variable kv_block_offset_size : list Z.
Variable b h : nat.

Let n := nth b kv_block_offset_size 0.
Let step := Float32Driver.grid_step cfg mask_fn input_batch bias_value block_kv q_seq_head
              kv_seq_len kv_block_offset kv_block_offset_size b h.
Let run := Float32Driver.run_lane cfg mask_fn input_batch bias_value block_kv q_seq_head
             kv_seq_len kv_block_offset kv_block_offset_size b h.
Let before := Float32Visited.before_step cfg mask_fn input_batch bias_value block_kv
                q_seq_head kv_seq_len kv_block_offset kv_block_offset_size b h.
Let logits := Float32Visited.step_logits cfg mask_fn input_batch bias_value block_kv
                q_seq_head kv_seq_len kv_block_offset b h.
Let values := Float32Visited.step_values input_batch block_kv kv_block_offset b h.

Lemma f32_run_lane_S (t : nat) (bufs : Float32Kernel.Buffers) :
  run (S t) bufs = step (run t bufs) t.
Proof.
  subst run step. unfold Float32Driver.run_lane. rewrite seq_S, fold_left_app. reflexivity.
Qed.

Lemma f32_step_past_valid (j : nat) (bufs : Float32Kernel.Buffers) :
  n <= Z.of_nat j -> j <> 0%nat -> step bufs j = bufs.
Proof.
  intros Hn Hj. subst step n. unfold Float32Driver.grid_step.
  now apply f32_kernel_past_valid.
Qed.

Lemma f32_step_keeps_output (j : nat) (bufs : Float32Kernel.Buffers) :
  Z.of_nat j <> n - 1 ->
  Float32Kernel.o_ref (step bufs j) = Float32Kernel.o_ref bufs
  /\ Float32Kernel.stores (step bufs j) = Float32Kernel.stores bufs.
Proof.
  intros Hn. subst step n. unfold Float32Driver.grid_step.
  now apply f32_kernel_keeps_output.
Qed.

Lemma f32_run_keeps_output (t : nat) (bufs : Float32Kernel.Buffers) :
  Z.of_nat t <= n - 1 \/ n <= 0 ->
  Float32Kernel.o_ref (run t bufs) = Float32Kernel.o_ref bufs
  /\ Float32Kernel.stores (run t bufs) = Float32Kernel.stores bufs.
Proof.
  induction t as [|t IH]; intros Ht; [split; reflexivity|].
  rewrite f32_run_lane_S.
  destruct (f32_step_keeps_output t (run t bufs)) as [Ho Hs]; [lia|].
  destruct IH as [IHo IHs]; [lia|]. rewrite Ho, Hs. split; assumption.
Qed.

Lemma f32_run_past_valid (t : nat) (bufs : Float32Kernel.Buffers) :
  1 <= n -> n <= Z.of_nat t -> run t bufs = run (Z.to_nat n) bufs.
Proof.
  intros Hn. induction t as [|t IH]; intros Ht; [lia|].
  destruct (Z.eq_dec (Z.of_nat (S t)) n) as [He|He].
  - f_equal. lia.
  - rewrite f32_run_lane_S, f32_step_past_valid by lia. apply IH. lia.
Qed.

(** The float32 lane stores [o / l] once, at the last valid block, as the
    exact one does. *)
Lemma f32_run_stores_once (steps : nat) (bufs : Float32Kernel.Buffers) :
  1 <= n -> n <= Z.of_nat steps ->
  Float32Kernel.stores (run steps bufs) = Z.to_nat (n - 1) :: Float32Kernel.stores bufs
  /\ Float32Kernel.o_ref (run steps bufs)
     = (fun i d =>
          F32.div (Float32Kernel.o_scratch (Float32Kernel.scratch (run steps bufs)) i d)
                  (Float32Kernel.l_i (Float32Kernel.scratch (run steps bufs)) i)).
Proof.
  intros Hn Hs. rewrite (f32_run_past_valid steps bufs Hn Hs).
  replace (Z.to_nat n) with (S (Z.to_nat (n - 1))) by lia.
  rewrite f32_run_lane_S.
  destruct (f32_run_keeps_output (Z.to_nat (n - 1)) bufs) as [_ Hst]; [lia|].
  subst step n. unfold Float32Driver.grid_step.
  match goal with
  | |- context [Float32Kernel._tpu_decoding_kernel ?a ?b ?c ?d ?e ?f ?g ?h ?i ?j ?k ?l ?m
                  ?bufs] =>
      destruct (f32_kernel_stores_output a b c d e f g h i j k l m bufs) as [H1 H2]
  end; [lia|].
  split; [|exact H2]. rewrite H1. f_equal. exact Hst.
Qed.

Lemma f32_scratch_run_S (t : nat) (bufs : Float32Kernel.Buffers) :
  Z.of_nat t < n ->
  Float32Kernel.scratch (run (S t) bufs)
  = Float32Kernel.update block_kv (logits t) (values t) (before t bufs).
Proof.
  intros Ht. rewrite f32_run_lane_S.
  unfold step, before, run, Float32Driver.grid_step, Float32Visited.before_step.
  rewrite f32_kernel_scratch by exact Ht. reflexivity.
Qed.

End Lane.

Local Open Scope R_scope.

Lemma div_val (x y : R) :
  1 <= y -> Rabs x <= F32.max_float -> F32.div (F32.Val x) (F32.Val y) = F32.Val (x / y).
Proof.
  intros Hy Hx. cbn [F32.div]. destruct (Req_dec_T y 0) as [H0|_]; [lra|].
  apply of_real_val. unfold Rdiv. rewrite Rmult_comm.
  apply scaled_bound; [|exact Hx].
  assert (0 < / y) by (apply Rinv_0_lt_compat; lra).
  assert (/ y <= / 1) by (apply Rinv_le_contravar; lra).
  rewrite Rinv_1 in *. lra.
Qed.

Section Refines.
Variable cfg : Config.
Variable mask_fn : option MaskFn.
Variable input_batch : InputBatch.
Variable bias_value : option BiasTensor.
Variable block_kv : nat.
Variable q_seq_head : nat.
Variable kv_seq_len : list Z.
Variable kv_block_offset : list (list Z).
Variable kv_block_offset_size : list Z.
Variable b h : nat.
Variable lo vmax : R.
Variable i : nat.

Let n := nth b kv_block_offset_size 0%Z.
Let run32 := Float32Driver.run_lane cfg mask_fn input_batch bias_value block_kv q_seq_head
               kv_seq_len kv_block_offset kv_block_offset_size b h.
Let run := run_lane cfg mask_fn input_batch bias_value block_kv q_seq_head
             kv_seq_len kv_block_offset kv_block_offset_size b h.

Hypothesis Hrange :
  lane_in_range cfg mask_fn input_batch bias_value block_kv q_seq_head kv_seq_len
    kv_block_offset kv_block_offset_size b h i lo vmax.

Ltac range_conditions :=
  let H := fresh "H" in
  pose proof Hrange as H; unfold lane_in_range in H; cbv zeta in H; fold n in H;
  destruct H as [Hlo [Hvmax [Hbk [Hlogits [Hvalues Hcount]]]]].

Lemma step_logits_refine (j c : nat) :
  (Z.of_nat j < n)%Z -> (c < block_kv)%nat ->
  Float32Visited.step_logits cfg mask_fn input_batch bias_value block_kv q_seq_head
    kv_seq_len kv_block_offset b h j i c
  = F32.of_xreal (Visited.step_logits cfg mask_fn input_batch bias_value block_kv
                    q_seq_head kv_seq_len kv_block_offset b h j i c)
  /\ in_window lo (Visited.step_logits cfg mask_fn input_batch bias_value block_kv
                     q_seq_head kv_seq_len kv_block_offset b h j i c).
Proof.
  range_conditions.
  intros Hj Hc. unfold Float32Visited.step_logits, Visited.step_logits.
  set (e := kv_index_map kv_block_offset b j).
  replace (option_map
             (fun bt => Float32Driver.lift_bias
                          (xblock_at block_kv (lane_bias bt q_seq_head b h) e))
             bias_value)
    with (option_map Float32Driver.lift_bias
            (option_map (fun bt => xblock_at block_kv (lane_bias bt q_seq_head b h) e)
               bias_value))
    by (destruct bias_value; reflexivity).
  apply (masked_logits_refines lo Hlo). intros Hacc.
  exact (Hlogits j c Hj Hc Hacc).
Qed.

Lemma steps_bound (t : nat) :
  (Z.of_nat t < n)%Z ->
  0 <= INR t * INR block_kv
  /\ (INR t * INR block_kv + INR block_kv) * vmax <= F32.max_float
  /\ INR t * INR block_kv + INR block_kv <= F32.max_float.
Proof.
  range_conditions.
  intros Ht. destruct Hcount as [H1 H2].
  assert (Hbk0 : 0 <= INR block_kv) by apply pos_INR.
  assert (Ht0 : 0 <= INR t) by apply pos_INR.
  assert (Hle : INR t + 1 <= IZR n).
  { rewrite <- S_INR, INR_IZR_INZ. apply IZR_le. lia. }
  assert (Hbv : 0 <= INR block_kv * vmax) by nra.
  assert (H3 : (INR t + 1) * (INR block_kv * vmax) <= IZR n * (INR block_kv * vmax))
    by (apply Rmult_le_compat_r; assumption).
  assert (H4 : (INR t + 1) * INR block_kv <= IZR n * INR block_kv)
    by (apply Rmult_le_compat_r; assumption).
  split; [nra|]. split; nra.
Qed.

(** After every valid step, row [i] of the float32 scratch holds what the
    exact scratch holds. *)
Lemma lane_refines (t : nat) (bufs32 : Float32Kernel.Buffers) (bufs : Kernel.Buffers) :
  (Z.of_nat t < n)%Z ->
  refines_row lo vmax (INR (S t) * INR block_kv) i
    (Float32Kernel.scratch (run32 (S t) bufs32)) (Kernel.scratch (run (S t) bufs)).
Proof.
  range_conditions.
  induction t as [|t IH]; intros Ht.
  - unfold run32, run.
    rewrite f32_scratch_run_S, AccumulatorFacts.scratch_run_S by exact Ht.
    replace (INR 1 * INR block_kv) with (0 + INR block_kv) by (rewrite INR_1; lra).
    destruct (steps_bound 0 Ht) as [_ [H1 H2]]. rewrite INR_0, Rmult_0_l in H1, H2.
    apply (update_refines lo vmax Hlo Hvmax block_kv Hbk); try assumption; try lra.
    + unfold Float32Visited.before_step, Visited.before_step. cbn [Nat.eqb].
      unfold refines_row, Float32Kernel.init, Kernel.init.
      cbn [Float32Kernel.m_i Float32Kernel.l_i Float32Kernel.o_scratch
           Kernel.m_i Kernel.l_i Kernel.o_scratch].
      split; [reflexivity|]. split; [exact I|]. split; [reflexivity|].
      split; [lra|]. intros d. split; [reflexivity|]. rewrite Rabs_R0. lra.
    + intros c Hc. now apply step_logits_refine.
    + intros c d Hc. now apply Hvalues.
  - unfold run32, run.
    rewrite f32_scratch_run_S, AccumulatorFacts.scratch_run_S by exact Ht.
    replace (INR (S (S t)) * INR block_kv)
      with (INR (S t) * INR block_kv + INR block_kv) by (rewrite (S_INR (S t)); lra).
    destruct (steps_bound (S t) Ht) as [H0 [H1 H2]].
    apply (update_refines lo vmax Hlo Hvmax block_kv Hbk); try assumption.
    + unfold Float32Visited.before_step, Visited.before_step. cbn [Nat.eqb].
      apply IH. lia.
    + intros c Hc. now apply step_logits_refine.
    + intros c d Hc. now apply Hvalues.
Qed.

(** What the float32 lane stores is what the exact lane stores. *)
Lemma lane_output_refines (steps : nat) (bufs32 : Float32Kernel.Buffers)
  (bufs : Kernel.Buffers) (d : nat) :
  (1 <= n)%Z -> (n <= Z.of_nat steps)%Z ->
  Float32Kernel.o_ref (run32 steps bufs32) i d = F32.Val (Kernel.o_ref (run steps bufs) i d).
Proof.
  range_conditions.
  intros Hn Hs. unfold run32, run.
  destruct (f32_run_stores_once cfg mask_fn input_batch bias_value block_kv q_seq_head
              kv_seq_len kv_block_offset kv_block_offset_size b h steps bufs32 Hn Hs)
    as [_ Ho32].
  destruct (ScanFacts.run_stores_once cfg mask_fn input_batch bias_value block_kv
              q_seq_head kv_seq_len kv_block_offset kv_block_offset_size b h steps bufs
              Hn Hs) as [_ Ho].
  rewrite Ho32, Ho.
  rewrite (f32_run_past_valid cfg mask_fn input_batch bias_value block_kv q_seq_head
             kv_seq_len kv_block_offset kv_block_offset_size b h steps bufs32 Hn Hs).
  rewrite (ScanFacts.run_past_valid cfg mask_fn input_batch bias_value block_kv
             q_seq_head kv_seq_len kv_block_offset kv_block_offset_size b h steps bufs
             Hn Hs).
  fold n. replace (Z.to_nat n) with (S (Z.to_nat (n - 1))) by lia.
  assert (Ht : (Z.of_nat (Z.to_nat (n - 1)) < n)%Z) by lia.
  destruct (lane_refines (Z.to_nat (n - 1)) bufs32 bufs Ht)
    as [_ [_ [Hl [Hlb Ho']]]].
  destruct (Ho' d) as [Ho32' Hob]. unfold run32, run in Hl, Ho32', Hob, Hlb.
  rewrite Hl, Ho32'.
  pose proof (StabilityFacts.exact_normalizer_at_least_one cfg mask_fn input_batch
                bias_value block_kv q_seq_head kv_seq_len kv_block_offset
                kv_block_offset_size b h (Z.to_nat (n - 1)) bufs i Ht Hbk) as Hge.
  destruct (steps_bound (Z.to_nat (n - 1)) Ht) as [H0 [H1 H2]].
  apply div_val; [exact Hge|].
  rewrite (S_INR (Z.to_nat (n - 1))) in Hob. lra.
Qed.

End Refines.

End Float32ScanFacts.

(** ** The float32 call against the exact one *)

Module Float32CallFacts.
Import Builder Kernel Driver Reference Visited Float32Range.
Import BuilderFacts NumFacts TableFacts EquivalenceFacts StabilityFacts.
Import Float32Facts RefinementFacts Float32ScanFacts.

(** The blocks of the valid steps of a lane lie within the keys, and there
    are no more of them than key blocks. *)
Lemma valid_blocks_in_range (m : MaskFnAttentionBias) (S B : Z) (lens : list Z) (b : nat) :
  0 < B -> S mod B = 0 -> 1 <= nth b lens 0 <= S ->
  (forall f w, mask m = Some f -> sliding_window_size m = Some w ->
               0 <= w /\ forall q k, f q k = sliding_window_causal_mask w q k) ->
  let tables := kv_block_offset_tables m S B lens in
  0 <= nth b (snd tables) 0
  /\ nth b (snd tables) 0 * B <= S
  /\ forall j : nat, Z.of_nat j < nth b (snd tables) 0 ->
       0 <= kv_index_map (fst tables) b j
       /\ (kv_index_map (fst tables) b j + 1) * B <= S.
Proof.
  intros HB Hmod Hlen Hsw tables.
  destruct (driver_visited m S B lens b HB Hmod Hlen Hsw) as [keep Hdrv].
  cbv zeta in Hdrv. fold tables in Hdrv. destruct Hdrv as [Hn [Hvis _]].
  set (len := nth b lens 0) in *. set (r := (len - 1) / B) in *.
  set (visited := filter keep (zrange 0 (r + 1))) in *.
  destruct (cdiv_exact S B HB Hmod) as [_ HS].
  assert (Hr : 0 <= r < S / B).
  { subst r. split; [apply Z.div_pos; lia|]. apply Z.div_lt_upper_bound; lia. }
  assert (Hlenv : (length visited <= Z.to_nat (r + 1))%nat).
  { subst visited. etransitivity; [apply filter_length_le|].
    rewrite length_zrange. lia. }
  split; [rewrite Hn; lia|]. split; [rewrite Hn; nia|].
  intros j Hj.
  assert (Hin : In (kv_index_map (fst tables) b j) visited).
  { rewrite <- Hvis. apply in_map. apply in_seq. lia. }
  subst visited. apply filter_In in Hin. destruct Hin as [Hin _].
  apply In_zrange in Hin. nia.
Qed.


Section Lane.
Variable cfg : Config.
Variable input_batch : InputBatch.
Variable mask_bias : MaskFnAttentionBias.
Variable bias_value : option BiasTensor.
Variable kv_seq_len : list Z.
Variable block_size : Z.
Hypothesis block_size_pos : 0 < block_size.

Let g := group_size input_batch.
Let bk := Z.to_nat block_size.

(** The range conditions of a head of a batch element are those of its
    lane of the grid. *)
Lemma batch_lane_in_range (b h i : nat) (lo vmax : R) :
  k_seq_len input_batch mod block_size = 0 ->
  (forall f w, mask mask_bias = Some f -> sliding_window_size mask_bias = Some w ->
               0 <= w /\ forall q k, f q k = sliding_window_causal_mask w q k) ->
  (i < g)%nat ->
  1 <= nth b kv_seq_len 0 <= k_seq_len input_batch ->
  logits_in_range cfg input_batch mask_bias bias_value kv_seq_len b (h * g + i) lo ->
  values_in_range input_batch b h vmax ->
  let tables :=
    kv_block_offset_tables mask_bias (k_seq_len input_batch) block_size kv_seq_len in
  lane_in_range cfg (mask mask_bias) input_batch bias_value bk g kv_seq_len
    (fst tables) (snd tables) b h i lo vmax.
Proof.
  intros Hmod Hsw Hi Hlen [Hlo Hlog] [Hval [Hsum Hcnt]] tables.
  destruct (valid_blocks_in_range mask_bias (k_seq_len input_batch) block_size kv_seq_len b
              block_size_pos Hmod Hlen Hsw) as [Hnb [HnS Hblocks]].
  fold tables in Hnb, HnS, Hblocks.
  assert (Hbk : Z.of_nat bk = block_size) by (unfold bk; lia).
  assert (Hvmax : (0 <= vmax)%R).
  { pose proof (Hval 0 0%nat ltac:(lia)) as H0.
    pose proof (Rabs_pos (value input_batch b 0 h 0%nat)). lra. }
  set (nb := nth b (snd tables) 0) in *.
  assert (HSr : (IZR nb * INR bk <= IZR (k_seq_len input_batch))%R).
  { rewrite INR_IZR_INZ, Hbk, <- mult_IZR. now apply IZR_le. }
  assert (Hn0 : (0 <= IZR nb)%R) by (apply IZR_le; lia).
  assert (Hhead : ((h * g + i) / group_size input_batch)%nat = h)
    by (apply (head_of_row input_batch block_size block_size_pos h i Hi)).
  unfold lane_in_range. cbv zeta. fold nb.
  split; [exact Hlo|]. split; [exact Hvmax|]. split; [unfold bk; lia|].
  split; [|split].
  - intros j c Hj Hc Hacc.
    set (e := kv_index_map (fst tables) b j) in *.
    rewrite Hbk in Hacc.
    destruct (Hlog (e * block_size + Z.of_nat c)) as [Hx [Hdot Hscale]];
      [destruct (Hblocks j Hj) as [He0 _]; subst e; nia|exact Hacc|].
    rewrite Hhead in Hdot.
    split; [|split].
    + pose proof (step_logits_ref cfg input_batch mask_bias bias_value kv_seq_len
                    block_size block_size_pos (fst tables) b h i j c Hi) as E.
      fold bk g e in E. rewrite E. exact Hx.
    + unfold q_lane, k_lane, block_at. rewrite Hbk. exact Hdot.
    + unfold scaled_qk in Hscale. rewrite Hhead in Hscale.
      unfold dot, q_lane, k_lane, block_at. rewrite Hbk.
      rewrite Rmult_comm. exact Hscale.
  - intros j c d' Hj Hc. unfold step_values, block_at, v_lane. rewrite Hbk.
    destruct (Hblocks j Hj) as [He0 He1]. apply Hval. nia.
  - assert (Hp : (0 <= IZR (k_seq_len input_batch))%R) by (apply IZR_le; lia).
    split; [nra|lra].
Qed.


End Lane.

(** What [__call__] returns in float32 when nothing raises. *)
Lemma f32_call_returns (cfg : Config) (dev : Float32Driver.Device) (ib : InputBatch)
  (m : MaskFnAttentionBias) (ev : option BiasTensor) (tp : list (list Z)) :
  bias ib = mkBias (Some m) ev ->
  target_positions m = Some tp ->
  q_seq_len ib = 1%nat ->
  shapes_fit ib tp ev ->
  (group_size ib <= 512)%nat ->
  0 < tpu_block_size cfg ->
  0 < k_seq_len ib ->
  let block_size := Z.min (tpu_block_size cfg) (k_seq_len ib) in
  let lens := kv_seq_len_of tp (batch_size ib) in
  let tables := kv_block_offset_tables m (k_seq_len ib) block_size lens in
  Float32Driver.call cfg dev ib
  = Float32Driver.mkOutcome 1
      (Return (fun b _ n d =>
         Float32Kernel.o_ref
           (Float32Driver.run_lane cfg (mask m) ib ev (Z.to_nat block_size) (group_size ib)
              lens (fst tables) (snd tables) b (n / group_size ib)
              (Z.to_nat (list_max (snd tables)))
              (Float32Kernel.mkBuffers
                 (Float32Driver.vmem dev b (n / group_size ib)%nat)
                 (Float32Driver.out_init dev b (n / group_size ib)%nat) []))
           (n mod group_size ib)%nat d)).
Proof.
  intros Hbias Htp Hq Hshape Hg Hcfg HS block_size lens tables.
  unfold Float32Driver.call.
  rewrite (prepare_returns cfg ib m ev tp Hbias Htp Hq Hshape Hg Hcfg HS).
  reflexivity.
Qed.


End Float32CallFacts.

(** ** The float32 kernel against the dense reference *)

Module Float32Equivalence.
Import Builder Kernel Driver Reference Visited Float32Range Samples.
Import BuilderFacts NumFacts TableFacts EquivalenceFacts.
Import Float32Facts RefinementFacts Float32ScanFacts Float32CallFacts.





End Float32Equivalence.

(** ** The float32 accumulator *)

Module Float32AccumulatorFacts.
Import Builder Kernel Driver Visited Float32Range Samples.
Import NumFacts AccumulatorFacts StabilityFacts.
Import Float32Facts RefinementFacts Float32ScanFacts.

Section Lane.
Variable cfg : Config.
Variable mask_fn : option MaskFn.
Variable input_batch : InputBatch.
Variable bias_value : option BiasTensor.
Variable block_kv : nat.
Variable q_seq_head : nat.
Variable kv_seq_len : list Z.
Variable kv_block_offset : list (list Z).
Variable kv_block_offset_size : list Z.
Variable b h : nat.


(** After every valid step of a lane within the range the normalizer [l]
    is a finite number, at least 1: the division of [final] is by a number
    that is neither zero nor an infinity. *)
Theorem normalizer_at_least_one (t : nat) (bufs : Float32Kernel.Buffers) (i : nat)
  (lo vmax : R) :
  lane_in_range cfg mask_fn input_batch bias_value block_kv q_seq_head kv_seq_len
    kv_block_offset kv_block_offset_size b h i lo vmax ->
  Z.of_nat t < nth b kv_block_offset_size 0 ->
  exists l : R,
    Float32Kernel.l_i
      (Float32Kernel.scratch
         (Float32Driver.run_lane cfg mask_fn input_batch bias_value block_kv q_seq_head
            kv_seq_len kv_block_offset kv_block_offset_size b h (S t) bufs)) i
    = F32.Val l
    /\ (1 <= l <= INR (S t) * INR block_kv)%R.
Proof.
  intros Hrange Ht.
  set (bufs0 := mkBuffers (vmem device0 b h) (out_init device0 b h) []).
  destruct (lane_refines cfg mask_fn input_batch bias_value block_kv q_seq_head kv_seq_len
              kv_block_offset kv_block_offset_size b h lo vmax i Hrange t bufs bufs0 Ht)
    as [_ [_ [Hl [Hlb _]]]].
  destruct Hrange as [_ [_ [Hbk _]]].
  eexists. split; [exact Hl|]. split; [|apply Hlb].
  exact (exact_normalizer_at_least_one cfg mask_fn input_batch bias_value block_kv
           q_seq_head kv_seq_len kv_block_offset kv_block_offset_size b h t bufs0 i
           Ht Hbk).
Qed.

(** The output of a lane within the range is a finite number, a weighted
    mean of the value entries the lane has read: bounds that hold for
    column [d] of the value rows of every block the lane visits hold for
    column [d] of the output. *)
Theorem lane_output_within_values (steps : nat) (bufs : Float32Kernel.Buffers)
  (i d : nat) (lo vmax low high : R) :
  lane_in_range cfg mask_fn input_batch bias_value block_kv q_seq_head kv_seq_len
    kv_block_offset kv_block_offset_size b h i lo vmax ->
  1 <= nth b kv_block_offset_size 0 ->
  nth b kv_block_offset_size 0 <= Z.of_nat steps ->
  (forall j c : nat,
     Z.of_nat j < nth b kv_block_offset_size 0 -> (c < block_kv)%nat ->
     (low <= value input_batch b
               (kv_index_map kv_block_offset b j * Z.of_nat block_kv + Z.of_nat c) h d
      <= high)%R) ->
  exists x : R,
    Float32Kernel.o_ref
      (Float32Driver.run_lane cfg mask_fn input_batch bias_value block_kv q_seq_head
         kv_seq_len kv_block_offset kv_block_offset_size b h steps bufs) i d
    = F32.Val x
    /\ (low <= x <= high)%R.
Proof.
  intros Hrange Hn Hs Hv.
  set (bufs0 := mkBuffers (vmem device0 b h) (out_init device0 b h) []).
  eexists. split.
  - exact (lane_output_refines cfg mask_fn input_batch bias_value block_kv q_seq_head
             kv_seq_len kv_block_offset kv_block_offset_size b h lo vmax i Hrange
             steps bufs bufs0 d Hn Hs).
  - destruct Hrange as [_ [_ [Hbk _]]].
    exact (exact_lane_output_within_values cfg mask_fn input_batch bias_value block_kv
             q_seq_head kv_seq_len kv_block_offset kv_block_offset_size b h steps bufs0
             i d low high Hn Hs Hbk Hv).
Qed.

End Lane.

End Float32AccumulatorFacts.

(** ** More on the float32 kernel against the dense reference *)

Module Float32Extras.
Import Builder Kernel Driver Reference Visited Float32Range Samples.
Import BuilderFacts NumFacts MaskFacts TableFacts EquivalenceFacts EquivalenceExtras.
Import Float32Facts Float32CallFacts Float32Equivalence.




End Float32Extras.

(** ** Evaluating the float32 kernel *)

Module Float32Eval.
Import Builder Kernel Driver Visited Float32Range.
Import NumFacts MaskFacts StabilityFacts Float32Facts RefinementFacts.

Local Open Scope R_scope.

(** The update of lines 112-133, field by field. *)
Lemma update_m_i (bk : nat) (qk v : Float32Kernel.Tensor2) (s : Float32Kernel.Scratch)
  (i : nat) :
  Float32Kernel.m_i (Float32Kernel.update bk qk v s) i
  = F32.max (Float32Kernel.m_i s i) (Float32Kernel.max_n (qk i) bk).
Proof. reflexivity. Qed.

Lemma update_l_i (bk : nat) (qk v : Float32Kernel.Tensor2) (s : Float32Kernel.Scratch)
  (i : nat) :
  Float32Kernel.l_i (Float32Kernel.update bk qk v s) i
  = F32.add
      (F32.mul (F32.exp (F32.sub (Float32Kernel.m_i s i)
                           (Float32Kernel.m_i (Float32Kernel.update bk qk v s) i)))
         (Float32Kernel.l_i s i))
      (Float32Kernel.sum_n
         (fun c => F32.exp (F32.sub (qk i c)
                              (Float32Kernel.m_i (Float32Kernel.update bk qk v s) i)))
         bk).
Proof. reflexivity. Qed.

Lemma update_o_scratch (bk : nat) (qk v : Float32Kernel.Tensor2)
  (s : Float32Kernel.Scratch) (i d : nat) :
  Float32Kernel.o_scratch (Float32Kernel.update bk qk v s) i d
  = F32.add
      (F32.mul (F32.exp (F32.sub (Float32Kernel.m_i s i)
                           (Float32Kernel.m_i (Float32Kernel.update bk qk v s) i)))
         (Float32Kernel.o_scratch s i d))
      (Float32Kernel.sum_n
         (fun c => F32.mul
                     (F32.exp (F32.sub (qk i c)
                                 (Float32Kernel.m_i (Float32Kernel.update bk qk v s) i)))
                     (v d c))
         bk).
Proof. reflexivity. Qed.

Lemma sum_n_2 (f : nat -> F32.float32) :
  Float32Kernel.sum_n f 2 = F32.add (F32.add (F32.Val 0) (f 0%nat)) (f 1%nat).
Proof. reflexivity. Qed.

Lemma max_n_2 (x y : R) (f : nat -> F32.float32) :
  f 0%nat = F32.Val x -> f 1%nat = F32.Val y ->
  Float32Kernel.max_n f 2 = F32.Val (Rmax x y).
Proof.
  intros H0 H1. unfold Float32Kernel.max_n. cbn [seq map fold_right]. now rewrite H0, H1.
Qed.

(** [exp] of a difference of finite numbers: exact between [-104] and 0,
    0 from [-104] downwards. *)
Lemma exp_sub_val (x y : R) :
  - F32.exp_underflow < x - y <= 0 ->
  F32.exp (F32.sub (F32.Val x) (F32.Val y)) = F32.Val (exp (x - y)).
Proof.
  intros H. unfold F32.exp_underflow, F32.max_float in *.
  cbn [F32.sub F32.opp F32.add]. fold (x - y).
  rewrite of_real_val by (unfold F32.max_float; apply Rabs_le; lra).
  cbn [F32.exp]. unfold F32.exp_underflow.
  destruct (Rle_dec _ _) as [H'|_]; [lra|].
  apply of_real_val. pose proof (exp_pos (x - y)). pose proof (exp_le_1 (x - y) ltac:(lra)).
  unfold F32.max_float. apply Rabs_le. lra.
Qed.

Lemma exp_sub_underflow (x y : R) :
  - F32.max_float <= x - y <= - F32.exp_underflow ->
  F32.exp (F32.sub (F32.Val x) (F32.Val y)) = F32.Val 0.
Proof.
  intros H. unfold F32.exp_underflow, F32.max_float in *.
  cbn [F32.sub F32.opp F32.add]. fold (x - y).
  rewrite of_real_val by (unfold F32.max_float; apply Rabs_le; lra).
  cbn [F32.exp]. unfold F32.exp_underflow.
  destruct (Rle_dec _ _) as [_|H']; [reflexivity|lra].
Qed.



Section Lane.
Variable cfg : Config.
Variable mask_fn : option MaskFn.
Variable input_batch : InputBatch.
Variable block_kv : nat.
Variable q_seq_head : nat.
Variable kv_seq_len : list Z.
Variable kv_block_offset : list (list Z).
Variable b h j i c : nat.

Let p : Z := (kv_index_map kv_block_offset b j * Z.of_nat block_kv + Z.of_nat c)%Z.

(** A rejected position gets [NEG_INF], whatever the dot product gave. *)
Lemma f32_rejected_logit (bias_value : option BiasTensor) :
  key_accepted mask_fn (nth b kv_seq_len 0%Z) p = false ->
  Float32Visited.step_logits cfg mask_fn input_batch bias_value block_kv q_seq_head
    kv_seq_len kv_block_offset b h j i c
  = F32.NEG_INF.
Proof.
  unfold Float32Visited.step_logits, Float32Kernel.masked_logits, key_accepted, p.
  intros H.
  match goal with
  | |- (if ?cond then _ else _) = _ => replace cond with false; [reflexivity|]
  end.
  destruct mask_fn; [now rewrite H|]. now rewrite andb_true_r in H.
Qed.

(** An accepted position without an explicit bias gets the scaled dot
    product, when neither the dot product nor its scaling overflows. *)
Lemma f32_accepted_logit (x : R) :
  key_accepted mask_fn (nth b kv_seq_len 0%Z) p = true ->
  dot (per_head_dim input_batch) (q_lane input_batch q_seq_head b h)
    (block_at block_kv (k_lane input_batch b h) (kv_index_map kv_block_offset b j)) i c
  * softmax_scale cfg = x ->
  Rsum (map (fun d => Rabs (q_lane input_batch q_seq_head b h i d
                            * block_at block_kv (k_lane input_batch b h)
                                (kv_index_map kv_block_offset b j) d c))
            (seq 0 (per_head_dim input_batch))) <= F32.max_float ->
  Rabs x <= F32.max_float ->
  Float32Visited.step_logits cfg mask_fn input_batch None block_kv q_seq_head
    kv_seq_len kv_block_offset b h j i c
  = F32.Val x
  /\ Visited.step_logits cfg mask_fn input_batch None block_kv q_seq_head
       kv_seq_len kv_block_offset b h j i c
     = Fin x.
Proof.
  intros Hacc Hx Hdot Hscale.
  assert (Hexact : Visited.step_logits cfg mask_fn input_batch None block_kv q_seq_head
                     kv_seq_len kv_block_offset b h j i c = Fin x).
  { unfold Visited.step_logits. cbn [option_map].
    rewrite accepted_logit by exact Hacc. now rewrite Hx. }
  split; [|exact Hexact].
  unfold Float32Visited.step_logits, Float32Kernel.masked_logits. cbn [option_map].
  match goal with
  | |- (if ?cond then _ else _) = _ => replace cond with true
  end.
  2:{ unfold key_accepted, p in Hacc. destruct mask_fn; [now rewrite Hacc|].
      now rewrite andb_true_r in Hacc. }
  unfold Float32Kernel.dot.
  rewrite (sum_n_val _ (fun d => q_lane input_batch q_seq_head b h i d
                                 * block_at block_kv (k_lane input_batch b h)
                                     (kv_index_map kv_block_offset b j) d c)).
  - fold (dot (per_head_dim input_batch) (q_lane input_batch q_seq_head b h)
            (block_at block_kv (k_lane input_batch b h) (kv_index_map kv_block_offset b j))
            i c).
    destruct (Req_dec_T (softmax_scale cfg) 1) as [H1|H1].
    + f_equal. rewrite <- Hx, H1. lra.
    + rewrite mul_val by (rewrite Hx; exact Hscale). now rewrite Hx.
  - intros d Hd. unfold Float32Driver.lift. apply mul_val.
    apply Rle_trans with (2 := Hdot).
    apply (Rsum_ge_term (fun d => Rabs (q_lane input_batch q_seq_head b h i d
                                        * block_at block_kv (k_lane input_batch b h)
                                            (kv_index_map kv_block_offset b j) d c))).
    + intros e _. apply Rabs_pos.
    + apply in_seq. lia.
  - exact Hdot.
Qed.

End Lane.

End Float32Eval.

(** ** Examples on concrete batches *)

Module Examples.
Import Builder Kernel Driver Reference Visited Float32Range.
Import BuilderFacts NumFacts ScanFacts AccumulatorFacts MaskFacts TableFacts EquivalenceFacts.
Import Float32Facts RefinementFacts Float32ScanFacts Float32CallFacts Float32Equivalence.
Import Float32AccumulatorFacts Float32Extras Float32Eval.
Import Samples.

(** The window of the logits of the samples starts at 0. *)
Lemma window_ok_0 : window_ok 0.
Proof. unfold window_ok, F32.neg_inf_value, F32.exp_underflow. lra. Qed.


(** The values [p + 1] over 4 key positions are bounded by 4. *)
Lemma position_values_in_range (ib : InputBatch) (b h : nat) :
  k_seq_len ib = 4 ->
  (forall p d, value ib b p h d = position_values b p h d) ->
  values_in_range ib b h 4.
Proof.
  intros HS Hv. unfold values_in_range. rewrite HS. unfold F32.max_float.
  split; [|split; lra].
  intros p d Hp. rewrite Hv. unfold position_values.
  assert (H : (0 <= IZR (p + 1) <= 4)%R) by (split; apply IZR_le; lia).
  rewrite Rabs_pos_eq; lra.
Qed.

(** The shapes of the samples fit. *)
Lemma sample_shapes_fit (bs : nat) (m : option MaskFnAttentionBias)
  (sink : option (nat -> R)) (tp : list (list Z)) :
  (0 < bs)%nat ->
  (forall row, In row tp -> row <> []) ->
  (length tp = 1%nat \/ length tp = bs) ->
  shapes_fit (batch_of bs m sink) tp None.
Proof.
  intros Hbs Hrows Hlen. unfold shapes_fit. cbn [batch_of batch_size num_kv_heads
    per_head_dim num_heads]. repeat split; try assumption; try lia.
Qed.

Lemma single_row_not_empty (x : Z) (row : list Z) : In row [[x]] -> row <> [].
Proof. intros [<-|[]]. discriminate. Qed.










(** Float32 arithmetic on the numbers of the samples. *)
Ltac in_float_range :=
  unfold F32.max_float, F32.neg_inf_value, F32.exp_underflow in *;
  try apply Rabs_le; lra.

Lemma exp_sub_same (x : R) :
  (Rabs x <= F32.max_float)%R -> F32.exp (F32.sub (F32.Val x) (F32.Val x)) = F32.Val 1.
Proof.
  intros _. rewrite exp_sub_val by in_float_range. now rewrite Rminus_diag, exp_0.
Qed.

Lemma Rmax_same (x : R) : Rmax x x = x.
Proof. unfold Rmax. destruct (Rle_dec x x); reflexivity. Qed.


(** The dense reference of [low_logit_batch]: position 0 is the only
    accepted one, its value is 1. *)
Lemma low_logit_reference :
  reference cfg2 low_logit_batch causal_bias None [1] 0 0 0 = 1%R.
Proof.
  set (logit := ref_logit cfg2 low_logit_batch causal_bias None [1] 0 0).
  assert (H0 : exists x, logit 0 = Fin x) by (eexists; reflexivity).
  destruct H0 as [x H0].
  assert (H1 : logit 1 = NEG_INF) by reflexivity.
  assert (H2 : logit 2 = NEG_INF) by reflexivity.
  assert (H3 : logit 3 = NEG_INF) by reflexivity.
  assert (Hmax : ref_max cfg2 low_logit_batch causal_bias None [1] 0 0 = Fin x).
  { unfold ref_max. change (positions low_logit_batch) with [0; 1; 2; 3].
    cbn [map]. fold logit. rewrite H0, H1, H2, H3. reflexivity. }
  assert (Hw0 : ref_weight cfg2 low_logit_batch causal_bias None [1] 0 0 0 = 1%R).
  { unfold ref_weight. fold logit. rewrite Hmax, H0. apply xexp_sub_self. }
  assert (Hw1 : ref_weight cfg2 low_logit_batch causal_bias None [1] 0 0 1 = 0%R).
  { unfold ref_weight. fold logit. now rewrite Hmax, H1. }
  assert (Hw2 : ref_weight cfg2 low_logit_batch causal_bias None [1] 0 0 2 = 0%R).
  { unfold ref_weight. fold logit. now rewrite Hmax, H2. }
  assert (Hw3 : ref_weight cfg2 low_logit_batch causal_bias None [1] 0 0 3 = 0%R).
  { unfold ref_weight. fold logit. now rewrite Hmax, H3. }
  unfold reference, softmax. change (positions low_logit_batch) with [0; 1; 2; 3].
  unfold Rsum. cbn [map fold_right]. rewrite Hw0, Hw1, Hw2, Hw3.
  unfold low_logit_batch, set_query, set_key_value, batch_of, position_values.
  cbn [value]. simpl. lra.
Qed.

(** C1 as stated also fails outside the window of the logits: [NEG_INF] is
    the finite number [-1e15].  On [low_logit_batch] the only real key, at
    position 0, has the logit [-1e16]; the masked position 1 of its block
    gets [NEG_INF], which is larger, so the running maximum is [NEG_INF],
    the real key gets the weight [exp(-9e15) = 0] and the masked one the
    weight 1: the kernel returns the value 2 of the stale cache entry at
    position 1, while the dense reference is the value 1 of position 0. *)
Lemma low_logit_returns_stale_value :
  exists out,
    Float32Driver.call cfg2 device32 low_logit_batch
    = Float32Driver.mkOutcome 1 (Return out)
    /\ out 0%nat 0%nat 0%nat 0%nat = F32.Val 2
    /\ reference cfg2 low_logit_batch causal_bias None [1] 0 0 0 = 1%R.
Proof.
  eexists. split.
  - apply (f32_call_returns cfg2 device32 low_logit_batch causal_bias None [[0]]);
      [reflexivity|reflexivity|reflexivity
      |apply (sample_shapes_fit 1 (Some causal_bias) None [[0]]);
         [lia|apply single_row_not_empty|now left]
      |cbv; lia|reflexivity|reflexivity].
  - split; [|exact low_logit_reference]. cbn beta.
    set (mask_fn := Some causal_mask).
    set (bufs := Float32Kernel.mkBuffers (Float32Driver.vmem device32 0 0)
                   (Float32Driver.out_init device32 0 0) []).
    change (Float32Kernel.o_ref
              (Float32Driver.run_lane cfg2 mask_fn low_logit_batch None 2 1 [1]
                 [[0; 0]] [1] 0 0 1 bufs) 0%nat 0%nat = F32.Val 2).
    rewrite (proj2 (f32_run_stores_once cfg2 mask_fn low_logit_batch None 2 1 [1]
                      [[0; 0]] [1] 0 0 1 bufs ltac:(simpl; lia) ltac:(simpl; lia))).
    set (logits := Float32Visited.step_logits cfg2 mask_fn low_logit_batch None 2 1 [1]
                     [[0; 0]] 0 0).
    set (values := Float32Visited.step_values low_logit_batch 2 [[0; 0]] 0 0).
    set (next := Float32Kernel.scratch
                   (Float32Driver.run_lane cfg2 mask_fn low_logit_batch None 2 1 [1]
                      [[0; 0]] [1] 0 0 1 bufs)).
    assert (Hnext : next = Float32Kernel.update 2 (logits 0%nat) (values 0%nat)
                             (Float32Visited.before_step cfg2 mask_fn low_logit_batch None
                                2 1 [1] [[0; 0]] [1] 0 0 0 bufs)).
    { subst next. apply f32_scratch_run_S. reflexivity. }
    assert (L0 : logits 0%nat 0%nat 0%nat = F32.Val (-10000000000000000)).
    { apply f32_accepted_logit.
      - reflexivity.
      - unfold dot, sum_n, Rsum, block_at, k_lane, q_lane, kv_index_map. simpl.
        unfold ones4, low_keys. lra.
      - unfold Rsum, block_at, k_lane, q_lane, kv_index_map. simpl.
        unfold ones4, low_keys. rewrite Rmult_1_l, Rabs_left by lra. in_float_range.
      - rewrite Rabs_left by lra. in_float_range. }
    assert (L1 : logits 0%nat 0%nat 1%nat = F32.Val F32.neg_inf_value)
      by (apply f32_rejected_logit; reflexivity).
    assert (V0 : values 0%nat 0%nat 0%nat = F32.Val 1 /\ values 0%nat 0%nat 1%nat = F32.Val 2)
      by (split; reflexivity).
    destruct V0 as [V00 V01].
    assert (Hm : Float32Kernel.m_i next 0%nat = F32.Val F32.neg_inf_value).
    { rewrite Hnext, update_m_i.
      rewrite (max_n_2 (-10000000000000000) F32.neg_inf_value) by assumption.
      cbn [Float32Visited.before_step Nat.eqb Float32Kernel.init Float32Kernel.m_i F32.max].
      unfold F32.NEG_INF. cbn [F32.max]. f_equal.
      rewrite (Rmax_right (-10000000000000000)) by in_float_range. apply Rmax_same. }
    assert (Hl : Float32Kernel.l_i next 0%nat = F32.Val 1).
    { rewrite Hnext, update_l_i, <- Hnext, Hm, sum_n_2, L0, L1.
      cbn [Float32Visited.before_step Nat.eqb Float32Kernel.init Float32Kernel.m_i
           Float32Kernel.l_i].
      unfold F32.NEG_INF. rewrite exp_sub_same by in_float_range.
      rewrite exp_sub_underflow by in_float_range.
      rewrite mul_val by in_float_range. rewrite !add_val by in_float_range.
      f_equal. lra. }
    assert (Ho : Float32Kernel.o_scratch next 0%nat 0%nat = F32.Val 2).
    { rewrite Hnext, update_o_scratch, <- Hnext, Hm, sum_n_2, L0, L1, V00, V01.
      cbn [Float32Visited.before_step Nat.eqb Float32Kernel.init Float32Kernel.m_i
           Float32Kernel.o_scratch].
      unfold F32.NEG_INF. rewrite exp_sub_same by in_float_range.
      rewrite exp_sub_underflow by in_float_range.
      rewrite !mul_val by in_float_range. rewrite !add_val by in_float_range.
      f_equal. lra. }
    rewrite Ho, Hl. rewrite div_val by in_float_range. f_equal. lra.
Qed.

(** The lane of [ramp_batch]: the logits 0, 1, 2, 3 lie in the window at 0,
    the values 1, 2, 3, 4 are bounded by 4. *)
Lemma ramp_logits_in_range : logits_in_range cfg2 ramp_batch ramp_bias None [4] 0 0 0.
Proof.
  split; [exact window_ok_0|]. intros p Hp Hacc.
  assert (Hlt : p < 4).
  { unfold accepted, key_accepted in Hacc. apply andb_true_iff in Hacc.
    destruct Hacc as [H _]. now apply Z.ltb_lt in H. }
  assert (Hr : (0 <= IZR p <= 3)%R) by (split; apply IZR_le; lia).
  assert (Hqk : scaled_qk cfg2 ramp_batch 0 0 p = IZR p).
  { unfold scaled_qk, sum_n, Rsum. simpl. unfold ones4, position_keys. lra. }
  split; [|split].
  - exists (IZR p). split; [|lra]. unfold ref_logit. now rewrite Hacc, Hqk.
  - unfold Rsum. simpl. unfold ones4, position_keys.
    rewrite Rmult_1_l, Rabs_pos_eq by lra. in_float_range.
  - rewrite Hqk, Rabs_pos_eq by lra. in_float_range.
Qed.

Lemma ramp_lane_in_range :
  lane_in_range cfg2 (Some causal_mask) ramp_batch None 2 1 [4] [[0; 1]] [2] 0 0 0 0 4.
Proof.
  apply (batch_lane_in_range cfg2 ramp_batch ramp_bias None [4] 2 eq_refl 0 0 0 0 4).
  - reflexivity.
  - intros f w _ Hw. discriminate Hw.
  - cbv. lia.
  - split; vm_compute; discriminate.
  - exact ramp_logits_in_range.
  - apply position_values_in_range; reflexivity.
Qed.

(** The second update of the lane of [ramp_batch]: the first block left
    the maximum 1 and [l = exp(-1) + 1], [o = exp(-1) * 1 + 2]; the second
    block raises the maximum to 3 and rescales both by [exp(-2)]. *)
Lemma ramp_second_update_rescales :
  let mask_fn := Some causal_mask in
  let bufs := Float32Kernel.mkBuffers (Float32Driver.vmem device32 0 0)
                (Float32Driver.out_init device32 0 0) [] in
  let prev := Float32Visited.before_step cfg2 mask_fn ramp_batch None 2 1 [4]
                [[0; 1]] [2] 0 0 1 bufs in
  let next := Float32Kernel.scratch
                (Float32Driver.run_lane cfg2 mask_fn ramp_batch None 2 1 [4]
                   [[0; 1]] [2] 0 0 2 bufs) in
  Float32Kernel.m_i prev 0%nat = F32.Val 1
  /\ Float32Kernel.l_i prev 0%nat = F32.Val (exp (-1) + 1)
  /\ Float32Kernel.o_scratch prev 0%nat 0%nat = F32.Val (exp (-1) * 1 + 2)
  /\ Float32Kernel.m_i next 0%nat = F32.Val 3
  /\ F32.exp (F32.sub (Float32Kernel.m_i prev 0%nat) (Float32Kernel.m_i next 0%nat))
     = F32.Val (exp (-2)).
Proof.
  intros mask_fn bufs prev next.
  set (logits := Float32Visited.step_logits cfg2 mask_fn ramp_batch None 2 1 [4]
                   [[0; 1]] 0 0).
  set (values := Float32Visited.step_values ramp_batch 2 [[0; 1]] 0 0).
  assert (L : forall j c, (j < 2)%nat -> (c < 2)%nat ->
            logits j 0%nat c = F32.Val (IZR (Z.of_nat j * 2 + Z.of_nat c))).
  { intros j c Hj Hc. apply f32_accepted_logit.
    - destruct j as [|[|j]]; [| |lia]; (destruct c as [|[|c]]; [reflexivity|reflexivity|lia]).
    - destruct j as [|[|j]]; [| |lia]; (destruct c as [|[|c]]; [| |lia]);
        unfold dot, sum_n, Rsum, block_at, k_lane, q_lane, kv_index_map; simpl;
        unfold ones4, position_keys; lra.
    - destruct j as [|[|j]]; [| |lia]; (destruct c as [|[|c]]; [| |lia]);
        unfold Rsum, block_at, k_lane, q_lane, kv_index_map; simpl;
        unfold ones4, position_keys;
        rewrite Rmult_1_l, Rabs_pos_eq by lra; in_float_range.
    - destruct j as [|[|j]]; [| |lia]; (destruct c as [|[|c]]; [| |lia]);
        simpl; rewrite Rabs_pos_eq by lra; in_float_range. }
  assert (V0 : values 0%nat 0%nat 0%nat = F32.Val 1 /\ values 0%nat 0%nat 1%nat = F32.Val 2)
    by (split; reflexivity).
  destruct V0 as [V00 V01].
  assert (Hprev : prev = Float32Kernel.update 2 (logits 0%nat) (values 0%nat)
                           (Float32Visited.before_step cfg2 mask_fn ramp_batch None 2 1
                              [4] [[0; 1]] [2] 0 0 0 bufs)).
  { subst prev. unfold Float32Visited.before_step at 1. cbn [Nat.eqb].
    apply f32_scratch_run_S. reflexivity. }
  assert (Hnext : next = Float32Kernel.update 2 (logits 1%nat) (values 1%nat) prev).
  { subst next prev. apply f32_scratch_run_S. reflexivity. }
  pose proof (exp_pos (-1)) as Hexp0.
  pose proof (exp_le_1 (-1) ltac:(lra)) as Hexp1.
  assert (Hm1 : Float32Kernel.m_i prev 0%nat = F32.Val 1).
  { rewrite Hprev, update_m_i.
    rewrite (max_n_2 0 1) by (rewrite L by lia; reflexivity).
    cbn [Float32Visited.before_step Nat.eqb Float32Kernel.init Float32Kernel.m_i F32.max].
    unfold F32.NEG_INF. cbn [F32.max]. f_equal.
    rewrite (Rmax_right 0 1) by lra. apply Rmax_right. in_float_range. }
  assert (Hl1 : Float32Kernel.l_i prev 0%nat = F32.Val (exp (-1) + 1)).
  { rewrite Hprev, update_l_i, <- Hprev, Hm1, sum_n_2, !L by lia.
    cbn [Float32Visited.before_step Nat.eqb Float32Kernel.init Float32Kernel.m_i
         Float32Kernel.l_i].
    unfold F32.NEG_INF. simpl (IZR _).
    rewrite exp_sub_underflow by in_float_range.
    rewrite (exp_sub_val 0 1) by in_float_range.
    rewrite exp_sub_same by in_float_range.
    replace (0 - 1)%R with (-1)%R by lra.
    rewrite mul_val by in_float_range. rewrite !add_val by in_float_range.
    f_equal. lra. }
  assert (Ho1 : Float32Kernel.o_scratch prev 0%nat 0%nat = F32.Val (exp (-1) * 1 + 2)).
  { rewrite Hprev, update_o_scratch, <- Hprev, Hm1, sum_n_2, !L, V00, V01 by lia.
    cbn [Float32Visited.before_step Nat.eqb Float32Kernel.init Float32Kernel.m_i
         Float32Kernel.o_scratch].
    unfold F32.NEG_INF. simpl (IZR _).
    rewrite exp_sub_underflow by in_float_range.
    rewrite (exp_sub_val 0 1) by in_float_range.
    rewrite exp_sub_same by in_float_range.
    replace (0 - 1)%R with (-1)%R by lra.
    rewrite !mul_val by in_float_range. rewrite !add_val by in_float_range.
    f_equal. lra. }
  assert (Hm2 : Float32Kernel.m_i next 0%nat = F32.Val 3).
  { rewrite Hnext, update_m_i, Hm1.
    rewrite (max_n_2 2 3) by (rewrite L by lia; reflexivity).
    cbn [F32.max]. f_equal.
    rewrite (Rmax_right 2 3) by lra. apply Rmax_right. lra. }
  split; [exact Hm1|]. split; [exact Hl1|]. split; [exact Ho1|]. split; [exact Hm2|].
  rewrite Hm1, Hm2, exp_sub_val by in_float_range. f_equal. f_equal. lra.
Qed.


Lemma normalizer_at_least_one_witness :
  let bufs := Float32Kernel.mkBuffers (Float32Driver.vmem device32 0 0)
                (Float32Driver.out_init device32 0 0) [] in
  exists l : R,
    Float32Kernel.l_i
      (Float32Kernel.scratch
         (Float32Driver.run_lane cfg2 (Some causal_mask) ramp_batch None 2 1 [4]
            [[0; 1]] [2] 0 0 2 bufs)) 0%nat
    = F32.Val l
    /\ (1 <= l <= INR 2 * INR 2)%R.
Proof.
  intros bufs.
  apply (normalizer_at_least_one cfg2 (Some causal_mask) ramp_batch None 2 1 [4]
           [[0; 1]] [2] 0 0 1 bufs 0 0 4).
  - exact ramp_lane_in_range.
  - simpl. lia.
Defined.

Lemma lane_output_within_values_witness :
  let bufs := Float32Kernel.mkBuffers (Float32Driver.vmem device32 0 0)
                (Float32Driver.out_init device32 0 0) [] in
  exists x : R,
    Float32Kernel.o_ref
      (Float32Driver.run_lane cfg2 (Some causal_mask) ramp_batch None 2 1 [4]
         [[0; 1]] [2] 0 0 2 bufs) 0%nat 0%nat
    = F32.Val x
    /\ (1 <= x <= 4)%R.
Proof.
  intros bufs.
  apply (lane_output_within_values cfg2 (Some causal_mask) ramp_batch None 2 1 [4]
           [[0; 1]] [2] 0 0 2 bufs 0 0 0 4 1 4).
  - exact ramp_lane_in_range.
  - simpl. lia.
  - simpl. lia.
  - intros j c Hj Hc.
    destruct j as [|[|j]]; [| |simpl in Hj; lia];
      (destruct c as [|[|c]]; [| |lia]); simpl; unfold position_values; simpl; lra.
Defined.



End Examples.
